(** * Catalog-to-CMS synchronisation bridge: a shallow embedding

    This development embeds the two services of the CMS plugin,
    [SanityService] (the document publisher, [sanity.service.ts]) and
    [CmsSyncService] (the sync orchestrator, [cms-sync.service.ts]), as
    state-passing programs over an abstract outside world, and proves the
    properties of the bulk sweep, of the single-entity boundaries, of
    the create / update / delete paths of the publisher and of the
    requests these operations send.

    Conventions.
    - An [async] function is a computation in the monad [M]: it takes the
      current state and returns a completion (normal value or thrown
      value) together with the new state.  [await] is sequencing.
    - [Logger] calls do not influence any result and are left out, except
      where evaluating the logged template can itself throw: reading a
      property of [null] or [undefined], and converting to text a value
      that comes from the remote store.  Identifiers of catalog
      entities (numbers or strings) always convert, and what the
      outside world throws is taken to be an [Error] or to convert, so
      [String(error)] in a handler returns.
    - The callbacks of one [Promise.allSettled] are run in the order in
      which the source starts them.  The two lookups under the
      [Promise.all] of the variant transform are each taken as one
      step; which of them reaches the outside world first is not
      decided by the code and is a parameter.
    - Counters are natural numbers, numeric identifiers are integers.
    - The [while] loop of the sweep takes a bound on its iterations
      (fuel); that a bound of five iterations per entity is never
      reached is proved. *)

From Stdlib Require Import List String Ascii ZArith Lia Bool Arith.
From Stdlib Require Import DecimalString.
Import ListNotations.

Local Open Scope list_scope.
Local Open Scope string_scope.

(* ================================================================== *)
(** * JavaScript values, thrown values and completions *)
(* ================================================================== *)

Module Js.

#[local] Unset Elimination Schemes.
Inductive Value : Type :=
| Undefined
| Null
| Bool (b : bool)
| Num (z : Z)
| NaN
| Str (s : string)
| Arr (items : list Value)
| Obj (fields : list (string * Value)).
#[local] Set Elimination Schemes.

(** What a [throw] carries: an [Error] object, or anything else. *)
Inductive Thrown : Type :=
| ErrorObj (message : string)
| NonError (v : Value).

(** [error instanceof Error ? error.message : "Unknown error"] *)
Definition error_message (e : Thrown) : string :=
  match e with
  | ErrorObj m => m
  | NonError _ => "Unknown error"
  end.

Inductive Completion (A : Type) : Type :=
| Normal (a : A)
| Abrupt (e : Thrown).
Arguments Normal {A} a.
Arguments Abrupt {A} e.

Definition is_normal {A} (c : Completion A) : bool :=
  match c with Normal _ => true | Abrupt _ => false end.

Definition is_abrupt {A} (c : Completion A) : bool :=
  match c with Normal _ => false | Abrupt _ => true end.

(** ToBoolean *)
Definition truthy (v : Value) : bool :=
  match v with
  | Undefined | Null | NaN => false
  | Bool b => b
  | Num z => negb (Z.eqb z 0)
  | Str s => negb (String.eqb s EmptyString)
  | Arr _ | Obj _ => true
  end.

Definition nullish (v : Value) : bool :=
  match v with
  | Undefined | Null => true
  | _ => false
  end.

(** [a ?? b] *)
Definition coalesce (a b : Value) : Value :=
  if nullish a then b else a.

Fixpoint lookup_field (k : string) (fields : list (string * Value)) : Value :=
  match fields with
  | [] => Undefined
  | (k', v) :: rest => if String.eqb k k' then v else lookup_field k rest
  end.

(** [v.k] for a named (non-index) property [k]: reading a property of
    [undefined] or [null] throws a TypeError; primitives and arrays have
    no such own property. *)
Definition get_prop (v : Value) (k : string) : Completion Value :=
  match v with
  | Undefined =>
      Abrupt (ErrorObj ("Cannot read properties of undefined (reading '" ++ k ++ "')"))
  | Null =>
      Abrupt (ErrorObj ("Cannot read properties of null (reading '" ++ k ++ "')"))
  | Obj fields => Normal (lookup_field k fields)
  | _ => Normal Undefined
  end.

(** [v?.k] *)
Definition get_prop_opt (v : Value) (k : string) : Value :=
  match v with
  | Obj fields => lookup_field k fields
  | _ => Undefined
  end.

Definition string_of_nat (n : nat) : string :=
  NilZero.string_of_uint (Nat.to_uint n).

Definition string_of_Z (z : Z) : string :=
  NilZero.string_of_int (Z.to_int z).

Definition quote : string := String (ascii_of_nat 34) EmptyString.

(** [v?.[i]]: an element of an array, a character of a string, the
    property named by the index of an object; [undefined] otherwise. *)
Definition get_index_opt (v : Value) (i : nat) : Value :=
  match v with
  | Arr items => nth i items Undefined
  | Obj fields => lookup_field (string_of_nat i) fields
  | Str s =>
      match String.get i s with
      | Some c => Str (String c EmptyString)
      | None => Undefined
      end
  | _ => Undefined
  end.

Fixpoint join (sep : string) (parts : list string) : string :=
  match parts with
  | [] => EmptyString
  | [p] => p
  | p :: rest => p ++ sep ++ join sep rest
  end.

End Js.

Import Js.

(* ================================================================== *)
(** * The monad of asynchronous, throwing, stateful code *)
(* ================================================================== *)

Section AsyncMonad.

Context {St : Type}.

Definition M (A : Type) : Type := St -> Completion A * St.

Definition ret {A} (a : A) : M A := fun s => (Normal a, s).

Definition throw {A} (e : Thrown) : M A := fun s => (Abrupt e, s).

Definition bind {A B} (m : M A) (k : A -> M B) : M B :=
  fun s =>
    match m s with
    | (Normal a, s') => k a s'
    | (Abrupt e, s') => (Abrupt e, s')
    end.

(** [try { body } catch (error) { handler error }] *)
Definition try_catch {A} (body : M A) (handler : Thrown -> M A) : M A :=
  fun s =>
    match body s with
    | (Normal a, s') => (Normal a, s')
    | (Abrupt e, s') => handler e s'
    end.

Definition lift {A} (c : Completion A) : M A := fun s => (c, s).

End AsyncMonad.

Arguments M : clear implicits.

Declare Scope async_scope.
Delimit Scope async_scope with async.
Notation "x <- m ;; k" := (bind m (fun x => k))
  (at level 61, m at next level, right associativity) : async_scope.
Notation "m ;;; k" := (bind m (fun _ => k))
  (at level 61, right associativity) : async_scope.
Local Open Scope async_scope.

(* ================================================================== *)
(** * Catalog data model *)
(* ================================================================== *)

(** Vendure's [ID = string | number]; numeric identifiers are integers. *)
Inductive EntityId : Type :=
| IdNum (z : Z)
| IdStr (s : string).

Definition EntityId_eqb (a b : EntityId) : bool :=
  match a, b with
  | IdNum x, IdNum y => Z.eqb x y
  | IdStr x, IdStr y => String.eqb x y
  | _, _ => false
  end.

(** [`${id}`] and [id.toString()] *)
Definition id_to_string (i : EntityId) : string :=
  match i with
  | IdNum z => string_of_Z z
  | IdStr s => s
  end.

Definition LanguageCode : Type := string.

Record Translation : Type := mkTranslation {
  languageCode : LanguageCode;
  name : string;
  slug : string
}.

Record Product : Type := mkProduct {
  product_id : EntityId;
  product_translations : list Translation
}.

Record ProductVariant : Type := mkVariant {
  variant_id : EntityId;
  variant_productId : EntityId;
  variant_translations : list Translation;
  variant_product : Product
}.

Record Collection : Type := mkCollection {
  collection_id : EntityId;
  collection_translations : list Translation
}.

(** The declared union is ["create" | "update" | "delete"]; the [switch]
    statements keep a [default] branch for any other run-time value. *)
Inductive OperationType : Type :=
| Create
| Update
| Delete
| OtherOperation (tag : string).

Definition operation_to_string (op : OperationType) : string :=
  match op with
  | Create => "create"
  | Update => "update"
  | Delete => "delete"
  | OtherOperation tag => tag
  end.

(* ------------------------------------------------------------------ *)
(** ** TranslationUtils *)

Module TranslationUtils.

(** Modelled from the spec: [TranslationUtils.getTranslationByLanguage]
    ([utils/translation.utils] is not among the sources).  The spec calls
    it the tolerant language lookup, which "returns undefined on missing
    translation": the translation whose language code is the requested
    one, if there is one. *)
Definition getTranslationByLanguage
    (translations : list Translation) (lang : LanguageCode) : option Translation :=
  find (fun t => String.eqb (languageCode t) lang) translations.

(** Modelled from the spec: [TranslationUtils.getSlugByLanguage], the
    slug lookup of the same missing module: the URL slug of the
    translation in the requested language, [null] when there is none. *)
Definition getSlugByLanguage
    (translations : list Translation) (lang : LanguageCode) : option string :=
  option_map slug (getTranslationByLanguage translations lang).

End TranslationUtils.

Import TranslationUtils.

(* ================================================================== *)
(** * The HTTP boundary *)
(* ================================================================== *)

Inductive HttpMethod : Type := GET | POST | PUT | DELETE.

Definition method_to_string (m : HttpMethod) : string :=
  match m with
  | GET => "GET" | POST => "POST" | PUT => "PUT" | DELETE => "DELETE"
  end.

(** The [url] and [RequestInit] handed to [fetch]. *)
Record HttpRequest : Type := mkRequest {
  req_method : HttpMethod;
  req_url : string;
  req_headers : list (string * string);
  req_body : option string
}.

(** What the code reads of a [Response]: [ok], [status], [statusText],
    the outcome of [text()] and the outcome of [json()]. *)
Record HttpResponse : Type := mkResponse {
  resp_ok : bool;
  resp_status : Z;
  resp_statusText : string;
  resp_text : Completion string;
  resp_json : Completion Value
}.

(** A mutating call is any call that is not a read. *)
Definition is_mutating (r : HttpRequest) : bool :=
  match req_method r with
  | GET => false
  | _ => true
  end.

Record PluginInitOptions : Type := mkOptions {
  sanityProjectId : string;
  sanityDataset : option string;
  sanityApiKey : option string
}.

(** The state threaded through every computation: the outside world
    (remote store, database, clock), and the history of the requests
    handed to [fetch], oldest first. *)
Record State (World : Type) : Type := mkState {
  world : World;
  requests : list HttpRequest
}.
Arguments mkState {World} world requests.
Arguments world {World} s.
Arguments requests {World} s.

(** An operation of the outside world, run inside a computation. *)
Definition on_world {World A : Type}
    (f : World -> Completion A * World) : M (State World) A :=
  fun s => let (c, w) := f (world s) in (c, mkState w (requests s)).

Definition DOCUMENT_TYPE_product : string := "vendureProduct".
Definition DOCUMENT_TYPE_product_variant : string := "vendureProductVariant".
Definition DOCUMENT_TYPE_collection : string := "vendureCollection".

(* ================================================================== *)
(** * SanityService: the document publisher *)
(* ================================================================== *)

Section SanityService.

Variable World : Type.

(** The outside world, as the service sees it. *)
Variable fetch : HttpRequest -> World -> Completion HttpResponse * World.
(** The rate limiter only delays; its effect on the world is opaque. *)
Variable enforceRateLimit : World -> World.
(** [connection.rawConnection.getRepository(Product).findOne] *)
Variable findOneProduct : EntityId -> World -> Completion (option Product) * World.
(** The scheduler: whether, of the two lookups the variant transform
    starts together, the lookup of the parent product reaches the
    outside world before the lookup of the collections. *)
Variable parentLookupFirst : World -> bool.

(** Built-ins that are not modelled further. *)
Variable encodeURIComponent : string -> string.
Variable JSON_stringify : Value -> string.
Variable StringToNumber : string -> Value.
(** The conversion to text of a template literal, [`${v}`]: it throws
    for a value without a usable [toString], such as an object that
    carries a [toString] property of its own. *)
Variable ToString : Value -> Completion string.

(** [TranslationUtils.validateTranslations] is not among the sources.
    Its callers discard what it returns, so all that matters here is
    whether it throws. *)
Variable validateTranslations : list Translation -> LanguageCode -> Completion unit.

Variable options : PluginInitOptions.

Let St : Type := State World.
Let Async : Type -> Type := M St.

(** [Number(id)] *)
Definition Number_ (i : EntityId) : Value :=
  match i with
  | IdNum z => Num z
  | IdStr s => StringToNumber s
  end.

Definition sanityBaseUrl : string :=
  "https://" ++ sanityProjectId options ++ ".api.sanity.io/v2025-09-01".

(** [this.options.sanityDataset || "production"] *)
Definition dataset : string :=
  match sanityDataset options with
  | Some d => if String.eqb d EmptyString then "production" else d
  | None => "production"
  end.

Definition getSanityHeaders : list (string * string) :=
  [ ("Authorization",
     "Bearer " ++ match sanityApiKey options with
                  | Some k => k
                  | None => "undefined"
                  end);
    ("Content-Type", "application/json") ].

(** [await fetch(url, config)], recorded in the request history. *)
Definition do_fetch (r : HttpRequest) : Async HttpResponse :=
  fun s =>
    let (c, w) := fetch r (world s) in
    (c, mkState w (requests s ++ [r])%list).

Definition rateLimit : Async unit :=
  fun s => (Normal tt, mkState (enforceRateLimit (world s)) (requests s)).

Definition makeSanityRequest
    (method : HttpMethod) (endpoint : string) (data : option Value) : Async Value :=
  let url := sanityBaseUrl ++ "/" ++ endpoint in
  let body :=
    match data, method with
    | Some d, (POST | PUT) => if truthy d then Some (JSON_stringify d) else None
    | _, _ => None
    end in
  rateLimit ;;;
  response <- do_fetch (mkRequest method url getSanityHeaders body) ;;
  if negb (resp_ok response) then
    text <- lift (resp_text response) ;;
    throw (ErrorObj ("Sanity API error: " ++ string_of_Z (resp_status response)
                     ++ " " ++ resp_statusText response
                     ++ " - " ++ text))
  else
    match method with
    | DELETE => ret (Obj [])
    | _ => lift (resp_json response)
    end.

(* ---------- LOOKUPS ---------- *)

Definition lookup_query (vendureId : EntityId) (type : string) : string :=
  "*[_type == " ++ quote ++ type ++ quote ++ " && vendureId == "
    ++ id_to_string vendureId ++ "][0]".

Definition lookup_endpoint (vendureId : EntityId) (type : string) : string :=
  "data/query/" ++ dataset ++ "?query=" ++ encodeURIComponent (lookup_query vendureId type).

Definition findDocumentByVendureId (vendureId : EntityId) (type : string) : Async Value :=
  try_catch
    (response <- makeSanityRequest GET (lookup_endpoint vendureId type) None ;;
     result <- lift (get_prop response "result") ;;
     ret (coalesce result Null))
    (fun _ => ret Null).

Definition getCollectionDocumentIds (collections : option (list Collection))
  : Async (list Value) :=
  match collections with
  | None | Some [] => ret []
  | Some cs =>
      let ids := map collection_id cs in
      let filter_ := join " || " (map (fun i => "vendureId == " ++ id_to_string i) ids) in
      let query := "*[_type == " ++ quote ++ DOCUMENT_TYPE_collection ++ quote
                     ++ " && (" ++ filter_ ++ ")]" in
      try_catch
        (response <- makeSanityRequest GET
                       ("data/query/" ++ dataset ++ "?query=" ++ encodeURIComponent query)
                       None ;;
         result <- lift (get_prop response "result") ;;
         match coalesce result (Arr []) with
         | Arr docs =>
             ret (map (fun d => get_prop_opt d "_id")
                      (filter (fun d => truthy (get_prop_opt d "_id")) docs))
         | _ => throw (ErrorObj "result.filter is not a function")
         end)
        (fun _ => ret [])
  end.

Definition findParentProductDocumentId (variant : ProductVariant) : Async Value :=
  try_catch
    (product <- on_world (findOneProduct (variant_productId variant)) ;;
     match product with
     | None => ret Null
     | Some p =>
         doc <- findDocumentByVendureId (product_id p) DOCUMENT_TYPE_product ;;
         ret (coalesce (get_prop_opt doc "_id") Null)
     end)
    (fun _ => ret Null).

(* ---------- TRANSFORMS ---------- *)

Definition slug_value (s : option string) : Value :=
  match s with
  | Some x => Str x
  | None => Null
  end.

Definition transformProductData
    (product : Product) (defaultLanguageCode : LanguageCode)
    (productSlug : option string) : Async (option Value) :=
  match getTranslationByLanguage (product_translations product) defaultLanguageCode with
  | None => ret None
  | Some t =>
      let slug_ :=
        match productSlug with
        | Some s => Some s
        | None => getSlugByLanguage (product_translations product) defaultLanguageCode
        end in
      ret (Some (Obj [ ("_type", Str DOCUMENT_TYPE_product);
                       ("vendureId", Number_ (product_id product));
                       ("title", Str (name t));
                       ("slug", Obj [ ("current", slug_value slug_) ]) ]))
  end.

(** [await Promise.all([p, q])] of two promises that are started
    together: both run to their end, in the order the scheduler
    decides, and the first rejection, if any, is the outcome. *)
Definition promiseAll2 {A B : Type} (pFirst : World -> bool)
    (p : Async A) (q : Async B) : Async (A * B) :=
  fun s =>
    if pFirst (world s) then
      let (a, s1) := p s in
      let (b, s2) := q s1 in
      (match a, b with
       | Normal x, Normal y => Normal (x, y)
       | Abrupt e, _ => Abrupt e
       | Normal _, Abrupt e => Abrupt e
       end, s2)
    else
      let (b, s1) := q s in
      let (a, s2) := p s1 in
      (match b, a with
       | Normal y, Normal x => Normal (x, y)
       | Abrupt e, _ => Abrupt e
       | Normal _, Abrupt e => Abrupt e
       end, s2).

(** [collectionIds.map((id) => ({ _key: `collection-${id}`,
    _type: "reference", _ref: id }))]: the identifiers come from the
    remote store, and the conversion of one of them to text can
    throw. *)
Fixpoint collectionReferences (collectionIds : list Value) : Completion (list Value) :=
  match collectionIds with
  | [] => Normal []
  | i :: rest =>
      match ToString i with
      | Abrupt e => Abrupt e
      | Normal text =>
          match collectionReferences rest with
          | Abrupt e => Abrupt e
          | Normal references =>
              Normal (Obj [ ("_key", Str ("collection-" ++ text));
                            ("_type", Str "reference");
                            ("_ref", i) ] :: references)
          end
      end
  end.

Definition transformVariantData
    (variant : ProductVariant) (defaultLanguageCode : LanguageCode)
    (variantSlug : string) (collections : option (list Collection))
  : Async (option Value) :=
  match getTranslationByLanguage (variant_translations variant) defaultLanguageCode with
  | None => ret None
  | Some t =>
      lookups <- promiseAll2 parentLookupFirst
                   (findParentProductDocumentId variant)
                   (getCollectionDocumentIds collections) ;;
      let parentProductId := fst lookups in
      let collectionIds := snd lookups in
      (* the object literal, of which only the last field can throw *)
      vendureCollections <- lift (collectionReferences collectionIds) ;;
      ret (Some (Obj [ ("_type", Str DOCUMENT_TYPE_product_variant);
                       ("vendureId", Number_ (variant_id variant));
                       ("title", Str (name t));
                       ("slug", Obj [ ("current", Str variantSlug) ]);
                       ("vendureProduct",
                        if truthy parentProductId
                        then Obj [ ("_type", Str "reference"); ("_ref", parentProductId) ]
                        else Undefined);
                       ("vendureCollections", Arr vendureCollections) ]))
  end.

Definition transformCollectionData
    (collection : Collection) (defaultLanguageCode : LanguageCode)
    (collectionSlug : option string) : Async (option Value) :=
  match getTranslationByLanguage (collection_translations collection) defaultLanguageCode with
  | None => ret None
  | Some t =>
      let slug_ :=
        match collectionSlug with
        | Some s => Some s
        | None => getSlugByLanguage (collection_translations collection) defaultLanguageCode
        end in
      ret (Some (Obj [ ("_type", Str DOCUMENT_TYPE_collection);
                       ("vendureId", Number_ (collection_id collection));
                       ("title", Str (name t));
                       ("slug", Obj [ ("current", slug_value slug_) ]) ]))
  end.

(* ---------- CREATE / UPDATE / DELETE ---------- *)

Definition mutate_endpoint : string := "data/mutate/" ++ dataset.

(** [{ mutations: [{ create: data }] }] *)
Definition create_mutation (data : Value) : Value :=
  Obj [ ("mutations", Arr [ Obj [ ("create", data) ] ]) ].

(** [{ mutations: [{ patch: { id, set: data } }] }] *)
Definition patch_mutation (id_ data : Value) : Value :=
  Obj [ ("mutations", Arr [ Obj [ ("patch", Obj [ ("id", id_); ("set", data) ]) ] ]) ].

(** [{ mutations: [{ delete: { id } }] }] *)
Definition delete_mutation (id_ : Value) : Value :=
  Obj [ ("mutations", Arr [ Obj [ ("delete", Obj [ ("id", id_) ]) ] ]) ].

Definition createDocumentFromProduct
    (product : Product) (defaultLanguageCode : LanguageCode)
    (productSlug : option string) : Async unit :=
  data <- transformProductData product defaultLanguageCode productSlug ;;
  match data with
  | None => ret tt
  | Some d =>
      result <- makeSanityRequest POST mutate_endpoint (Some (create_mutation d)) ;;
      (* the log line evaluates [`${result.results?.[0]?.id}`] *)
      results <- lift (get_prop result "results") ;;
      _ <- lift (ToString (get_prop_opt (get_index_opt results 0) "id")) ;;
      ret tt
  end.

Definition updateDocumentFromProduct
    (product : Product) (defaultLanguageCode : LanguageCode)
    (productSlug : option string) : Async unit :=
  existing <- findDocumentByVendureId (product_id product) DOCUMENT_TYPE_product ;;
  if negb (truthy existing) then
    createDocumentFromProduct product defaultLanguageCode productSlug
  else
    data <- transformProductData product defaultLanguageCode productSlug ;;
    match data with
    | None => ret tt
    | Some d =>
        _ <- makeSanityRequest POST mutate_endpoint
               (Some (patch_mutation (get_prop_opt existing "_id") d)) ;;
        (* the log line evaluates [`${existing._id}`]; [existing] is
           truthy here, so the read itself cannot throw *)
        _ <- lift (ToString (get_prop_opt existing "_id")) ;;
        ret tt
    end.

Definition deleteDocumentFromProduct (product : Product) : Async unit :=
  existing <- findDocumentByVendureId (product_id product) DOCUMENT_TYPE_product ;;
  if negb (truthy existing) then ret tt
  else
    _ <- makeSanityRequest POST mutate_endpoint
           (Some (delete_mutation (get_prop_opt existing "_id"))) ;;
    ret tt.

Definition createDocumentFromVariant
    (variant : ProductVariant) (defaultLanguageCode : LanguageCode)
    (variantSlug : string) (collections : option (list Collection)) : Async unit :=
  data <- transformVariantData variant defaultLanguageCode variantSlug collections ;;
  match data with
  | None => ret tt
  | Some d =>
      result <- makeSanityRequest POST mutate_endpoint (Some (create_mutation d)) ;;
      (* the log line evaluates [`${result.results?.[0]?.id}`] *)
      results <- lift (get_prop result "results") ;;
      _ <- lift (ToString (get_prop_opt (get_index_opt results 0) "id")) ;;
      ret tt
  end.

Definition updateDocumentFromVariant
    (variant : ProductVariant) (defaultLanguageCode : LanguageCode)
    (variantSlug : string) (collections : option (list Collection)) : Async unit :=
  existing <- findDocumentByVendureId (variant_id variant) DOCUMENT_TYPE_product_variant ;;
  if negb (truthy existing) then
    createDocumentFromVariant variant defaultLanguageCode variantSlug collections
  else
    data <- transformVariantData variant defaultLanguageCode variantSlug collections ;;
    match data with
    | None => ret tt
    | Some d =>
        _ <- makeSanityRequest POST mutate_endpoint
               (Some (patch_mutation (get_prop_opt existing "_id") d)) ;;
        (* the log line evaluates [`${existing._id}`]; [existing] is
           truthy here, so the read itself cannot throw *)
        _ <- lift (ToString (get_prop_opt existing "_id")) ;;
        ret tt
    end.

Definition deleteDocumentFromVariant (variant : ProductVariant) : Async unit :=
  existing <- findDocumentByVendureId (variant_id variant) DOCUMENT_TYPE_product_variant ;;
  if negb (truthy existing) then ret tt
  else
    _ <- makeSanityRequest POST mutate_endpoint
           (Some (delete_mutation (get_prop_opt existing "_id"))) ;;
    ret tt.

Definition createDocumentFromCollection
    (collection : Collection) (defaultLanguageCode : LanguageCode)
    (collectionSlug : option string) : Async unit :=
  data <- transformCollectionData collection defaultLanguageCode collectionSlug ;;
  match data with
  | None => ret tt
  | Some d =>
      result <- makeSanityRequest POST mutate_endpoint (Some (create_mutation d)) ;;
      (* the log line evaluates [`${result.results?.[0]?.id}`] *)
      results <- lift (get_prop result "results") ;;
      _ <- lift (ToString (get_prop_opt (get_index_opt results 0) "id")) ;;
      ret tt
  end.

Definition updateDocumentFromCollection
    (collection : Collection) (defaultLanguageCode : LanguageCode)
    (collectionSlug : option string) : Async unit :=
  existing <- findDocumentByVendureId (collection_id collection) DOCUMENT_TYPE_collection ;;
  if negb (truthy existing) then
    createDocumentFromCollection collection defaultLanguageCode collectionSlug
  else
    data <- transformCollectionData collection defaultLanguageCode collectionSlug ;;
    match data with
    | None => ret tt
    | Some d =>
        _ <- makeSanityRequest POST mutate_endpoint
               (Some (patch_mutation (get_prop_opt existing "_id") d)) ;;
        (* the log line evaluates [`${existing._id}`]; [existing] is
           truthy here, so the read itself cannot throw *)
        _ <- lift (ToString (get_prop_opt existing "_id")) ;;
        ret tt
    end.

Definition deleteDocumentFromCollection (collection : Collection) : Async unit :=
  existing <- findDocumentByVendureId (collection_id collection) DOCUMENT_TYPE_collection ;;
  if negb (truthy existing) then ret tt
  else
    _ <- makeSanityRequest POST mutate_endpoint
           (Some (delete_mutation (get_prop_opt existing "_id"))) ;;
    ret tt.

(* ---------- PUBLIC SYNC API ---------- *)

Definition syncProduct
    (product : Product) (defaultLanguageCode : LanguageCode)
    (operationType : OperationType) (productSlug : option string) : Async unit :=
  lift (validateTranslations (product_translations product) defaultLanguageCode) ;;;
  match operationType with
  | Create => createDocumentFromProduct product defaultLanguageCode productSlug
  | Update => updateDocumentFromProduct product defaultLanguageCode productSlug
  | Delete => deleteDocumentFromProduct product
  | OtherOperation _ => ret tt
  end.

Definition syncProductVariant
    (variant : ProductVariant) (defaultLanguageCode : LanguageCode)
    (operationType : OperationType) (variantSlug : string)
    (collections : option (list Collection)) : Async unit :=
  lift (validateTranslations (variant_translations variant) defaultLanguageCode) ;;;
  match operationType with
  | Create => createDocumentFromVariant variant defaultLanguageCode variantSlug collections
  | Update => updateDocumentFromVariant variant defaultLanguageCode variantSlug collections
  | Delete => deleteDocumentFromVariant variant
  | OtherOperation _ => ret tt
  end.

Definition syncCollection
    (collection : Collection) (defaultLanguageCode : LanguageCode)
    (operationType : OperationType) (collectionSlug : option string) : Async unit :=
  lift (validateTranslations (collection_translations collection) defaultLanguageCode) ;;;
  match operationType with
  | Create => createDocumentFromCollection collection defaultLanguageCode collectionSlug
  | Update => updateDocumentFromCollection collection defaultLanguageCode collectionSlug
  | Delete => deleteDocumentFromCollection collection
  | OtherOperation _ => ret tt
  end.

End SanityService.

(* ================================================================== *)
(** * CmsSyncService: the sync orchestrator *)
(* ================================================================== *)

Inductive EntityKind : Type := KProduct | KProductVariant | KCollection.

Definition kind_to_string (k : EntityKind) : string :=
  match k with
  | KProduct => "Product"
  | KProductVariant => "ProductVariant"
  | KCollection => "Collection"
  end.

Record SyncJobData : Type := mkJobData {
  entityType : EntityKind;
  entityId : EntityId;
  operationType : OperationType;
  timestamp : string;
  retryCount : nat
}.

Record SyncResponse : Type := mkSyncResponse {
  success : bool;
  message : string;
  response_timestamp : option string
}.

Record Channel : Type := mkChannel {
  defaultLanguageCode : LanguageCode
}.

(** One entry of the [errors] list of a sweep. *)
Record ErrorEntry : Type := mkErrorEntry {
  entry_entityId : EntityId;
  entry_error : string;
  entry_attempts : nat
}.

(** What a sweep returns. *)
Record Summary : Type := mkSummary {
  summary_success : bool;
  totalEntities : nat;
  summary_successCount : nat;
  summary_errorCount : nat;
  summary_errors : list ErrorEntry
}.

Definition BATCH : nat := 10.

(* ------------------------------------------------------------------ *)
(** ** The generic bulk sweep *)

Section BulkSync.

Variable World : Type.
(** [T extends { id: any }] *)
Variable T : Type.
Variable id : T -> EntityId.
Variable entityType_ : EntityKind.
(** [getRepository(repository).find({ relations, order })] *)
Variable findEntities : World -> Completion (list T) * World.
Variable syncMethod : SyncJobData -> M (State World) SyncResponse.
(** [new Date().toISOString()] *)
Variable clock : World -> string.

Let St : Type := State World.

Record Job : Type := mkJob {
  entity : T;
  attempts : nat;
  maxAttempts : nat;
  lastError : option string
}.

(** What the callback of [batch.map] resolves to. *)
Record Settled : Type := mkSettled {
  settled_job : Job;
  settled_success : bool;
  settled_error : option string
}.

(** One call of [syncMethod]: the job as it is when the call is made,
    the descriptor passed, and how the call completed.  The list of
    these is the observable history of a sweep. *)
Record Dispatch : Type := mkDispatch {
  d_job : Job;
  d_data : SyncJobData;
  d_result : Completion SyncResponse
}.

(** The mutable locals of the sweep. *)
Record Locals : Type := mkLocals {
  queue : list Job;
  successCount : nat;
  errorCount : nat;
  errors : list ErrorEntry;
  processed : nat
}.

Record Run : Type := mkRun {
  locals : Locals;
  io : St;
  calls : list Dispatch
}.

(** [entities.map((e) => ({ entity: e, attempts: 0, maxAttempts: 5 }))] *)
Definition newJob (e : T) : Job := mkJob e 0 5 None.

(** The body of the [async (job) => ...] callback. *)
Definition runJob (job : Job) (s : St) : (Settled * Dispatch) * St :=
  let job1 := mkJob (entity job) (S (attempts job)) (maxAttempts job) (lastError job) in
  let data := mkJobData entityType_ (id (entity job1)) Update
                        (clock (world s)) (attempts job1 - 1) in
  match syncMethod data s with
  | (Normal r, s') =>
      (mkSettled job1 true None, mkDispatch job1 data (Normal r), s')
  | (Abrupt error, s') =>
      let msg := error_message error in
      let job2 := mkJob (entity job1) (attempts job1) (maxAttempts job1) (Some msg) in
      (mkSettled job2 false (Some msg), mkDispatch job1 data (Abrupt error), s')
  end.

(** [await Promise.allSettled(batch.map(...))]: every callback settles
    as fulfilled, since its only throwing call sits inside its [try]. *)
Fixpoint allSettled (batch : list Job) (s : St) : list (Settled * Dispatch) * St :=
  match batch with
  | [] => ([], s)
  | job :: rest =>
      let (r, s1) := runJob job s in
      let (rs, s2) := allSettled rest s1 in
      (r :: rs, s2)
  end.

(** [`${job.lastError}`] *)
Definition lastError_to_string (e : option string) : string :=
  match e with
  | Some m => m
  | None => "undefined"
  end.

Definition terminalEntry (job : Job) : ErrorEntry :=
  mkErrorEntry (id (entity job))
    ("Failed after " ++ string_of_nat (maxAttempts job)
       ++ " attempts. Last error: " ++ lastError_to_string (lastError job))
    (attempts job).

(** The body of [for (const r of results)]. *)
Definition settle (l : Locals) (r : Settled) : Locals :=
  let job := settled_job r in
  if settled_success r then
    mkLocals (queue l) (S (successCount l)) (errorCount l) (errors l) (S (processed l))
  else if (attempts job <? maxAttempts job)%nat then
    mkLocals (queue l ++ [job])%list (successCount l) (errorCount l) (errors l) (processed l)
  else
    mkLocals (queue l) (successCount l) (S (errorCount l))
             (errors l ++ [terminalEntry job])%list (S (processed l)).

(** One iteration of [while (queue.length > 0)]. *)
Definition wave (r : Run) : Run :=
  let l := locals r in
  let batch := firstn BATCH (queue l) in
  let l1 := mkLocals (skipn BATCH (queue l)) (successCount l) (errorCount l)
                     (errors l) (processed l) in
  let (results, s') := allSettled batch (io r) in
  mkRun (fold_left settle (map fst results) l1) s'
        (calls r ++ map snd results)%list.

Fixpoint whileQueue (fuel : nat) (r : Run) : option Run :=
  match queue (locals r) with
  | [] => Some r
  | _ :: _ =>
      match fuel with
      | O => None
      | S fuel' => whileQueue fuel' (wave r)
      end
  end.

Definition startRun (entities : list T) (s : St) : Run :=
  mkRun (mkLocals (map newJob entities) 0 0 [] 0) s [].

(** The [while] loop of a sweep over [entities], with its history. *)
Definition sweepLoop (fuel : nat) (entities : list T) (s : St) : option Run :=
  whileQueue fuel (startRun entities s).

Definition summaryOf (total : nat) (l : Locals) : Summary :=
  mkSummary (errorCount l =? 0)%nat total (successCount l) (errorCount l) (errors l).

(** The [catch] block, with the locals as they are when it is entered. *)
Definition sweepFailed (successCount_ errorCount_ : nat) (errors_ : list ErrorEntry)
    (error : Thrown) : Summary :=
  mkSummary false 0 successCount_ (errorCount_ + 1)
            (errors_ ++ [mkErrorEntry (IdNum (-1)) (error_message error) 1])%list.

(** [None] stands for a loop that has not finished within [fuel]
    iterations. *)
Definition syncAllEntitiesToCmsGeneric (fuel : nat) (s : St)
  : option (Completion Summary * St) :=
  match on_world findEntities s with
  | (Abrupt error, s1) => Some (Normal (sweepFailed 0 0 [] error), s1)
  | (Normal entities, s1) =>
      let total := List.length entities in
      if (total =? 0)%nat then Some (Normal (mkSummary true 0 0 0 []), s1)
      else
        match sweepLoop fuel entities s1 with
        | None => None
        | Some r => Some (Normal (summaryOf total (locals r)), io r)
        end
  end.

End BulkSync.

(* ------------------------------------------------------------------ *)
(** ** Per-entity sync and bulk entry points *)

Section CmsSyncService.

Variable World : Type.

(** The outside world of the publisher. *)
Variable fetch : HttpRequest -> World -> Completion HttpResponse * World.
Variable enforceRateLimit : World -> World.
Variable encodeURIComponent : string -> string.
Variable JSON_stringify : Value -> string.
Variable StringToNumber : string -> Value.
Variable ToString : Value -> Completion string.
Variable validateTranslations : list Translation -> LanguageCode -> Completion unit.
Variable options : PluginInitOptions.

(** The catalog platform. *)
Variable RequestContext : Type.
Variable findOneProduct : EntityId -> World -> Completion (option Product) * World.
Variable parentLookupFirst : World -> bool.
Variable findOneVariant : EntityId -> World -> Completion (option ProductVariant) * World.
Variable findOneCollection : EntityId -> World -> Completion (option Collection) * World.
Variable findProducts : World -> Completion (list Product) * World.
Variable findVariants : World -> Completion (list ProductVariant) * World.
Variable findCollections : World -> Completion (list Collection) * World.
Variable getDefaultChannel : World -> Completion Channel * World.
Variable createRequestContext :
  LanguageCode -> Channel -> World -> Completion RequestContext * World.
Variable collectionService_findAll :
  RequestContext -> World -> Completion (list Collection) * World.
Variable getCollectionProductVariantIds :
  Collection -> RequestContext -> World -> Completion (list EntityId) * World.
Variable clock : World -> string.

Let St : Type := State World.
Let Async : Type -> Type := M St.

(** The injected [SanityService]. *)
Let sanityService_syncProduct :=
  syncProduct World fetch enforceRateLimit encodeURIComponent JSON_stringify
              StringToNumber ToString validateTranslations options.
Let sanityService_syncProductVariant :=
  syncProductVariant World fetch enforceRateLimit findOneProduct parentLookupFirst
    encodeURIComponent
                     JSON_stringify StringToNumber ToString validateTranslations options.
Let sanityService_syncCollection :=
  syncCollection World fetch enforceRateLimit encodeURIComponent JSON_stringify
                 StringToNumber ToString validateTranslations options.

(** [new Date()] *)
Definition now : Async string := fun s => (Normal (clock (world s)), s).

Definition getDefaultLanguageCode : Async LanguageCode :=
  defaultChannel <- on_world getDefaultChannel ;;
  ret (defaultLanguageCode defaultChannel).

(* ---------- HELPERS FOR RELATIONS ---------- *)

(* [findVariantsForCollection] has no caller in the service; it is
   embedded with the remaining operations, further down. *)

(** The [for (const collection of collections.items)] loop. *)
Fixpoint collectionsContaining (ctx : RequestContext) (variantId : EntityId)
    (items : list Collection) (result : list Collection) : Async (list Collection) :=
  match items with
  | [] => ret result
  | collection :: rest =>
      variantIds <- on_world (getCollectionProductVariantIds collection ctx) ;;
      if existsb (fun i => String.eqb (id_to_string i) (id_to_string variantId)) variantIds
      then collectionsContaining ctx variantId rest (result ++ [collection])%list
      else collectionsContaining ctx variantId rest result
  end.

Definition findCollectionsForVariant (ctx : RequestContext) (variantId : EntityId)
  : Async (list Collection) :=
  try_catch
    (collections <- on_world (collectionService_findAll ctx) ;;
     collectionsContaining ctx variantId collections [])
    (fun _ => ret []).

(* ---------- PER-ENTITY SYNC ---------- *)

Definition syncProductToCms_body (jobData : SyncJobData) : Async SyncResponse :=
  product <- on_world (findOneProduct (entityId jobData)) ;;
  match product with
  | None => throw (ErrorObj ("Product " ++ id_to_string (entityId jobData) ++ " not found"))
  | Some product =>
      lang <- getDefaultLanguageCode ;;
      let productSlug := getSlugByLanguage (product_translations product) lang in
      sanityService_syncProduct product lang (operationType jobData) productSlug ;;;
      date <- now ;;
      ret (mkSyncResponse true
             ("Product " ++ operation_to_string (operationType jobData) ++ " synced")
             (Some date))
  end.

Definition syncProductToCms (jobData : SyncJobData) : Async SyncResponse :=
  try_catch (syncProductToCms_body jobData)
    (fun error =>
       ret (mkSyncResponse false ("Product sync failed: " ++ error_message error) None)).

Definition syncVariantToCms_body (jobData : SyncJobData) : Async SyncResponse :=
  lang <- getDefaultLanguageCode ;;
  channel <- on_world getDefaultChannel ;;
  ctx <- on_world (createRequestContext lang channel) ;;
  variant <- on_world (findOneVariant (entityId jobData)) ;;
  match variant with
  | None => throw (ErrorObj ("Variant " ++ id_to_string (entityId jobData) ++ " not found"))
  | Some variant =>
      let productSlug :=
        getSlugByLanguage (product_translations (variant_product variant)) lang in
      let variantSlug :=
        match productSlug with
        | Some p =>
            if String.eqb p EmptyString
            then "variant-" ++ id_to_string (variant_id variant)
            else p ++ "-variant-" ++ id_to_string (variant_id variant)
        | None => "variant-" ++ id_to_string (variant_id variant)
        end in
      collections <- findCollectionsForVariant ctx (variant_id variant) ;;
      sanityService_syncProductVariant variant lang (operationType jobData)
                                       variantSlug (Some collections) ;;;
      date <- now ;;
      ret (mkSyncResponse true
             ("Variant " ++ operation_to_string (operationType jobData) ++ " synced")
             (Some date))
  end.

Definition syncVariantToCms (jobData : SyncJobData) : Async SyncResponse :=
  try_catch (syncVariantToCms_body jobData)
    (fun error =>
       ret (mkSyncResponse false ("Variant sync failed: " ++ error_message error) None)).

Definition syncCollectionToCms_body (jobData : SyncJobData) : Async SyncResponse :=
  lang <- getDefaultLanguageCode ;;
  channel <- on_world getDefaultChannel ;;
  ctx <- on_world (createRequestContext lang channel) ;;
  collection <- on_world (findOneCollection (entityId jobData)) ;;
  match collection with
  | None =>
      throw (ErrorObj ("Collection " ++ id_to_string (entityId jobData) ++ " not found"))
  | Some collection =>
      let collectionSlug :=
        getSlugByLanguage (collection_translations collection) lang in
      sanityService_syncCollection collection lang (operationType jobData)
                                   collectionSlug ;;;
      date <- now ;;
      ret (mkSyncResponse true
             ("Collection " ++ operation_to_string (operationType jobData) ++ " synced")
             (Some date))
  end.

Definition syncCollectionToCms (jobData : SyncJobData) : Async SyncResponse :=
  try_catch (syncCollectionToCms_body jobData)
    (fun error =>
       ret (mkSyncResponse false ("Collection sync failed: " ++ error_message error) None)).

(* ---------- BULK ENTRYPOINTS ---------- *)

(** The three entry points rename [totalEntities] and [entityId] in what
    the generic sweep returns; the values are the generic ones. *)
Definition syncAllProductsToCms (fuel : nat) : St -> option (Completion Summary * St) :=
  syncAllEntitiesToCmsGeneric World Product product_id KProduct
    findProducts syncProductToCms clock fuel.

Definition syncAllProductVariantsToCms (fuel : nat)
  : St -> option (Completion Summary * St) :=
  syncAllEntitiesToCmsGeneric World ProductVariant variant_id KProductVariant
    findVariants syncVariantToCms clock fuel.

Definition syncAllCollectionsToCms (fuel : nat) : St -> option (Completion Summary * St) :=
  syncAllEntitiesToCmsGeneric World Collection collection_id KCollection
    findCollections syncCollectionToCms clock fuel.

End CmsSyncService.

Arguments entity {T} j.
Arguments attempts {T} j.
Arguments maxAttempts {T} j.
Arguments lastError {T} j.
Arguments settled_job {T} s.
Arguments settled_success {T} s.
Arguments settled_error {T} s.
Arguments d_job {T} d.
Arguments d_data {T} d.
Arguments d_result {T} d.
Arguments queue {T} l.
Arguments successCount {T} l.
Arguments errorCount {T} l.
Arguments errors {T} l.
Arguments processed {T} l.
Arguments locals {World T} r.
Arguments io {World T} r.
Arguments calls {World T} r.

(* ------------------------------------------------------------------ *)
(** ** The remaining operations of the orchestrator *)

Section CmsSyncServiceRest.

Variable World : Type.
Variable fetch : HttpRequest -> World -> Completion HttpResponse * World.
Variable enforceRateLimit : World -> World.
Variable encodeURIComponent : string -> string.
Variable JSON_stringify : Value -> string.
Variable StringToNumber : string -> Value.
Variable ToString : Value -> Completion string.
Variable validateTranslations : list Translation -> LanguageCode -> Completion unit.
Variable options : PluginInitOptions.
Variable RequestContext : Type.
Variable findOneProduct : EntityId -> World -> Completion (option Product) * World.
Variable parentLookupFirst : World -> bool.
Variable findOneVariant : EntityId -> World -> Completion (option ProductVariant) * World.
Variable findOneCollection : EntityId -> World -> Completion (option Collection) * World.
Variable findProducts : World -> Completion (list Product) * World.
Variable findVariants : World -> Completion (list ProductVariant) * World.
Variable findCollections : World -> Completion (list Collection) * World.
Variable getDefaultChannel : World -> Completion Channel * World.
Variable createRequestContext :
  LanguageCode -> Channel -> World -> Completion RequestContext * World.
Variable collectionService_findAll :
  RequestContext -> World -> Completion (list Collection) * World.
Variable getCollectionProductVariantIds :
  Collection -> RequestContext -> World -> Completion (list EntityId) * World.
Variable clock : World -> string.
(** [getRepository(Collection).findOne({ where: { id } })], without
    relations. *)
Variable findCollectionById : EntityId -> World -> Completion (option Collection) * World.
(** [getRepository(ProductVariant).find({ where: { id: In(variantIds) },
    relations, order })] *)
Variable findVariantsIn :
  list EntityId -> World -> Completion (list ProductVariant) * World.

Let St : Type := State World.
Let Async : Type -> Type := M St.

Definition findVariantsForCollection (ctx : RequestContext) (collectionId : EntityId)
  : Async (list ProductVariant) :=
  try_catch
    (collection <- on_world (findCollectionById collectionId) ;;
     match collection with
     | None => ret []
     | Some collection =>
         variantIds <- on_world (getCollectionProductVariantIds collection ctx) ;;
         match variantIds with
         | [] => ret []
         | _ :: _ => on_world (findVariantsIn variantIds)
         end
     end)
    (fun _ => ret []).

(** [syncAllEntityTypes]: the three sweeps one after the other, their
    summaries dropped.  [None] stands for a sweep that has not finished
    within [fuel] iterations. *)
Definition syncAllEntityTypes (fuel : nat) (s : St) : option (Completion unit * St) :=
  match syncAllProductsToCms World fetch enforceRateLimit encodeURIComponent
          JSON_stringify StringToNumber ToString validateTranslations options
          findOneProduct findProducts getDefaultChannel clock fuel s with
  | None => None
  | Some (Abrupt e, s1) => Some (Abrupt e, s1)
  | Some (Normal _, s1) =>
      match syncAllProductVariantsToCms World fetch enforceRateLimit encodeURIComponent
              JSON_stringify StringToNumber ToString validateTranslations options
              RequestContext findOneProduct parentLookupFirst findOneVariant findVariants
              getDefaultChannel createRequestContext collectionService_findAll
              getCollectionProductVariantIds clock fuel s1 with
      | None => None
      | Some (Abrupt e, s2) => Some (Abrupt e, s2)
      | Some (Normal _, s2) =>
          match syncAllCollectionsToCms World fetch enforceRateLimit encodeURIComponent
                  JSON_stringify StringToNumber ToString validateTranslations options
                  RequestContext findOneCollection findCollections
                  getDefaultChannel createRequestContext clock fuel s2 with
          | None => None
          | Some (Abrupt e, s3) => Some (Abrupt e, s3)
          | Some (Normal _, s3) => Some (Normal tt, s3)
          end
      end
  end.

End CmsSyncServiceRest.

(* ------------------------------------------------------------------ *)
(** ** The rate limiter of the publisher, with its clock *)

(** [enforceRateLimit] reads [Date.now()], the field [lastRequestTime]
    and, when it has to wait, suspends on a timer.  Times are the
    integer milliseconds [Date.now()] returns.  A call is taken here
    without another call of the limiter running in between, and the two
    reads of the clock of a call that does not wait see the same
    instant. *)
Section RateLimiter.

Variable World : Type.
(** [Date.now()] *)
Variable dateNow : World -> Z.
(** [await new Promise((resolve) => setTimeout(resolve, wait))] *)
Variable sleep : Z -> World -> World.

Record Limiter : Type := mkLimiter {
  limiter_world : World;
  lastRequestTime : Z
}.

Definition rateLimitDelay : Z := 20.

Definition enforceRateLimit_timed (l : Limiter) : Limiter :=
  let now := dateNow (limiter_world l) in
  let elapsed := (now - lastRequestTime l)%Z in
  let wait := Z.max 0 (rateLimitDelay - elapsed) in
  let w := if (0 <? wait)%Z then sleep wait (limiter_world l) else limiter_world l in
  mkLimiter w (dateNow w).

End RateLimiter.

Arguments limiter_world {World} l.
Arguments lastRequestTime {World} l.

(* ------------------------------------------------------------------ *)
(** ** The requests an operation adds *)

Section RequestShapes.

Variable World : Type.

(** The computation [m] only adds requests to the history, and what it
    adds satisfies [P]. *)
Definition appends {A : Type} (P : list HttpRequest -> Prop)
    (m : M (State World) A) : Prop :=
  forall s, exists new,
    requests (snd (m s)) = (requests s ++ new)%list /\ P new.

(** At most [n] requests, all of them reads. *)
Definition readsAtMost (n : nat) (new : list HttpRequest) : Prop :=
  Forall (fun r => req_method r = GET) new /\ List.length new <= n.

(** At most [n] reads, followed by at most one [POST]. *)
Definition readsThenWrite (n : nat) (new : list HttpRequest) : Prop :=
  exists reads writes,
    new = (reads ++ writes)%list /\
    readsAtMost n reads /\
    Forall (fun r => req_method r = POST) writes /\
    List.length writes <= 1.

End RequestShapes.

Arguments appends {World A} P m.

(** The request [makeSanityRequest] hands to [fetch]. *)
Definition requestFor (JSON_stringify : Value -> string) (options : PluginInitOptions)
    (method : HttpMethod) (endpoint : string) (data : option Value) : HttpRequest :=
  mkRequest method (sanityBaseUrl options ++ "/" ++ endpoint) (getSanityHeaders options)
    match data, method with
    | Some d, (POST | PUT) => if truthy d then Some (JSON_stringify d) else None
    | _, _ => None
    end.

(** A request as the publisher builds them: a query of the dataset, or a
    list of mutations posted to the dataset. *)
Definition fromPublisher (JSON_stringify : Value -> string) (options : PluginInitOptions)
    (r : HttpRequest) : Prop :=
  (exists q,
      r = requestFor JSON_stringify options GET
            ("data/query/" ++ dataset options ++ "?query=" ++ q) None) \/
  (exists ms,
      r = requestFor JSON_stringify options POST (mutate_endpoint options)
            (Some (Obj [("mutations", ms)]))).

(* ================================================================== *)
(** * Reading the history of a sweep *)
(* ================================================================== *)

Section SweepHistory.

Variable T : Type.
Variable id : T -> EntityId.

Definition jobId (j : Job T) : EntityId := id (entity j).

(** The calls made on behalf of the entity [i], oldest first. *)
Definition history (c : list (Dispatch T)) (i : EntityId) : list (Dispatch T) :=
  filter (fun d => EntityId_eqb (entityId (d_data d)) i) c.

(** A call failed when [syncMethod] threw (its promise rejected); it
    succeeded when it returned. *)
Definition rejected (d : Dispatch T) : bool := is_abrupt (d_result d).
Definition resolved (d : Dispatch T) : bool := is_normal (d_result d).

(** The entries of the [errors] list that name the entity [i]. *)
Definition entriesFor (i : EntityId) (errs : list ErrorEntry) : list ErrorEntry :=
  filter (fun e => EntityId_eqb (entry_entityId e) i) errs.

(** The message of the last failed call of a history. *)
Definition lastErrorOf (h : list (Dispatch T)) : option string :=
  fold_left (fun acc d => match d_result d with
                          | Abrupt e => Some (error_message e)
                          | Normal _ => acc
                          end) h None.

(** The job of [i] failed on all five of its attempts. *)
Definition failedAllAttempts (c : list (Dispatch T)) (i : EntityId) : Prop :=
  List.length (history c i) = 5 /\ forallb rejected (history c i) = true.

(** The job of [i] succeeded on its [k]-th attempt (counted from 1). *)
Definition succeededOnAttempt (c : list (Dispatch T)) (i : EntityId) (k : nat) : Prop :=
  exists d, nth_error (history c i) (k - 1) = Some d /\ 1 <= k /\ resolved d = true.

Definition succeededb (c : list (Dispatch T)) (i : EntityId) : bool :=
  existsb resolved (history c i).

(** The remaining attempts budget of a queue. *)
Definition budget (q : list (Job T)) : nat :=
  list_sum (map (fun j => maxAttempts j - attempts j) q).

(** What the sweep guarantees of a job that is still queued. *)
Definition pendingJob (c : list (Dispatch T)) (errs : list ErrorEntry) (j : Job T) : Prop :=
  maxAttempts j = 5 /\ attempts j < 5 /\
  List.length (history c (jobId j)) = attempts j /\
  forallb rejected (history c (jobId j)) = true /\
  lastError j = lastErrorOf (history c (jobId j)) /\
  entriesFor (jobId j) errs = [].

(** ... of a job that left the queue after a successful call ... *)
Definition succeededJob (c : list (Dispatch T)) (errs : list ErrorEntry) (i : EntityId) : Prop :=
  exists pre d r,
    history c i = (pre ++ [d])%list /\ forallb rejected pre = true /\
    d_result d = Normal r /\ List.length pre < 5 /\
    entriesFor i errs = [].

(** ... and of a job that left it after its fifth failed call. *)
Definition failedJob (c : list (Dispatch T)) (errs : list ErrorEntry) (i : EntityId) : Prop :=
  exists pre d e,
    history c i = (pre ++ [d])%list /\ forallb rejected pre = true /\
    d_result d = Abrupt e /\ List.length pre = 4 /\
    entriesFor i errs =
      [mkErrorEntry i ("Failed after 5 attempts. Last error: " ++ error_message e) 5].

(** A queued job: the constant maximum, and attempts left. *)
Definition liveJob (j : Job T) : Prop := maxAttempts j = 5 /\ attempts j < 5.

(** The form of every entry the loop records. *)
Definition terminalShape (e : ErrorEntry) : Prop :=
  entry_attempts e = 5 /\
  exists msg, entry_error e = "Failed after 5 attempts. Last error: " ++ msg.

(** Every call of the history was made the way the callback makes it. *)
Definition wellDispatched (entityType_ : EntityKind) (d : Dispatch T) : Prop :=
  entityType (d_data d) = entityType_ /\
  operationType (d_data d) = Update /\
  entityId (d_data d) = jobId (d_job d) /\
  1 <= attempts (d_job d) /\
  retryCount (d_data d) = attempts (d_job d) - 1.

(** The invariant of the sweep over entities with identifiers [ids]:
    [active] are the jobs still to be settled (the rest of the current
    batch and the queue). *)
Record SweepInv (ids : list EntityId) (active : list (Job T))
    (l : Locals T) (c : list (Dispatch T)) : Prop := mkSweepInv {
  inv_nodup : NoDup (map jobId active);
  inv_active : forall j, In j active -> In (jobId j) ids /\ pendingJob c (errors l) j;
  inv_done : forall i, In i ids -> ~ In i (map jobId active) ->
                       succeededJob c (errors l) i \/ failedJob c (errors l) i;
  inv_retry : forall i, map (fun d => retryCount (d_data d)) (history c i)
                        = seq 0 (List.length (history c i));
  inv_success : successCount l = List.length (filter (succeededb c) ids);
  inv_errors : errorCount l = List.length (errors l);
  inv_total : successCount l + errorCount l + List.length active = List.length ids;
  inv_processed : processed l = successCount l + errorCount l
}.

End SweepHistory.

Arguments jobId {T} id j.
Arguments history {T} c i.
Arguments rejected {T} d.
Arguments resolved {T} d.
Arguments lastErrorOf {T} h.
Arguments failedAllAttempts {T} c i.
Arguments succeededOnAttempt {T} c i k.
Arguments succeededb {T} c i.
Arguments budget {T} q.
Arguments pendingJob {T} id c errs j.
Arguments succeededJob {T} c errs i.
Arguments failedJob {T} c errs i.
Arguments wellDispatched {T} id entityType_ d.
Arguments liveJob {T} j.

Section SweepSteps.

Variable World : Type.
Variable T : Type.
Variable id : T -> EntityId.
Variable entityType_ : EntityKind.
Variable syncMethod : SyncJobData -> M (State World) SyncResponse.
Variable clock : World -> string.

(** One job of a wave, dispatched and settled in one go.  A wave is the
    fold of this step over its batch ([wave_as_steps] below). *)
Definition stepJob (r : Run World T) (job : Job T) : Run World T :=
  let '(sd, d, s') := runJob World T id entityType_ syncMethod clock job (io r) in
  mkRun World T (settle T id (locals r) sd) s' (calls r ++ [d])%list.

(** The job object as the callback leaves it after a failed call. *)
Definition afterFailure (d : Dispatch T) : Job T :=
  mkJob T (entity (d_job d)) (attempts (d_job d)) (maxAttempts (d_job d))
        (lastErrorOf [d]).

(** The calls after which the job goes back to the queue. *)
Definition requeues (d : Dispatch T) : bool :=
  rejected d && (attempts (d_job d) <? maxAttempts (d_job d))%nat.

End SweepSteps.

Arguments afterFailure {T} d.
Arguments requeues {T} d.

(* ------------------------------------------------------------------ *)
(** ** The history of a sweep against the sync method itself *)

Section SweepReplay.

Variable World : Type.
Variable T : Type.
Variable syncMethod : SyncJobData -> M (State World) SyncResponse.

(** The sync method called with the descriptors [datas], one call after
    the other, each from the state the call before it left: the
    outcomes of the calls, and the state after the last one. *)
Fixpoint replay (datas : list SyncJobData) (s : State World)
  : list (Completion SyncResponse) * State World :=
  match datas with
  | [] => ([], s)
  | data :: rest =>
      let (c, s1) := syncMethod data s in
      let (cs, s2) := replay rest s1 in
      (c :: cs, s2)
  end.

(** The history [c] is the interaction with the sync method that leads
    from the state [s] to the state [s']: the sync method was called
    with the descriptors of [c], in this order and with nothing in
    between, and the outcomes recorded in [c] are the outcomes of these
    calls. *)
Definition faithful (c : list (Dispatch T)) (s s' : State World) : Prop :=
  replay (map d_data c) s = (map d_result c, s').

End SweepReplay.

Arguments faithful {World T} syncMethod c s s'.

(** A sync method that writes down the descriptor of every call it
    receives, in a world that is nothing but this tape, and answers as
    [answer] says. *)
Definition taping (answer : SyncJobData -> Completion SyncResponse)
    (data : SyncJobData) : M (State (list SyncJobData)) SyncResponse :=
  fun s => (answer data, mkState (world s ++ [data])%list (requests s)).

(* ------------------------------------------------------------------ *)
(** ** The requests sent during a sweep *)

Section SweepBudget.

Variable World : Type.
Variable T : Type.

(** What the calls made so far may have sent, when one call sends at
    most [k] reads and one write. *)
Definition withinBudget (k : nat) (before : list HttpRequest) (r : Run World T) : Prop :=
  exists new,
    requests (io r) = (before ++ new)%list /\
    List.length new <= (k + 1) * List.length (calls r) /\
    List.length (filter is_mutating new) <= List.length (calls r).

End SweepBudget.

Arguments withinBudget {World T} k before r.

(* ================================================================== *)
(** * A concrete scenario *)
(* ================================================================== *)

Module Scenario.

(** The world is a clock that ticks at every call of a sync method and
    at every [fetch]. *)
Definition World : Type := nat.

Definition clock (w : World) : string := string_of_nat w.

Definition start : State World := mkState 0 [].

Definition entityOf (n : nat) : EntityId := IdNum (Z.of_nat n).

(** A sync method that throws for entity 13 and returns for every other
    entity. *)
Definition flakySync (data : SyncJobData) : M (State World) SyncResponse :=
  fun s =>
    let s' := mkState (S (world s)) (requests s) in
    if EntityId_eqb (entityId data) (IdNum 13)
    then (Abrupt (ErrorObj "remote unavailable"), s')
    else (Normal (mkSyncResponse true "Product update synced" (Some (clock (world s)))), s').

(** A sync method that never throws and reports every failure in its
    result, as the per-entity sync methods of the service do. *)
Definition reportingSync (data : SyncJobData) : M (State World) SyncResponse :=
  fun s =>
    (Normal (mkSyncResponse false "Product sync failed: remote unavailable" None),
     mkState (S (world s)) (requests s)).

Definition findFirst (n : nat) (w : World) : Completion (list nat) * World :=
  (Normal (seq 1 n), w).

Definition findThree (w : World) : Completion (list nat) * World :=
  (Normal [12; 13; 14], w).

Definition findBroken (w : World) : Completion (list nat) * World :=
  (Abrupt (ErrorObj "connection lost"), w).

Definition sweep (find : World -> Completion (list nat) * World)
    (sync : SyncJobData -> M (State World) SyncResponse) (fuel : nat) :=
  syncAllEntitiesToCmsGeneric World nat entityOf KProduct find sync clock fuel start.

(** A remote store without documents: every query answers [null], every
    mutation is acknowledged. *)
Definition fetchEmpty (r : HttpRequest) (w : World) : Completion HttpResponse * World :=
  match req_method r with
  | GET => (Normal (mkResponse true 200 "OK" (Normal EmptyString)
                      (Normal (Obj [("result", Null)]))), S w)
  | _ => (Normal (mkResponse true 200 "OK" (Normal EmptyString)
                    (Normal (Obj [("results", Arr [Obj [("id", Str "doc-1")]])]))), S w)
  end.

(** A remote store that cannot be reached. *)
Definition fetchDown (r : HttpRequest) (w : World) : Completion HttpResponse * World :=
  (Abrupt (ErrorObj "fetch failed"), S w).

Definition noDelay (w : World) : World := w.
Definition plainEncoding (q : string) : string := q.
Definition opaqueJson (v : Value) : string := "{}".
(** [Number] of a string that is no numeric literal. *)
Definition notNumeric (s : string) : Value := NaN.
(** The conversion to text of a value that was parsed from JSON (or is
    [undefined]).  An object converts to "[object Object]" unless it
    has a [toString] property of its own, which, coming from JSON, is
    not a function: such an object has no conversion.  An array
    converts its elements, [null] and [undefined] to the empty text,
    and joins them with commas. *)
Fixpoint plainToString (v : Value) : Completion string :=
  match v with
  | Undefined => Normal "undefined"
  | Null => Normal "null"
  | Bool true => Normal "true"
  | Bool false => Normal "false"
  | Num z => Normal (string_of_Z z)
  | NaN => Normal "NaN"
  | Str x => Normal x
  | Arr items =>
      match
        (fix elements (l : list Value) : Completion (list string) :=
           match l with
           | [] => Normal []
           | i :: rest =>
               match match i with
                     | Undefined | Null => Normal EmptyString
                     | _ => plainToString i
                     end with
               | Abrupt e => Abrupt e
               | Normal text =>
                   match elements rest with
                   | Abrupt e => Abrupt e
                   | Normal texts => Normal (text :: texts)
                   end
               end
           end) items
      with
      | Abrupt e => Abrupt e
      | Normal texts => Normal (join "," texts)
      end
  | Obj fields =>
      if existsb (fun kv => String.eqb (fst kv) "toString") fields
      then Abrupt (ErrorObj "Cannot convert object to primitive value")
      else Normal "[object Object]"
  end.

(** The scheduler that lets the parent lookup go first, and the one
    that lets the lookup of the collections go first. *)
Definition parentFirst (w : World) : bool := true.
Definition collectionsFirst (w : World) : bool := false.

(** Modelled from the spec: [TranslationUtils.validateTranslations]
    ([utils/translation.utils] is not among the sources), which
    "validates that the entity has a translation in the given language;
    if not, ... validation throws". *)
Definition strictValidation (ts : list Translation) (lang : LanguageCode) : Completion unit :=
  match getTranslationByLanguage ts lang with
  | Some _ => Normal tt
  | None => Abrupt (ErrorObj "No translation for the default language")
  end.

Definition options : PluginInitOptions := mkOptions "demo" None (Some "token").

Definition noProduct (i : EntityId) (w : World) : Completion (option Product) * World :=
  (Normal None, w).

Definition widget : Product :=
  mkProduct (IdNum 7) [mkTranslation "en" "Widget" "widget"].

Definition untranslated : Product :=
  mkProduct (IdNum 8) [mkTranslation "de" "Dings" "dings"].

Definition widgetVariant : ProductVariant :=
  mkVariant (IdNum 70) (IdNum 7) [mkTranslation "en" "Widget, large" "widget-large"] widget.

Definition widgets : Collection :=
  mkCollection (IdNum 3) [mkTranslation "en" "Widgets" "widgets"].

Definition englishChannel (w : World) : Completion Channel * World :=
  (Normal (mkChannel "en"), w).

Definition findWidget (i : EntityId) (w : World) : Completion (option Product) * World :=
  (if EntityId_eqb i (IdNum 7) then Normal (Some widget) else Normal None, w).

Definition findNoVariant (i : EntityId) (w : World)
  : Completion (option ProductVariant) * World := (Normal None, w).

Definition findNoCollection (i : EntityId) (w : World)
  : Completion (option Collection) * World := (Normal None, w).

Definition adminContext (lang : LanguageCode) (c : Channel) (w : World)
  : Completion unit * World := (Normal tt, w).

Definition noCollections (ctx : unit) (w : World) : Completion (list Collection) * World :=
  (Normal [], w).

Definition noVariantIds (c : Collection) (ctx : unit) (w : World)
  : Completion (list EntityId) * World := (Normal [], w).

Definition findWidgets (w : World) : Completion (list Product) * World :=
  (Normal [widget], w).

(** The product sync of the service, against the unreachable store. *)
Definition productSyncDown : SyncJobData -> M (State World) SyncResponse :=
  syncProductToCms World fetchDown noDelay plainEncoding opaqueJson notNumeric
    plainToString strictValidation options findWidget englishChannel clock.

(** The state the product lookup leaves when run from [start] against
    the empty store. *)
Definition afterLookup (i : EntityId) (type : string) : State World :=
  snd (findDocumentByVendureId World fetchEmpty noDelay plainEncoding opaqueJson
         options i type start).

(** The same against the unreachable store. *)
Definition afterFailedLookup (i : EntityId) (type : string) : State World :=
  snd (findDocumentByVendureId World fetchDown noDelay plainEncoding opaqueJson
         options i type start).

(** A remote store that holds a document for whatever is asked for. *)
Definition fetchStored (r : HttpRequest) (w : World) : Completion HttpResponse * World :=
  match req_method r with
  | GET => (Normal (mkResponse true 200 "OK" (Normal EmptyString)
                      (Normal (Obj [("result", Obj [("_id", Str "doc-7")])]))), S w)
  | _ => (Normal (mkResponse true 200 "OK" (Normal EmptyString)
                    (Normal (Obj [("results", Arr [Obj [("id", Str "doc-7")]])]))), S w)
  end.

(** A remote store that answers every request with an error status. *)
Definition fetchRefusing (r : HttpRequest) (w : World) : Completion HttpResponse * World :=
  (Normal (mkResponse false 503 "Service Unavailable" (Normal "busy")
             (Abrupt (ErrorObj "Unexpected token b in JSON"))), S w).

(** The document found by a lookup against [fetchStored], and the state
    the lookup of the widget leaves when run from [start]. *)
Definition storedDocument : Value := Obj [("_id", Str "doc-7")].

Definition afterStoredLookup : State World :=
  snd (findDocumentByVendureId World fetchStored noDelay plainEncoding opaqueJson
         options (IdNum 7) DOCUMENT_TYPE_product start).

Definition widgetDocument : Value :=
  Obj [ ("_type", Str DOCUMENT_TYPE_product);
        ("vendureId", Num 7);
        ("title", Str "Widget");
        ("slug", Obj [ ("current", Str "widget") ]) ].

Definition findNoVariants (w : World) : Completion (list ProductVariant) * World :=
  (Normal [], w).

Definition findNoCollections (w : World) : Completion (list Collection) * World :=
  (Normal [], w).

Definition findUntranslated (i : EntityId) (w : World)
  : Completion (option Product) * World := (Normal (Some untranslated), w).

(** A second collection, and a catalog in which only [widgets] holds
    variant 70, stored there under a string identifier. *)
Definition gadgets : Collection :=
  mkCollection (IdNum 4) [mkTranslation "en" "Gadgets" "gadgets"].

Definition bothCollections (ctx : unit) (w : World)
  : Completion (list Collection) * World := (Normal [widgets; gadgets], w).

Definition membersOf (c : Collection) : list EntityId :=
  if EntityId_eqb (collection_id c) (IdNum 3) then [IdStr "69"; IdStr "70"] else [IdNum 71].

Definition variantIdsOf (c : Collection) (ctx : unit) (w : World)
  : Completion (list EntityId) * World := (Normal (membersOf c), w).

(** A remote store that acknowledges every request with the JSON value
    [null]. *)
Definition fetchNull (r : HttpRequest) (w : World) : Completion HttpResponse * World :=
  (Normal (mkResponse true 200 "OK" (Normal "null") (Normal Null)), S w).

(** A remote store that answers with an error status and breaks off
    before the body can be read. *)
Definition fetchCutOff (r : HttpRequest) (w : World) : Completion HttpResponse * World :=
  (Normal (mkResponse false 502 "Bad Gateway" (Abrupt (ErrorObj "terminated"))
             (Abrupt (ErrorObj "terminated"))), S w).

(** An identifier that has no conversion to text: the JSON object
    [{ "toString": 1 }]. *)
Definition oddId : Value := Obj [("toString", Num 1)].

(** A remote store whose identifiers are such objects: a query answers
    one document, a mutation is acknowledged. *)
Definition fetchOdd (r : HttpRequest) (w : World) : Completion HttpResponse * World :=
  match req_method r with
  | GET => (Normal (mkResponse true 200 "OK" (Normal EmptyString)
                      (Normal (Obj [("result", Obj [("_id", oddId)])]))), S w)
  | _ => (Normal (mkResponse true 200 "OK" (Normal EmptyString)
                    (Normal (Obj [("results", Arr [Obj [("id", oddId)]])]))), S w)
  end.

(** The same store answering a query with a list of documents. *)
Definition fetchOddList (r : HttpRequest) (w : World) : Completion HttpResponse * World :=
  (Normal (mkResponse true 200 "OK" (Normal EmptyString)
             (Normal (Obj [("result", Arr [Obj [("_id", oddId)]])]))), S w).

(** A world that is the tape of what the sync method has been called
    with: the entity, the operation type and the retry count of every
    call, oldest first.  The sync method writes the tape itself; it
    throws for entity 13. *)
Definition Tape : Type := list (EntityId * OperationType * nat).

Definition tapeSync (data : SyncJobData) : M (State Tape) SyncResponse :=
  fun s =>
    let s' := mkState (world s ++ [(entityId data, operationType data, retryCount data)])%list
                      (requests s) in
    if EntityId_eqb (entityId data) (IdNum 13)
    then (Abrupt (ErrorObj "remote unavailable"), s')
    else (Normal (mkSyncResponse true "Product update synced" None), s').

Definition tapeSweep (fuel : nat) (entities : list nat) : option (Run Tape nat) :=
  sweepLoop Tape nat entityOf KProduct tapeSync (fun _ => "2024-01-01T00:00:00.000Z")
            fuel entities (mkState [] []).

(** A clock in milliseconds, and a timer that fires on time. *)
Definition timeNow (w : Z) : Z := w.
Definition sleepFor (d w : Z) : Z := (w + d)%Z.

End Scenario.

(* ================================================================== *)
(** * Lemmas on identifiers and histories *)
(* ================================================================== *)

Lemma EntityId_eqb_eq (a b : EntityId) : EntityId_eqb a b = true <-> a = b.
Proof.
  destruct a as [x|x], b as [y|y]; simpl; split; intro H;
    try discriminate; try congruence.
  - apply Z.eqb_eq in H. congruence.
  - inversion H. apply Z.eqb_refl.
  - apply String.eqb_eq in H. congruence.
  - inversion H. apply String.eqb_refl.
Qed.

Lemma EntityId_eqb_refl (a : EntityId) : EntityId_eqb a a = true.
Proof. now apply EntityId_eqb_eq. Qed.

Lemma EntityId_eqb_neq (a b : EntityId) : EntityId_eqb a b = false <-> a <> b.
Proof.
  split; intro H.
  - intro E. apply EntityId_eqb_eq in E. congruence.
  - destruct (EntityId_eqb a b) eqn:E; [|reflexivity].
    apply EntityId_eqb_eq in E. contradiction.
Qed.

Section HistoryLemmas.

Variable T : Type.
Variable id : T -> EntityId.

Implicit Types (c : list (Dispatch T)) (d : Dispatch T) (i : EntityId).

Lemma history_snoc_same c d i :
  entityId (d_data d) = i -> history (c ++ [d]) i = (history c i ++ [d])%list.
Proof.
  intros E. unfold history. rewrite filter_app. simpl.
  rewrite E, EntityId_eqb_refl. reflexivity.
Qed.

Lemma history_snoc_other c d i :
  entityId (d_data d) <> i -> history (c ++ [d]) i = history c i.
Proof.
  intros E. unfold history. rewrite filter_app. simpl.
  apply EntityId_eqb_neq in E. rewrite E. apply app_nil_r.
Qed.

Lemma entriesFor_snoc_same (errs : list ErrorEntry) (e : ErrorEntry) i :
  entry_entityId e = i -> entriesFor i (errs ++ [e]) = (entriesFor i errs ++ [e])%list.
Proof.
  intros E. unfold entriesFor. rewrite filter_app. simpl.
  rewrite E, EntityId_eqb_refl. reflexivity.
Qed.

Lemma entriesFor_snoc_other (errs : list ErrorEntry) (e : ErrorEntry) i :
  entry_entityId e <> i -> entriesFor i (errs ++ [e]) = entriesFor i errs.
Proof.
  intros E. unfold entriesFor. rewrite filter_app. simpl.
  apply EntityId_eqb_neq in E. rewrite E. apply app_nil_r.
Qed.

Lemma lastErrorOf_snoc (h : list (Dispatch T)) d e :
  d_result d = Abrupt e -> lastErrorOf (h ++ [d]) = Some (error_message e).
Proof.
  intros E. unfold lastErrorOf. rewrite fold_left_app. simpl. now rewrite E.
Qed.

Lemma lastErrorOf_single d e :
  d_result d = Abrupt e -> lastErrorOf [d] = Some (error_message e).
Proof. intros E. unfold lastErrorOf. simpl. now rewrite E. Qed.

Lemma succeededb_snoc_other c d i :
  entityId (d_data d) <> i -> succeededb (c ++ [d]) i = succeededb c i.
Proof. intros E. unfold succeededb. now rewrite history_snoc_other. Qed.

Lemma succeededb_snoc_rejected c d i :
  rejected d = true -> succeededb (c ++ [d]) i = succeededb c i.
Proof.
  intros R. destruct (EntityId_eqb (entityId (d_data d)) i) eqn:E.
  - apply EntityId_eqb_eq in E. unfold succeededb.
    rewrite history_snoc_same by assumption.
    rewrite existsb_app. simpl. unfold resolved, rejected in *.
    destruct (d_result d); simpl in *; try discriminate.
    now rewrite !orb_false_r.
  - apply EntityId_eqb_neq in E. now apply succeededb_snoc_other.
Qed.

Lemma all_rejected_not_succeeded c i :
  forallb rejected (history c i) = true -> succeededb c i = false.
Proof.
  unfold succeededb. induction (history c i) as [|d h IH]; simpl; [reflexivity|].
  intros H. apply andb_true_iff in H. destruct H as [R H].
  rewrite (IH H). unfold rejected, resolved in *.
  destruct (d_result d); simpl in *; [discriminate|reflexivity].
Qed.

(** Turning one identifier of a duplicate-free list from "not counted"
    to "counted" raises the count by exactly one. *)
Lemma filter_count_flip (f g : EntityId -> bool) (ids : list EntityId) (x : EntityId) :
  NoDup ids -> In x ids ->
  f x = false -> g x = true ->
  (forall i, i <> x -> g i = f i) ->
  List.length (filter g ids) = S (List.length (filter f ids)).
Proof.
  intros ND IN Fx Gx Same. induction ids as [|a ids IH]; [contradiction|].
  inversion ND as [|? ? NI ND']; subst. simpl.
  destruct IN as [->|IN].
  - rewrite Fx, Gx. simpl. f_equal.
    f_equal. apply filter_ext_in. intros i Hi. apply Same.
    intro; subst. contradiction.
  - assert (a <> x) by (intro; subst; contradiction).
    rewrite (Same a) by assumption.
    destruct (f a); simpl; rewrite (IH ND' IN); reflexivity.
Qed.

Lemma filter_count_same (f g : EntityId -> bool) (ids : list EntityId) :
  (forall i, g i = f i) -> List.length (filter g ids) = List.length (filter f ids).
Proof. intros Same. f_equal. apply filter_ext. assumption. Qed.

End HistoryLemmas.

(* ================================================================== *)
(** * The bulk sweep: waves, invariant, termination *)
(* ================================================================== *)

Section SweepProofs.

Variable World : Type.
Variable T : Type.
Variable id : T -> EntityId.
Variable entityType_ : EntityKind.
Variable findEntities : World -> Completion (list T) * World.
Variable syncMethod : SyncJobData -> M (State World) SyncResponse.
Variable clock : World -> string.

Local Abbreviation runJob_ := (runJob World T id entityType_ syncMethod clock).
Local Abbreviation allSettled_ := (allSettled World T id entityType_ syncMethod clock).
Local Abbreviation stepJob_ := (stepJob World T id entityType_ syncMethod clock).
Local Abbreviation wave_ := (wave World T id entityType_ syncMethod clock).
Local Abbreviation whileQueue_ := (whileQueue World T id entityType_ syncMethod clock).
Local Abbreviation sweepLoop_ := (sweepLoop World T id entityType_ syncMethod clock).
Local Abbreviation settle_ := (settle T id).
Local Abbreviation Inv := (SweepInv T id).
Local Abbreviation okJob := (fun j : Job T => attempts j < maxAttempts j).

Implicit Types (job j : Job T) (d : Dispatch T) (s : State World)
               (r : Run World T) (l : Locals T) (c : list (Dispatch T)).

(** What one run of the callback does, by the outcome of the call. *)
Lemma runJob_inv job s sd d s' :
  runJob_ job s = (sd, d, s') ->
  d_job d = mkJob T (entity job) (S (attempts job)) (maxAttempts job) (lastError job) /\
  d_data d = mkJobData entityType_ (id (entity job)) Update (clock (world s)) (attempts job) /\
  ((exists resp, d_result d = Normal resp /\ sd = mkSettled T (d_job d) true None) \/
   (exists e, d_result d = Abrupt e /\
              sd = mkSettled T (afterFailure d) false (Some (error_message e)))).
Proof.
  unfold runJob. cbn [entity attempts maxAttempts lastError].
  replace (S (attempts job) - 1) with (attempts job) by lia.
  destruct (syncMethod _ s) as [[resp|e] s1]; intros H; inversion H; subst; clear H;
    cbn [d_job d_data d_result]; repeat split.
  - left. eauto.
  - right. exists e. split; [reflexivity|].
    unfold afterFailure, lastErrorOf. reflexivity.
Qed.

Lemma wave_as_steps r :
  wave_ r =
  fold_left stepJob_ (firstn BATCH (queue (locals r)))
    (mkRun World T
       (mkLocals T (skipn BATCH (queue (locals r))) (successCount (locals r))
                 (errorCount (locals r)) (errors (locals r)) (processed (locals r)))
       (io r) (calls r)).
Proof.
  unfold wave.
  generalize (firstn BATCH (queue (locals r))) as batch.
  generalize (mkLocals T (skipn BATCH (queue (locals r))) (successCount (locals r))
                (errorCount (locals r)) (errors (locals r)) (processed (locals r))) as l.
  generalize (io r) as s. generalize (calls r) as c.
  intros c s l batch. revert c s l.
  induction batch as [|job rest IH]; intros c s l; simpl.
  - now rewrite app_nil_r.
  - unfold stepJob at 2. cbn [io locals calls].
    destruct (runJob_ job s) as [[sd d] s1].
    specialize (IH (c ++ [d])%list s1 (settle_ l sd)).
    destruct (allSettled_ rest s1) as [rs s2]. simpl.
    rewrite <- IH. now rewrite <- app_assoc.
Qed.

(** The step on the local variables, spelled out by outcome. *)
Lemma stepJob_cases r job :
  exists d s',
    d_job d = mkJob T (entity job) (S (attempts job)) (maxAttempts job) (lastError job) /\
    d_data d = mkJobData entityType_ (id (entity job)) Update
                         (clock (world (io r))) (attempts job) /\
    io (stepJob_ r job) = s' /\
    calls (stepJob_ r job) = (calls r ++ [d])%list /\
    let l := locals r in
    ((resolved d = true /\
      locals (stepJob_ r job) =
        mkLocals T (queue l) (S (successCount l)) (errorCount l) (errors l)
                 (S (processed l))) \/
     (rejected d = true /\ requeues d = true /\
      locals (stepJob_ r job) =
        mkLocals T (queue l ++ [afterFailure d]) (successCount l) (errorCount l)
                 (errors l) (processed l)) \/
     (rejected d = true /\ requeues d = false /\
      locals (stepJob_ r job) =
        mkLocals T (queue l) (successCount l) (S (errorCount l))
                 (errors l ++ [terminalEntry T id (afterFailure d)])
                 (S (processed l)))).
Proof.
  unfold stepJob.
  destruct (runJob_ job (io r)) as [[sd d] s1] eqn:E.
  apply runJob_inv in E. destruct E as (Hj & Hd & Hres).
  exists d, s1. cbn [io calls locals]. repeat split; try assumption.
  destruct Hres as [(resp & Hr & ->)|(e & Hr & ->)];
    unfold settle; cbn [settled_job settled_success].
  - left. split; [|reflexivity]. unfold resolved. now rewrite Hr.
  - right.
    assert (R : rejected d = true) by (unfold rejected; now rewrite Hr).
    unfold requeues. rewrite R. cbn [andb afterFailure attempts maxAttempts].
    destruct (attempts (d_job d) <? maxAttempts (d_job d))%nat; [left|right];
      repeat split; reflexivity.
Qed.

(* ---------- the history is the interaction with the sync method ---------- *)

Lemma replay_app (l1 l2 : list SyncJobData) s :
  replay World syncMethod (l1 ++ l2) s
  = let (r1, s1) := replay World syncMethod l1 s in
    let (r2, s2) := replay World syncMethod l2 s1 in
    ((r1 ++ r2)%list, s2).
Proof.
  revert s. induction l1 as [|data l1 IH]; intros s; simpl.
  - destruct (replay World syncMethod l2 s). reflexivity.
  - destruct (syncMethod data s) as [c0 s1]. rewrite IH.
    destruct (replay World syncMethod l1 s1) as [r1 s2].
    destruct (replay World syncMethod l2 s2). reflexivity.
Qed.

Lemma faithful_nil s : faithful syncMethod (@nil (Dispatch T)) s s.
Proof. reflexivity. Qed.

Lemma faithful_app c1 c2 s s1 s2 :
  faithful syncMethod c1 s s1 -> faithful syncMethod c2 s1 s2 ->
  faithful syncMethod (c1 ++ c2) s s2.
Proof.
  unfold faithful. intros H1 H2. rewrite !map_app, replay_app, H1, H2. reflexivity.
Qed.

(** One job: the sync method is called once, with the descriptor that
    is recorded, and what is recorded as the outcome is its outcome. *)
Lemma stepJob_faithful r job :
  exists d,
    calls (stepJob_ r job) = (calls r ++ [d])%list /\
    faithful syncMethod [d] (io r) (io (stepJob_ r job)).
Proof.
  unfold stepJob, runJob, faithful.
  destruct (syncMethod _ (io r)) as [[resp|e] s1] eqn:E; eexists;
    (split; [reflexivity|]); cbn [map d_data d_result replay io];
    rewrite E; reflexivity.
Qed.

Lemma steps_faithful (batch : list (Job T)) :
  forall r,
  exists ds,
    calls (fold_left stepJob_ batch r) = (calls r ++ ds)%list /\
    faithful syncMethod ds (io r) (io (fold_left stepJob_ batch r)).
Proof.
  induction batch as [|job rest IH]; intros r; simpl.
  - exists []. rewrite app_nil_r. split; [reflexivity|apply faithful_nil].
  - destruct (stepJob_faithful r job) as (d & Hc & Hd).
    destruct (IH (stepJob_ r job)) as (ds & Hcs & Hds).
    exists (d :: ds). split.
    + rewrite Hcs, Hc, <- app_assoc. reflexivity.
    + exact (faithful_app [d] ds _ _ _ Hd Hds).
Qed.

(** One wave: the calls it adds to the history are its interaction with
    the sync method. *)
Lemma wave_faithful r :
  exists ds,
    calls (wave_ r) = (calls r ++ ds)%list /\
    faithful syncMethod ds (io r) (io (wave_ r)).
Proof.
  rewrite wave_as_steps.
  match goal with |- context [fold_left _ ?b ?r0] =>
    destruct (steps_faithful b r0) as (ds & H) end.
  exists ds. exact H.
Qed.

Lemma wave_faithful_of r ds :
  calls (wave_ r) = (calls r ++ ds)%list ->
  faithful syncMethod ds (io r) (io (wave_ r)).
Proof.
  intros H. destruct (wave_faithful r) as (ds' & H' & F).
  rewrite H in H'. apply app_inv_head in H'. now subst ds'.
Qed.

Lemma pendingJob_ext c c' (errs errs' : list ErrorEntry) j :
  history c' (jobId id j) = history c (jobId id j) ->
  entriesFor (jobId id j) errs' = entriesFor (jobId id j) errs ->
  pendingJob id c errs j -> pendingJob id c' errs' j.
Proof. unfold pendingJob. intros -> ->. trivial. Qed.

Lemma succeededJob_ext c c' (errs errs' : list ErrorEntry) i :
  history c' i = history c i -> entriesFor i errs' = entriesFor i errs ->
  succeededJob c errs i -> succeededJob c' errs' i.
Proof. unfold succeededJob. intros -> ->. trivial. Qed.

Lemma failedJob_ext c c' (errs errs' : list ErrorEntry) i :
  history c' i = history c i -> entriesFor i errs' = entriesFor i errs ->
  failedJob c errs i -> failedJob c' errs' i.
Proof. unfold failedJob. intros -> ->. trivial. Qed.

Lemma retry_snoc c d i :
  (forall i', map (fun d' => retryCount (d_data d')) (history c i')
              = seq 0 (List.length (history c i'))) ->
  retryCount (d_data d) = List.length (history c (entityId (d_data d))) ->
  map (fun d' => retryCount (d_data d')) (history (c ++ [d]) i)
  = seq 0 (List.length (history (c ++ [d]) i)).
Proof.
  intros IH Hd.
  destruct (EntityId_eqb (entityId (d_data d)) i) eqn:E.
  - apply EntityId_eqb_eq in E. rewrite (history_snoc_same T c d i E).
    rewrite map_app, length_app, IH. simpl. rewrite Nat.add_1_r, seq_S.
    simpl. rewrite Hd, E. reflexivity.
  - apply EntityId_eqb_neq in E. rewrite (history_snoc_other T c d i E). apply IH.
Qed.

(** One step keeps the invariant: the job leaves the active jobs, or
    goes to their tail. *)
Lemma stepJob_preserves (ids : list EntityId) job (A : list (Job T)) r :
  NoDup ids ->
  Inv ids (job :: A) (locals r) (calls r) ->
  (Inv ids A (locals (stepJob_ r job)) (calls (stepJob_ r job)) /\
   queue (locals (stepJob_ r job)) = queue (locals r)) \/
  (exists j', Inv ids (A ++ [j']) (locals (stepJob_ r job)) (calls (stepJob_ r job)) /\
              queue (locals (stepJob_ r job)) = (queue (locals r) ++ [j'])%list).
Proof.
  intros NDids [ND Act Done Retry Succ Errs Tot Proc].
  destruct (stepJob_cases r job) as (d & s' & Hj & Hd & _ & Hc & Hl).
  destruct (Act job (or_introl eq_refl)) as (Hin0 & Hmax & Hlt & Hlen & Hrej & Hlast & Hent).
  cbn [map] in ND, Done.
  assert (Hid : entityId (d_data d) = jobId id job) by (rewrite Hd; reflexivity).
  assert (Hjd : jobId id (d_job d) = jobId id job) by (rewrite Hj; reflexivity).
  remember (jobId id job) as i0 eqn:Hi0.
  inversion ND as [|? ? NotIn NDA]; subst x l.
  assert (Hother : forall i, i <> i0 -> history (calls r ++ [d]) i = history (calls r) i).
  { intros i Hi. apply history_snoc_other. congruence. }
  assert (Hsame : history (calls r ++ [d]) i0 = (history (calls r) i0 ++ [d])%list).
  { now apply history_snoc_same. }
  assert (HA : forall j, In j A -> jobId id j <> i0).
  { intros j Hj' E. apply NotIn. rewrite <- E. now apply in_map. }
  assert (Hretry : forall i, map (fun d' => retryCount (d_data d')) (history (calls r ++ [d]) i)
                             = seq 0 (List.length (history (calls r ++ [d]) i))).
  { intros i. apply retry_snoc; [assumption|].
    rewrite Hid, Hlen, Hd. reflexivity. }
  assert (Hatt : attempts (d_job d) = S (attempts job)) by (rewrite Hj; reflexivity).
  assert (Hmx : maxAttempts (d_job d) = 5) by (rewrite Hj; assumption).
  rewrite Hc.
  destruct Hl as [(Hres & ->)|[(Hrj & Hrq & ->)|(Hrj & Hrq & ->)]];
    cbn [queue successCount errorCount errors processed].
  - (* the call succeeded *)
    left. split; [|reflexivity].
    constructor; cbn [queue successCount errorCount errors processed];
      try assumption; try lia.
    + intros j Hj'. destruct (Act j (or_intror Hj')) as [? P]. split; [assumption|].
      eapply pendingJob_ext; [apply Hother; now apply HA|reflexivity|exact P].
    + intros i Hi Hni.
      destruct (EntityId_eqb i i0) eqn:E.
      * apply EntityId_eqb_eq in E. subst i. left.
        unfold resolved in Hres. destruct (d_result d) as [resp|] eqn:Hr; [|discriminate].
        exists (history (calls r) i0), d, resp. repeat split; try assumption. lia.
      * apply EntityId_eqb_neq in E.
        assert (Hni' : ~ In i (i0 :: map (jobId id) A)).
        { simpl. intros [E'|E']; [congruence|contradiction]. }
        destruct (Done i Hi Hni') as [P|P]; [left|right].
        -- eapply succeededJob_ext; [now apply Hother|reflexivity|exact P].
        -- eapply failedJob_ext; [now apply Hother|reflexivity|exact P].
    + rewrite Succ. symmetry.
      apply filter_count_flip with (x := i0); try assumption.
      * now apply all_rejected_not_succeeded.
      * unfold succeededb. rewrite Hsame, existsb_app. simpl.
        rewrite Hres. now rewrite orb_true_r.
      * intros i Hi. apply succeededb_snoc_other. congruence.
    + simpl in Tot. lia.
  - (* the call failed and the job is requeued *)
    right. exists (afterFailure d). split; [|reflexivity].
    unfold requeues in Hrq. rewrite Hrj in Hrq. simpl in Hrq.
    apply Nat.ltb_lt in Hrq. rewrite Hatt, Hmx in Hrq.
    unfold rejected in Hrj. destruct (d_result d) as [|e] eqn:Hr; [discriminate|].
    assert (Hjid : jobId id (afterFailure d) = i0) by exact Hjd.
    constructor; cbn [queue successCount errorCount errors processed];
      try assumption.
    + rewrite map_app. simpl. rewrite Hjid.
      apply NoDup_app; [assumption|repeat constructor; auto|].
      intros x Hx [->|[]]. contradiction.
    + intros j Hj'. apply in_app_or in Hj'. destruct Hj' as [Hj'|[<-|[]]].
      * destruct (Act j (or_intror Hj')) as [? P]. split; [assumption|].
        eapply pendingJob_ext; [apply Hother; now apply HA|reflexivity|exact P].
      * rewrite Hjid. split; [assumption|].
        unfold pendingJob. rewrite Hjid, Hsame.
        unfold afterFailure. cbn [maxAttempts attempts lastError].
        rewrite Hatt, Hmx, length_app, forallb_app, Hrej. simpl.
        unfold rejected. rewrite Hr. simpl.
        repeat split; try lia; try assumption.
        rewrite (lastErrorOf_snoc T _ d e Hr).
        apply (lastErrorOf_single T d e Hr).
    + intros i Hi Hni.
      rewrite map_app, in_app_iff in Hni. simpl in Hni. rewrite Hjid in Hni.
      assert (E : i <> i0) by (intro; subst; tauto).
      assert (Hni' : ~ In i (i0 :: map (jobId id) A)).
      { simpl. intros [E'|E']; [congruence|tauto]. }
      destruct (Done i Hi Hni') as [P|P]; [left|right].
      * eapply succeededJob_ext; [now apply Hother|reflexivity|exact P].
      * eapply failedJob_ext; [now apply Hother|reflexivity|exact P].
    + rewrite Succ. symmetry. apply filter_count_same.
      intros i. apply succeededb_snoc_rejected. unfold rejected. now rewrite Hr.
    + rewrite length_app. simpl in *. lia.
  - (* the call failed for the fifth time *)
    left. split; [|reflexivity].
    unfold requeues in Hrq. rewrite Hrj in Hrq. simpl in Hrq.
    apply Nat.ltb_ge in Hrq. rewrite Hatt, Hmx in Hrq.
    unfold rejected in Hrj. destruct (d_result d) as [|e] eqn:Hr; [discriminate|].
    assert (Hentry : terminalEntry T id (afterFailure d) =
                     mkErrorEntry i0
                       ("Failed after 5 attempts. Last error: " ++ error_message e) 5).
    { unfold terminalEntry, afterFailure. cbn [entity maxAttempts attempts lastError].
      rewrite Hmx, Hatt, (lastErrorOf_single T d e Hr).
      change (id (entity (d_job d))) with (jobId id (d_job d)). rewrite Hjd.
      replace (S (attempts job)) with 5 by lia. reflexivity. }
    rewrite Hentry.
    assert (Hents : forall i, i <> i0 ->
              entriesFor i (errors (locals r) ++
                [mkErrorEntry i0 ("Failed after 5 attempts. Last error: "
                                    ++ error_message e) 5])
              = entriesFor i (errors (locals r))).
    { intros i Hi. apply entriesFor_snoc_other. simpl. congruence. }
    constructor; cbn [queue successCount errorCount errors processed];
      try assumption.
    + intros j Hj'. destruct (Act j (or_intror Hj')) as [? P]. split; [assumption|].
      eapply pendingJob_ext; [apply Hother; now apply HA|apply Hents; now apply HA|exact P].
    + intros i Hi Hni.
      destruct (EntityId_eqb i i0) eqn:E.
      * apply EntityId_eqb_eq in E. subst i. right.
        exists (history (calls r) i0), d, e. repeat split; try assumption; [lia|].
        rewrite entriesFor_snoc_same by reflexivity. now rewrite Hent.
      * apply EntityId_eqb_neq in E.
        assert (Hni' : ~ In i (i0 :: map (jobId id) A)).
        { simpl. intros [E'|E']; [congruence|contradiction]. }
        destruct (Done i Hi Hni') as [P|P]; [left|right].
        -- eapply succeededJob_ext; [now apply Hother|now apply Hents|exact P].
        -- eapply failedJob_ext; [now apply Hother|now apply Hents|exact P].
    + rewrite Succ. symmetry. apply filter_count_same.
      intros i. apply succeededb_snoc_rejected. unfold rejected. now rewrite Hr.
    + rewrite length_app. simpl. lia.
    + simpl in Tot. lia.
    + lia.
Qed.

(** The invariant reads the counters and the error list of the locals,
    never their queue. *)
Lemma Inv_locals_ext (ids : list EntityId) (A : list (Job T)) l l' c :
  successCount l' = successCount l -> errorCount l' = errorCount l ->
  errors l' = errors l -> processed l' = processed l ->
  Inv ids A l c -> Inv ids A l' c.
Proof.
  intros E1 E2 E3 E4 [ND Act Done Retry Succ Errs Tot Proc].
  constructor; rewrite ?E1, ?E2, ?E3, ?E4; assumption.
Qed.

Lemma steps_preserve (ids : list EntityId) (batch : list (Job T)) :
  NoDup ids ->
  forall r,
    Inv ids (batch ++ queue (locals r)) (locals r) (calls r) ->
    let r' := fold_left stepJob_ batch r in
    Inv ids (queue (locals r')) (locals r') (calls r').
Proof.
  intros NDids. induction batch as [|job rest IH]; intros r H; simpl in *.
  - assumption.
  - apply IH.
    destruct (stepJob_preserves ids job _ r NDids H) as [[H' Q]|(j' & H' & Q)].
    + now rewrite Q.
    + rewrite Q, app_assoc. assumption.
Qed.

Lemma wave_preserves (ids : list EntityId) r :
  NoDup ids ->
  Inv ids (queue (locals r)) (locals r) (calls r) ->
  Inv ids (queue (locals (wave_ r))) (locals (wave_ r)) (calls (wave_ r)).
Proof.
  intros NDids H. rewrite wave_as_steps.
  apply steps_preserve; [assumption|]. cbn [locals calls queue].
  rewrite firstn_skipn.
  eapply Inv_locals_ext; [| | | |exact H]; reflexivity.
Qed.

(** Every call is made the way the callback makes it. *)
Lemma stepJob_wellDispatched r job :
  Forall (wellDispatched id entityType_) (calls r) ->
  Forall (wellDispatched id entityType_) (calls (stepJob_ r job)).
Proof.
  intros H. destruct (stepJob_cases r job) as (d & s' & Hj & Hd & _ & Hc & _).
  rewrite Hc. apply Forall_app. split; [assumption|]. constructor; [|constructor].
  unfold wellDispatched, jobId. rewrite Hj, Hd. simpl. repeat split; lia.
Qed.

Lemma wave_wellDispatched r :
  Forall (wellDispatched id entityType_) (calls r) ->
  Forall (wellDispatched id entityType_) (calls (wave_ r)).
Proof.
  intros H. rewrite wave_as_steps.
  set (r0 := mkRun World T _ (io r) (calls r)).
  assert (H0 : Forall (wellDispatched id entityType_) (calls r0)) by exact H.
  clearbody r0. clear H.
  revert r0 H0. induction (firstn BATCH (queue (locals r))) as [|job rest IH];
    intros r0 H0; simpl; [assumption|].
  apply IH. now apply stepJob_wellDispatched.
Qed.

(* ---------- the attempts budget ---------- *)

Lemma budget_app (q1 q2 : list (Job T)) : budget (q1 ++ q2) = budget q1 + budget q2.
Proof. unfold budget. now rewrite map_app, list_sum_app. Qed.

Lemma budget_positive (q : list (Job T)) :
  Forall okJob q -> q <> [] -> 0 < budget q.
Proof.
  intros H NE. destruct q as [|j q]; [contradiction|].
  inversion H; subst. unfold budget. simpl. lia.
Qed.

Lemma stepJob_budget r job :
  attempts job < maxAttempts job ->
  Forall okJob (queue (locals r)) ->
  Forall okJob (queue (locals (stepJob_ r job))) /\
  budget (queue (locals (stepJob_ r job))) + 1
  <= budget (queue (locals r)) + (maxAttempts job - attempts job).
Proof.
  intros Hok Hq. destruct (stepJob_cases r job) as (d & s' & Hj & Hd & _ & Hc & Hl).
  destruct Hl as [(_ & ->)|[(Hrj & Hrq & ->)|(_ & _ & ->)]]; cbn [queue].
  - split; [assumption|lia].
  - unfold requeues in Hrq. rewrite Hrj in Hrq. simpl in Hrq.
    apply Nat.ltb_lt in Hrq. split.
    + apply Forall_app. split; [assumption|]. constructor; [|constructor].
      unfold afterFailure. cbn [attempts maxAttempts]. assumption.
    + rewrite budget_app. unfold budget at 2. simpl.
      rewrite Hj. cbn [attempts maxAttempts]. lia.
  - split; [assumption|lia].
Qed.

Lemma steps_budget (batch : list (Job T)) :
  forall r,
    Forall okJob batch -> Forall okJob (queue (locals r)) ->
    let r' := fold_left stepJob_ batch r in
    Forall okJob (queue (locals r')) /\
    budget (queue (locals r')) + List.length batch
    <= budget (queue (locals r)) + budget batch.
Proof.
  induction batch as [|job rest IH]; intros r Hb Hq; simpl.
  - split; [assumption|]. unfold budget at 3. simpl. lia.
  - inversion Hb as [|? ? Hjob Hrest]; subst.
    destruct (stepJob_budget r job Hjob Hq) as [Hq1 Hb1].
    destruct (IH (stepJob_ r job) Hrest Hq1) as [Hq2 Hb2].
    split; [assumption|].
    change (budget (job :: rest)) with ((maxAttempts job - attempts job) + budget rest).
    simpl in Hb2. lia.
Qed.

Lemma wave_budget r :
  Forall okJob (queue (locals r)) ->
  Forall okJob (queue (locals (wave_ r))) /\
  budget (queue (locals (wave_ r))) + List.length (firstn BATCH (queue (locals r)))
  <= budget (queue (locals r)).
Proof.
  intros H. rewrite wave_as_steps.
  rewrite <- (firstn_skipn BATCH (queue (locals r))) in H.
  apply Forall_app in H. destruct H as [Hb Hq].
  match goal with |- context [fold_left _ _ ?r0] =>
    destruct (steps_budget (firstn BATCH (queue (locals r))) r0 Hb Hq) as [H1 H2] end.
  split; [exact H1|].
  rewrite <- (firstn_skipn BATCH (queue (locals r))) at 4.
  rewrite budget_app. cbn [locals queue] in H2. lia.
Qed.

Lemma wave_decreases r :
  Forall okJob (queue (locals r)) -> queue (locals r) <> [] ->
  budget (queue (locals (wave_ r))) < budget (queue (locals r)).
Proof.
  intros H NE. destruct (wave_budget r H) as [_ Hb].
  destruct (queue (locals r)) as [|j q]; [contradiction|].
  simpl in Hb. lia.
Qed.

(** With as much fuel as the budget, the loop reaches the empty queue. *)
Lemma whileQueue_terminates (fuel : nat) :
  forall r,
    Forall okJob (queue (locals r)) -> budget (queue (locals r)) <= fuel ->
    exists r', whileQueue_ fuel r = Some r' /\ queue (locals r') = [].
Proof.
  induction fuel as [|fuel IH]; intros r Hok Hb.
  - simpl. destruct (queue (locals r)) as [|j q] eqn:Q.
    + exists r. auto.
    + exfalso. assert (0 < budget (j :: q)) by (apply budget_positive; congruence). lia.
  - simpl. destruct (queue (locals r)) as [|j q] eqn:Q.
    + exists r. auto.
    + assert (NE : queue (locals r) <> []) by congruence.
      rewrite <- Q in Hok, Hb.
      pose proof (wave_decreases r Hok NE) as Hdec.
      destruct (wave_budget r Hok) as [Hok' _].
      apply IH; [assumption|lia].
Qed.

(** What every wave keeps holds when the loop ends, with the queue
    empty. *)
Lemma whileQueue_invariant (P : Run World T -> Prop) :
  (forall r, queue (locals r) <> [] -> P r -> P (wave_ r)) ->
  forall fuel r r', whileQueue_ fuel r = Some r' -> P r -> P r' /\ queue (locals r') = [].
Proof.
  intros Hstep. induction fuel as [|fuel IH]; intros r r' H HP; simpl in H.
  - destruct (queue (locals r)) eqn:Q; [|discriminate].
    inversion H; subst. auto.
  - destruct (queue (locals r)) eqn:Q.
    + inversion H; subst. auto.
    + apply (IH (wave_ r)); [assumption|]. apply Hstep; [congruence|assumption].
Qed.

(** The whole loop: the history it returns is its interaction with the
    sync method, from the state the loop was started in. *)
Lemma sweep_faithful (fuel : nat) (entities : list T) s r :
  sweepLoop_ fuel entities s = Some r ->
  faithful syncMethod (calls r) s (io r).
Proof.
  intros Hr.
  apply (whileQueue_invariant (fun r0 => faithful syncMethod (calls r0) s (io r0)))
    with (fuel := fuel) (r := startRun World T entities s) (r' := r).
  - intros r0 _ H. destruct (wave_faithful r0) as (ds & Hc & Hd).
    rewrite Hc. exact (faithful_app _ _ _ _ _ H Hd).
  - exact Hr.
  - apply faithful_nil.
Qed.

Lemma budget_newJobs (entities : list T) :
  budget (map (newJob T) entities) = 5 * List.length entities.
Proof.
  unfold budget. induction entities as [|e es IH]; simpl in *; [reflexivity|lia].
Qed.

Lemma newJobs_ok (entities : list T) : Forall okJob (map (newJob T) entities).
Proof. apply Forall_forall. intros j Hj. apply in_map_iff in Hj.
       destruct Hj as (e & <- & _). simpl. lia. Qed.

Lemma startRun_Inv (entities : list T) s :
  NoDup (map id entities) ->
  Inv (map id entities) (map (newJob T) entities)
      (locals (startRun World T entities s)) (calls (startRun World T entities s)).
Proof.
  intros ND. constructor; simpl.
  - rewrite map_map. exact ND.
  - intros j Hj. apply in_map_iff in Hj. destruct Hj as (e & <- & He).
    split; [change (jobId id (newJob T e)) with (id e); now apply in_map|].
    unfold pendingJob. simpl. repeat split; lia.
  - intros i Hi Hn. rewrite map_map in Hn. contradiction.
  - reflexivity.
  - clear ND. induction (map id entities); simpl; auto.
  - reflexivity.
  - now rewrite !length_map.
  - reflexivity.
Qed.

Lemma stepJob_counts r job :
  successCount (locals (stepJob_ r job)) + errorCount (locals (stepJob_ r job))
    + List.length (queue (locals (stepJob_ r job)))
  = successCount (locals r) + errorCount (locals r) + List.length (queue (locals r)) + 1.
Proof.
  destruct (stepJob_cases r job) as (d & s' & _ & _ & _ & _ & Hl).
  destruct Hl as [(_ & ->)|[(_ & _ & ->)|(_ & _ & ->)]];
    cbn [queue successCount errorCount]; rewrite ?length_app; simpl; lia.
Qed.

Lemma steps_counts (batch : list (Job T)) :
  forall r,
    let r' := fold_left stepJob_ batch r in
    successCount (locals r') + errorCount (locals r') + List.length (queue (locals r'))
    = successCount (locals r) + errorCount (locals r) + List.length (queue (locals r))
      + List.length batch.
Proof.
  induction batch as [|job rest IH]; intros r; simpl.
  - lia.
  - simpl in IH. rewrite IH, stepJob_counts. lia.
Qed.

Lemma wave_counts r :
  successCount (locals (wave_ r)) + errorCount (locals (wave_ r))
    + List.length (queue (locals (wave_ r)))
  = successCount (locals r) + errorCount (locals r) + List.length (queue (locals r)).
Proof.
  rewrite wave_as_steps.
  pose proof (steps_counts (firstn BATCH (queue (locals r)))) as H. cbv zeta in H.
  rewrite H. cbn [locals successCount errorCount queue].
  pose proof (f_equal (@List.length _) (firstn_skipn BATCH (queue (locals r)))) as L.
  rewrite length_app in L. lia.
Qed.

(** The calls of a run of steps, and the queue it leaves. *)
Lemma steps_queue (batch : list (Job T)) :
  forall r,
  exists ds,
    calls (fold_left stepJob_ batch r) = (calls r ++ ds)%list /\
    Forall2 (fun j d =>
               d_job d = mkJob T (entity j) (S (attempts j)) (maxAttempts j) (lastError j) /\
               retryCount (d_data d) = attempts j)
            batch ds /\
    queue (locals (fold_left stepJob_ batch r))
    = (queue (locals r) ++ map afterFailure (filter requeues ds))%list.
Proof.
  induction batch as [|job rest IH]; intros r; simpl.
  - exists []. rewrite !app_nil_r. repeat split. constructor.
  - destruct (stepJob_cases r job) as (d & s' & Hj & Hd & _ & Hc & Hl).
    destruct (IH (stepJob_ r job)) as (ds & Hcs & Hf & Hq).
    exists (d :: ds). repeat split.
    + rewrite Hcs, Hc, <- app_assoc. reflexivity.
    + constructor; [|assumption]. split; [assumption|]. rewrite Hd. reflexivity.
    + rewrite Hq. simpl.
      destruct Hl as [(Hres & ->)|[(Hrj & Hrq & ->)|(Hrj & Hrq & ->)]]; cbn [queue].
      * assert (requeues d = false) as ->; [|reflexivity].
        unfold requeues, rejected, resolved in *.
        destruct (d_result d); [reflexivity|discriminate].
      * rewrite Hrq. simpl. now rewrite <- app_assoc.
      * rewrite Hrq. reflexivity.
Qed.

Lemma steps_descriptors (batch : list (Job T)) :
  forall r,
  exists ds,
    calls (fold_left stepJob_ batch r) = (calls r ++ ds)%list /\
    Forall2 (fun j d =>
               entityType (d_data d) = entityType_ /\
               entityId (d_data d) = id (entity j) /\
               operationType (d_data d) = Update)
            batch ds.
Proof.
  induction batch as [|job rest IH]; intros r; simpl.
  - exists []. rewrite !app_nil_r. split; constructor.
  - destruct (stepJob_cases r job) as (d & s' & _ & Hd & _ & Hc & _).
    destruct (IH (stepJob_ r job)) as (ds & Hcs & Hf).
    exists (d :: ds). split.
    + rewrite Hcs, Hc, <- app_assoc. reflexivity.
    + constructor; [|assumption]. rewrite Hd. repeat split.
Qed.

Lemma dispatched_max5 (js : list (Job T)) (ds : list (Dispatch T)) :
  Forall2 (fun j d =>
             d_job d = mkJob T (entity j) (S (attempts j)) (maxAttempts j) (lastError j) /\
             retryCount (d_data d) = attempts j) js ds ->
  (forall j, In j js -> maxAttempts j = 5) ->
  Forall2 (fun j d =>
             d_job d = mkJob T (entity j) (S (attempts j)) 5 (lastError j) /\
             retryCount (d_data d) = attempts j) js ds /\
  (forall d, In d ds -> maxAttempts (d_job d) = 5).
Proof.
  induction 1 as [|j d js ds [Hj Hd] Hrest IH]; intros Hb.
  - split; [constructor|]. intros d [].
  - destruct IH as [IH1 IH2]; [intros j' Hj'; apply Hb; now right|].
    assert (Hm : maxAttempts j = 5) by (apply Hb; now left).
    split.
    + constructor; [|assumption]. rewrite Hj, Hm. auto.
    + intros d' [<-|Hd']; [rewrite Hj; exact Hm|now apply IH2].
Qed.

Lemma all_rejected_nth (h : list (Dispatch T)) n d :
  forallb rejected h = true -> nth_error h n = Some d -> resolved d = false.
Proof.
  intros H N. apply nth_error_In in N.
  rewrite forallb_forall in H. specialize (H d N).
  unfold rejected, resolved in *. destruct (d_result d); [discriminate|reflexivity].
Qed.

(* ---------- a sync method that never throws ---------- *)

Lemma stepJob_quiet r job :
  (forall data s, exists resp s', syncMethod data s = (Normal resp, s')) ->
  errors (locals (stepJob_ r job)) = errors (locals r) /\
  errorCount (locals (stepJob_ r job)) = errorCount (locals r).
Proof.
  intros Hquiet. unfold stepJob, runJob.
  match goal with |- context [syncMethod ?d ?s] =>
    destruct (Hquiet d s) as (resp & s' & ->) end.
  cbn. auto.
Qed.

Lemma wave_quiet r :
  (forall data s, exists resp s', syncMethod data s = (Normal resp, s')) ->
  errors (locals (wave_ r)) = errors (locals r) /\
  errorCount (locals (wave_ r)) = errorCount (locals r).
Proof.
  intros Hquiet. rewrite wave_as_steps.
  set (r0 := mkRun World T _ (io r) (calls r)).
  change (errors (locals r)) with (errors (locals r0)).
  change (errorCount (locals r)) with (errorCount (locals r0)).
  generalize r0. clear r0.
  induction (firstn BATCH (queue (locals r))) as [|job rest IH]; intros r0; simpl.
  - auto.
  - destruct (IH (stepJob_ r0 job)) as [-> ->]. now apply stepJob_quiet.
Qed.

(* ---------- the entries of the error list ---------- *)

Lemma stepJob_entries r job :
  liveJob job ->
  Forall liveJob (queue (locals r)) ->
  errorCount (locals r) = List.length (errors (locals r)) ->
  Forall terminalShape (errors (locals r)) ->
  Forall liveJob (queue (locals (stepJob_ r job))) /\
  errorCount (locals (stepJob_ r job)) = List.length (errors (locals (stepJob_ r job))) /\
  Forall terminalShape (errors (locals (stepJob_ r job))).
Proof.
  intros [Hmax Hlt] Hq Hc Hs.
  destruct (stepJob_cases r job) as (d & s' & Hj & Hd & _ & _ & Hl).
  assert (Hatt : attempts (d_job d) = S (attempts job)) by (rewrite Hj; reflexivity).
  assert (Hmx : maxAttempts (d_job d) = 5) by (rewrite Hj; assumption).
  destruct Hl as [(_ & ->)|[(Hrj & Hrq & ->)|(Hrj & Hrq & ->)]];
    cbn [queue errorCount errors]; unfold requeues in *;
    try (rewrite Hrj in Hrq; simpl in Hrq).
  - auto.
  - apply Nat.ltb_lt in Hrq. rewrite Hatt, Hmx in Hrq.
    repeat split; try assumption.
    apply Forall_app. split; [assumption|]. constructor; [|constructor].
    unfold liveJob, afterFailure. cbn [maxAttempts attempts]. lia.
  - apply Nat.ltb_ge in Hrq. rewrite Hatt, Hmx in Hrq.
    repeat split; try assumption.
    + rewrite length_app. simpl. lia.
    + apply Forall_app. split; [assumption|]. constructor; [|constructor].
      unfold terminalShape, terminalEntry, afterFailure.
      cbn [entry_attempts entry_error maxAttempts attempts lastError].
      rewrite Hmx, Hatt. split; [lia|].
      exists (lastError_to_string (lastErrorOf [d])). reflexivity.
Qed.

Lemma wave_entries r :
  Forall liveJob (queue (locals r)) ->
  errorCount (locals r) = List.length (errors (locals r)) ->
  Forall terminalShape (errors (locals r)) ->
  Forall liveJob (queue (locals (wave_ r))) /\
  errorCount (locals (wave_ r)) = List.length (errors (locals (wave_ r))) /\
  Forall terminalShape (errors (locals (wave_ r))).
Proof.
  intros Hq Hc Hs. rewrite wave_as_steps.
  rewrite <- (firstn_skipn BATCH (queue (locals r))) in Hq.
  apply Forall_app in Hq. destruct Hq as [Hb Hq].
  set (r0 := mkRun World T _ (io r) (calls r)).
  assert (Hq0 : Forall liveJob (queue (locals r0))) by exact Hq.
  assert (Hc0 : errorCount (locals r0) = List.length (errors (locals r0))) by exact Hc.
  assert (Hs0 : Forall terminalShape (errors (locals r0))) by exact Hs.
  clearbody r0. clear Hq Hc Hs. revert r0 Hq0 Hc0 Hs0.
  induction (firstn BATCH (queue (locals r))) as [|job rest IH];
    intros r0 Hq0 Hc0 Hs0; simpl; [auto|].
  inversion Hb as [|? ? Hjob Hrest]; subst.
  destruct (stepJob_entries r0 job Hjob Hq0 Hc0 Hs0) as (H1 & H2 & H3).
  apply IH; assumption.
Qed.

Lemma newJobs_live (entities : list T) : Forall liveJob (map (newJob T) entities).
Proof.
  apply Forall_forall. intros j Hj. apply in_map_iff in Hj.
  destruct Hj as (e & <- & _). unfold liveJob. simpl. lia.
Qed.

Local Abbreviation syncAll_ :=
  (syncAllEntitiesToCmsGeneric World T id entityType_ findEntities syncMethod clock).

(** The loop of a sweep over entities with distinct identifiers ends,
    with the invariant established and the queue empty. *)
Lemma sweepLoop_result (entities : list T) s (fuel : nat) :
  5 * List.length entities <= fuel ->
  exists r,
    sweepLoop_ fuel entities s = Some r /\
    queue (locals r) = [] /\
    Forall (wellDispatched id entityType_) (calls r) /\
    successCount (locals r) + errorCount (locals r) = List.length entities /\
    errorCount (locals r) = List.length (errors (locals r)) /\
    Forall terminalShape (errors (locals r)) /\
    (NoDup (map id entities) ->
     Inv (map id entities) [] (locals r) (calls r)).
Proof.
  intros Hfuel. unfold sweepLoop.
  destruct (whileQueue_terminates fuel (startRun World T entities s)) as (r & Hr & Hq).
  { apply newJobs_ok. }
  { cbn [startRun locals queue]. rewrite budget_newJobs. assumption. }
  exists r. split; [assumption|]. split; [assumption|].
  assert (Hent : errorCount (locals r) = List.length (errors (locals r)) /\
                 Forall terminalShape (errors (locals r))).
  { destruct (whileQueue_invariant
                (fun r => Forall liveJob (queue (locals r)) /\
                          errorCount (locals r) = List.length (errors (locals r)) /\
                          Forall terminalShape (errors (locals r)))
                (fun r _ H => wave_entries r (proj1 H) (proj1 (proj2 H)) (proj2 (proj2 H)))
                fuel _ r Hr) as [(_ & H1 & H2) _].
    { cbn [startRun locals queue errorCount errors]. split; [apply newJobs_live|].
      split; [reflexivity|constructor]. }
    split; assumption. }
  split; [|split; [|split; [exact (proj1 Hent)|split; [exact (proj2 Hent)|]]]].
  - apply (whileQueue_invariant
             (fun r => Forall (wellDispatched id entityType_) (calls r))
             (fun r _ H => wave_wellDispatched r H) fuel _ r Hr).
    constructor.
  - destruct (whileQueue_invariant
                (fun r => successCount (locals r) + errorCount (locals r)
                          + List.length (queue (locals r)) = List.length entities)
                (fun r _ H => eq_trans (wave_counts r) H) fuel _ r Hr) as [H _].
    { cbn [startRun locals queue successCount errorCount]. now rewrite length_map. }
    rewrite Hq in H. simpl in H. lia.
  - intros ND.
    destruct (whileQueue_invariant
                (fun r => Inv (map id entities) (queue (locals r)) (locals r) (calls r))
                (fun r _ H => wave_preserves (map id entities) r ND H) fuel _ r Hr)
      as [H _].
    { apply startRun_Inv. assumption. }
    now rewrite Hq in H.
Qed.

(** With a sync method that never throws, a sweep records no failure,
    whatever the sync method returns. *)
Lemma quiet_sweep (entities : list T) s (fuel : nat) :
  (forall data s0, exists resp s1, syncMethod data s0 = (Normal resp, s1)) ->
  5 * List.length entities <= fuel ->
  exists r,
    sweepLoop_ fuel entities s = Some r /\
    summaryOf T (List.length entities) (locals r)
    = mkSummary true (List.length entities) (List.length entities) 0 [].
Proof.
  intros Hquiet Hfuel.
  destruct (sweepLoop_result entities s fuel Hfuel) as (r & Hr & _ & _ & Htot & _).
  exists r. split; [exact Hr|].
  destruct (whileQueue_invariant
              (fun r => errors (locals r) = [] /\ errorCount (locals r) = 0)
              (fun r _ H =>
                 conj (eq_trans (proj1 (wave_quiet r Hquiet)) (proj1 H))
                      (eq_trans (proj2 (wave_quiet r Hquiet)) (proj2 H)))
              fuel _ r Hr) as [[He Hc] _].
  { split; reflexivity. }
  unfold summaryOf. rewrite He, Hc in *. simpl. f_equal. lia.
Qed.




(** Every call is made for one of the entities loaded. *)
Lemma stepJob_known (entities : list T) r job :
  In (entity job) entities ->
  Forall (fun j => In (entity j) entities) (queue (locals r)) ->
  Forall (fun d => In (entityId (d_data d)) (map id entities)) (calls r) ->
  Forall (fun j => In (entity j) entities) (queue (locals (stepJob_ r job))) /\
  Forall (fun d => In (entityId (d_data d)) (map id entities)) (calls (stepJob_ r job)).
Proof.
  intros Hjob Hq Hc.
  destruct (stepJob_cases r job) as (d & s' & Hj & Hd & _ & Hcalls & Hl).
  split.
  - destruct Hl as [(_ & ->)|[(_ & _ & ->)|(_ & _ & ->)]]; cbn [queue]; try exact Hq.
    apply Forall_app. split; [exact Hq|]. constructor; [|constructor].
    unfold afterFailure. cbn [entity]. rewrite Hj. exact Hjob.
  - rewrite Hcalls. apply Forall_app. split; [exact Hc|]. constructor; [|constructor].
    rewrite Hd. cbn [entityId]. now apply in_map.
Qed.

Lemma steps_known (entities : list T) (batch : list (Job T)) :
  Forall (fun j => In (entity j) entities) batch ->
  forall r,
    Forall (fun j => In (entity j) entities) (queue (locals r)) ->
    Forall (fun d => In (entityId (d_data d)) (map id entities)) (calls r) ->
    Forall (fun j => In (entity j) entities)
           (queue (locals (fold_left stepJob_ batch r))) /\
    Forall (fun d => In (entityId (d_data d)) (map id entities))
           (calls (fold_left stepJob_ batch r)).
Proof.
  induction 1 as [|job rest Hjob _ IH]; intros r Hq Hc; simpl; [auto|].
  destruct (stepJob_known entities r job Hjob Hq Hc) as [Hq' Hc']. now apply IH.
Qed.

Lemma sweep_known (fuel : nat) (entities : list T) s r :
  sweepLoop_ fuel entities s = Some r ->
  Forall (fun d => In (entityId (d_data d)) (map id entities)) (calls r).
Proof.
  intros Hr.
  apply (whileQueue_invariant
           (fun r0 => Forall (fun j => In (entity j) entities) (queue (locals r0)) /\
                      Forall (fun d => In (entityId (d_data d)) (map id entities))
                             (calls r0)))
    with (fuel := fuel) (r := startRun World T entities s) (r' := r).
  - intros r0 _ [Hq Hc]. rewrite wave_as_steps.
    rewrite <- (firstn_skipn BATCH (queue (locals r0))) in Hq.
    apply Forall_app in Hq. destruct Hq as [Hb Hrest].
    apply steps_known; assumption.
  - exact Hr.
  - cbn [startRun locals queue calls]. split; [|constructor].
    apply Forall_forall. intros j Hj. apply in_map_iff in Hj.
    destruct Hj as (e & <- & He). exact He.
Qed.

(** C9: every call a sweep makes to the sync method is made with
    operation type "update" and with [retryCount] equal to the attempts
    counter of its job, already raised, minus one; the descriptor names
    the job's entity, which is one of the entities loaded, and the
    entity kind of the sweep.  The descriptors spoken of are the ones
    the sync method receives: the sync method called with them, in this
    order, from the state the sweep starts in, gives the recorded
    outcomes and the state the sweep ends in.  For entities with
    distinct identifiers the counter is the number of calls made for
    the entity so far: its calls carry the retry counts 0, 1, 2, ... *)
Theorem sweep_dispatches_updates (entities : list T) s (fuel : nat) :
  5 * List.length entities <= fuel ->
  exists r,
    sweepLoop World T id entityType_ syncMethod clock fuel entities s = Some r /\
    faithful syncMethod (calls r) s (io r) /\
    (forall d, In d (calls r) ->
       operationType (d_data d) = Update /\
       retryCount (d_data d) = attempts (d_job d) - 1 /\
       1 <= attempts (d_job d) /\
       entityId (d_data d) = id (entity (d_job d)) /\
       In (entityId (d_data d)) (map id entities) /\
       entityType (d_data d) = entityType_) /\
    (NoDup (map id entities) ->
     forall i, map (fun d => retryCount (d_data d)) (history (calls r) i)
               = seq 0 (List.length (history (calls r) i))).
Proof.
  intros Hfuel.
  destruct (sweepLoop_result entities s fuel Hfuel)
    as (r & Hr & _ & Hwd & _ & _ & _ & HInv).
  exists r. split; [assumption|].
  split; [exact (sweep_faithful fuel entities s r Hr)|]. split.
  - intros d Hd.
    rewrite Forall_forall in Hwd. destruct (Hwd d Hd) as (H1 & H2 & H3 & H4 & H5).
    pose proof (sweep_known fuel entities s r Hr) as Hk.
    rewrite Forall_forall in Hk. specialize (Hk d Hd).
    repeat split; assumption.
  - intros ND. destruct (HInv ND) as [_ _ _ Retry _ _ _ _]. exact Retry.
Qed.

End SweepProofs.

(** What a taping sync method has on its tape after a sweep is the
    descriptors of the history, call by call, and the outcomes of the
    history are its answers. *)
Lemma replay_taping (answer : SyncJobData -> Completion SyncResponse)
    (datas : list SyncJobData) (s : State (list SyncJobData)) :
  replay (list SyncJobData) (taping answer) datas s
  = (map answer datas, mkState (world s ++ datas)%list (requests s)).
Proof.
  revert s. induction datas as [|data rest IH]; intros s; simpl.
  - rewrite app_nil_r. destruct s; reflexivity.
  - rewrite IH. cbn [world requests]. now rewrite <- app_assoc.
Qed.

Lemma tape_is_history (T : Type) (id : T -> EntityId) (entityType_ : EntityKind)
    (answer : SyncJobData -> Completion SyncResponse)
    (clock : list SyncJobData -> string)
    (fuel : nat) (entities : list T) (r : Run (list SyncJobData) T) :
  sweepLoop (list SyncJobData) T id entityType_ (taping answer) clock
            fuel entities (mkState [] []) = Some r ->
  world (io r) = map d_data (calls r) /\
  map d_result (calls r) = map answer (map d_data (calls r)).
Proof.
  intros Hr.
  pose proof (sweep_faithful (list SyncJobData) T id entityType_ (taping answer) clock
                fuel entities (mkState [] []) r Hr) as F.
  unfold faithful in F. rewrite replay_taping in F. cbn [world requests app] in F.
  injection F as H1 H2. rewrite <- H2. cbn [world]. split; [reflexivity|].
  symmetry. exact H1.
Qed.

(* ================================================================== *)
(** * The publisher: lookups, fallbacks and transforms *)
(* ================================================================== *)

Section PublisherProofs.

Variable World : Type.
Variable fetch : HttpRequest -> World -> Completion HttpResponse * World.
Variable enforceRateLimit : World -> World.
Variable findOneProduct : EntityId -> World -> Completion (option Product) * World.
Variable parentLookupFirst : World -> bool.
Variable encodeURIComponent : string -> string.
Variable JSON_stringify : Value -> string.
Variable StringToNumber : string -> Value.
Variable ToString : Value -> Completion string.
Variable validateTranslations : list Translation -> LanguageCode -> Completion unit.
Variable options : PluginInitOptions.

Local Abbreviation request_ :=
  (makeSanityRequest World fetch enforceRateLimit JSON_stringify options).
Local Abbreviation endpoint_ := (lookup_endpoint encodeURIComponent options).
Local Abbreviation find_ :=
  (findDocumentByVendureId World fetch enforceRateLimit encodeURIComponent
     JSON_stringify options).
Local Abbreviation parent_ :=
  (findParentProductDocumentId World fetch enforceRateLimit findOneProduct
     encodeURIComponent JSON_stringify options).
Local Abbreviation transformP := (transformProductData World StringToNumber).
Local Abbreviation transformV :=
  (transformVariantData World fetch enforceRateLimit findOneProduct parentLookupFirst
    encodeURIComponent
     JSON_stringify StringToNumber ToString options).
Local Abbreviation transformC := (transformCollectionData World StringToNumber).
Local Abbreviation createP :=
  (createDocumentFromProduct World fetch enforceRateLimit JSON_stringify
     StringToNumber ToString options).
Local Abbreviation updateP :=
  (updateDocumentFromProduct World fetch enforceRateLimit encodeURIComponent
     JSON_stringify StringToNumber ToString options).
Local Abbreviation deleteP :=
  (deleteDocumentFromProduct World fetch enforceRateLimit encodeURIComponent
     JSON_stringify options).
Local Abbreviation createV :=
  (createDocumentFromVariant World fetch enforceRateLimit findOneProduct parentLookupFirst
     encodeURIComponent JSON_stringify StringToNumber ToString options).
Local Abbreviation updateV :=
  (updateDocumentFromVariant World fetch enforceRateLimit findOneProduct parentLookupFirst
     encodeURIComponent JSON_stringify StringToNumber ToString options).
Local Abbreviation deleteV :=
  (deleteDocumentFromVariant World fetch enforceRateLimit encodeURIComponent
     JSON_stringify options).
Local Abbreviation createC :=
  (createDocumentFromCollection World fetch enforceRateLimit JSON_stringify
     StringToNumber ToString options).
Local Abbreviation updateC :=
  (updateDocumentFromCollection World fetch enforceRateLimit encodeURIComponent
     JSON_stringify StringToNumber ToString options).
Local Abbreviation deleteC :=
  (deleteDocumentFromCollection World fetch enforceRateLimit encodeURIComponent
     JSON_stringify options).
Local Abbreviation syncP :=
  (syncProduct World fetch enforceRateLimit encodeURIComponent JSON_stringify
     StringToNumber ToString validateTranslations options).
Local Abbreviation syncV :=
  (syncProductVariant World fetch enforceRateLimit findOneProduct parentLookupFirst
    encodeURIComponent
     JSON_stringify StringToNumber ToString validateTranslations options).
Local Abbreviation syncC :=
  (syncCollection World fetch enforceRateLimit encodeURIComponent JSON_stringify
     StringToNumber ToString validateTranslations options).

Implicit Types (s : State World) (v existing : Value).

(** Unfolding the monad. *)
Ltac run := unfold bind, try_catch, ret, throw, lift in *; cbv beta in *.

(** A request to the remote store hands exactly one request to [fetch],
    with the method it was asked for; which request it is does not
    depend on the state. *)
Lemma makeSanityRequest_requests (m : HttpMethod) (ep : string) (data : option Value) :
  exists req,
    req_method req = m /\
    forall s, requests (snd (request_ m ep data s)) = (requests s ++ [req])%list.
Proof.
  unfold makeSanityRequest, rateLimit, do_fetch. run.
  match goal with |- context [mkRequest m ?u ?h ?b] => exists (mkRequest m u h b) end.
  split; [reflexivity|]. intros s. cbn [world requests].
  destruct (fetch _ _) as [[resp|e] w]; cbn; [|reflexivity].
  destruct (resp_ok resp); cbn; [|destruct (resp_text resp); reflexivity].
  destruct m; destruct (resp_json resp); reflexivity.
Qed.

(** The lookup never throws, and costs one read. *)
Lemma find_total (vendureId : EntityId) (type : string) s :
  exists existing req,
    fst (find_ vendureId type s) = Normal existing /\
    req_method req = GET /\
    requests (snd (find_ vendureId type s)) = (requests s ++ [req])%list.
Proof.
  destruct (makeSanityRequest_requests GET (endpoint_ vendureId type) None)
    as (req & Hm & Hr).
  specialize (Hr s).
  unfold findDocumentByVendureId. run.
  destruct (request_ GET _ None s) as [[resp|e] s1]; cbn in *.
  - destruct (get_prop resp "result") as [res|e]; cbn; eauto.
  - eauto.
Qed.

Lemma find_of_failed_query (vendureId : EntityId) (type : string) s (e : Thrown) s1 :
  request_ GET (endpoint_ vendureId type) None s = (Abrupt e, s1) ->
  find_ vendureId type s = (Normal Null, s1).
Proof. intros H. unfold findDocumentByVendureId. run. now rewrite H. Qed.

Lemma find_of_no_match (vendureId : EntityId) (type : string) s (resp v : Value) s1 :
  request_ GET (endpoint_ vendureId type) None s = (Normal resp, s1) ->
  get_prop resp "result" = Normal v -> nullish v = true ->
  find_ vendureId type s = (Normal Null, s1).
Proof.
  intros H G N. unfold findDocumentByVendureId. run. rewrite H. cbn. rewrite G. cbn.
  unfold coalesce. now rewrite N.
Qed.

Lemma mutating_snoc_GET (reqs : list HttpRequest) (req : HttpRequest) :
  req_method req = GET ->
  filter is_mutating (reqs ++ [req]) = filter is_mutating reqs.
Proof.
  intros H. rewrite filter_app. simpl. unfold is_mutating. rewrite H. apply app_nil_r.
Qed.

(** What the create method of a product or of a collection sends does
    not depend on the state it is run from: nothing when the transform
    skips, one [create] mutation of the transformed document otherwise. *)
Lemma createProduct_requests (p : Product) (lang : LanguageCode) (slug_ : option string) :
  exists reqs,
    Forall (fun r => req_method r = POST) reqs /\
    forall s, requests (snd (createP p lang slug_ s)) = (requests s ++ reqs)%list.
Proof.
  unfold createDocumentFromProduct, transformProductData.
  destruct (getTranslationByLanguage (product_translations p) lang) as [t|].
  - run.
    match goal with |- context [request_ POST ?ep ?d] =>
      destruct (makeSanityRequest_requests POST ep d) as (req & Hm & Hr) end.
    exists [req]. split; [repeat constructor; exact Hm|]. intros s. specialize (Hr s).
    destruct (request_ POST _ _ s) as [[res|e] s1]; cbn in *; [|exact Hr].
    destruct (get_prop res "results") as [results|]; cbn;
      [destruct (ToString _); cbn|]; exact Hr.
  - exists []. split; [constructor|]. intros s. run. cbn. now rewrite app_nil_r.
Qed.

Lemma createCollection_requests (c : Collection) (lang : LanguageCode)
    (slug_ : option string) :
  exists reqs,
    Forall (fun r => req_method r = POST) reqs /\
    forall s, requests (snd (createC c lang slug_ s)) = (requests s ++ reqs)%list.
Proof.
  unfold createDocumentFromCollection, transformCollectionData.
  destruct (getTranslationByLanguage (collection_translations c) lang) as [t|].
  - run.
    match goal with |- context [request_ POST ?ep ?d] =>
      destruct (makeSanityRequest_requests POST ep d) as (req & Hm & Hr) end.
    exists [req]. split; [repeat constructor; exact Hm|]. intros s. specialize (Hr s).
    destruct (request_ POST _ _ s) as [[res|e] s1]; cbn in *; [|exact Hr].
    destruct (get_prop res "results") as [results|]; cbn;
      [destruct (ToString _); cbn|]; exact Hr.
  - exists []. split; [constructor|]. intros s. run. cbn. now rewrite app_nil_r.
Qed.

(** C10: the lookup returns [null] when the query answers without a
    match, and also whenever the query itself fails, the error being
    swallowed; after a failed query every caller goes on as for a
    missing document: update runs the create path, delete returns
    without a further call, and the parent reference of a variant is
    left out. *)
Theorem failed_lookup_is_not_found (vendureId : EntityId) (type : string) s :
  (forall resp v s1,
      request_ GET (endpoint_ vendureId type) None s = (Normal resp, s1) ->
      get_prop resp "result" = Normal v -> nullish v = true ->
      find_ vendureId type s = (Normal Null, s1)) /\
  (forall e s1,
      request_ GET (endpoint_ vendureId type) None s = (Abrupt e, s1) ->
      find_ vendureId type s = (Normal Null, s1) /\
      (forall p lang slug_,
          product_id p = vendureId -> type = DOCUMENT_TYPE_product ->
          updateP p lang slug_ s = createP p lang slug_ s1 /\
          deleteP p s = (Normal tt, s1)) /\
      (forall x lang slug_ cols,
          variant_id x = vendureId -> type = DOCUMENT_TYPE_product_variant ->
          updateV x lang slug_ cols s = createV x lang slug_ cols s1 /\
          deleteV x s = (Normal tt, s1)) /\
      (forall c lang slug_,
          collection_id c = vendureId -> type = DOCUMENT_TYPE_collection ->
          updateC c lang slug_ s = createC c lang slug_ s1 /\
          deleteC c s = (Normal tt, s1)) /\
      (forall x p s0,
          on_world (findOneProduct (variant_productId x)) s0 = (Normal (Some p), s) ->
          product_id p = vendureId -> type = DOCUMENT_TYPE_product ->
          parent_ x s0 = (Normal Null, s1))).
Proof.
  split.
  - intros resp v s1 H G N. now apply (find_of_no_match vendureId type s resp v s1).
  - intros e s1 H.
    pose proof (find_of_failed_query vendureId type s e s1 H) as F.
    split; [exact F|].
    split; [|split; [|split]].
    + intros p lang slug_ <- ->. split.
      * unfold updateDocumentFromProduct. run. rewrite F. reflexivity.
      * unfold deleteDocumentFromProduct. run. rewrite F. reflexivity.
    + intros x lang slug_ cols <- ->. split.
      * unfold updateDocumentFromVariant. run. rewrite F. reflexivity.
      * unfold deleteDocumentFromVariant. run. rewrite F. reflexivity.
    + intros c lang slug_ <- ->. split.
      * unfold updateDocumentFromCollection. run. rewrite F. reflexivity.
      * unfold deleteDocumentFromCollection. run. rewrite F. reflexivity.
    + intros x p s0 H0 <- ->.
      unfold findParentProductDocumentId. run. rewrite H0. cbn. rewrite F. reflexivity.
Qed.

(** C5: when the lookup finds no remote document for the entity, the
    update operation is the create operation run from the state the
    lookup left: it sends what create sends, leaves the remote store as
    create leaves it, and completes as create completes, so the
    fallback adds no error of its own.  This holds for the update
    method of each entity kind and for the public sync operation
    called with "update" against the one called with "create".  For
    products and collections, whose document is built from the entity
    alone, the requests sent after the lookup are the very requests
    create sends from any state. *)
Theorem update_without_document_creates existing s s1 :
  truthy existing = false ->
  (forall p lang slug_,
      find_ (product_id p) DOCUMENT_TYPE_product s = (Normal existing, s1) ->
      updateP p lang slug_ s = createP p lang slug_ s1 /\
      fst (syncP p lang Update slug_ s) = fst (syncP p lang Create slug_ s1) /\
      (validateTranslations (product_translations p) lang = Normal tt ->
       syncP p lang Update slug_ s = syncP p lang Create slug_ s1) /\
      exists reqs,
        (forall s0, requests (snd (createP p lang slug_ s0)) = (requests s0 ++ reqs)%list) /\
        requests (snd (updateP p lang slug_ s)) = (requests s1 ++ reqs)%list) /\
  (forall x lang slug_ cols,
      find_ (variant_id x) DOCUMENT_TYPE_product_variant s = (Normal existing, s1) ->
      updateV x lang slug_ cols s = createV x lang slug_ cols s1 /\
      fst (syncV x lang Update slug_ cols s) = fst (syncV x lang Create slug_ cols s1) /\
      (validateTranslations (variant_translations x) lang = Normal tt ->
       syncV x lang Update slug_ cols s = syncV x lang Create slug_ cols s1)) /\
  (forall c lang slug_,
      find_ (collection_id c) DOCUMENT_TYPE_collection s = (Normal existing, s1) ->
      updateC c lang slug_ s = createC c lang slug_ s1 /\
      fst (syncC c lang Update slug_ s) = fst (syncC c lang Create slug_ s1) /\
      (validateTranslations (collection_translations c) lang = Normal tt ->
       syncC c lang Update slug_ s = syncC c lang Create slug_ s1) /\
      exists reqs,
        (forall s0, requests (snd (createC c lang slug_ s0)) = (requests s0 ++ reqs)%list) /\
        requests (snd (updateC c lang slug_ s)) = (requests s1 ++ reqs)%list).
Proof.
  intros Hfalsy. split; [|split].
  - intros p lang slug_ F.
    assert (U : updateP p lang slug_ s = createP p lang slug_ s1).
    { unfold updateDocumentFromProduct. run. rewrite F. cbn. now rewrite Hfalsy. }
    split; [exact U|].
    assert (R : exists reqs,
               (forall s0, requests (snd (createP p lang slug_ s0))
                           = (requests s0 ++ reqs)%list) /\
               requests (snd (updateP p lang slug_ s)) = (requests s1 ++ reqs)%list).
    { destruct (createProduct_requests p lang slug_) as (reqs & _ & Hr).
      exists reqs. split; [exact Hr|]. rewrite U. apply Hr. }
    unfold syncProduct. run.
    destruct (validateTranslations (product_translations p) lang) as [[]|e]; cbn;
      repeat split; try (now rewrite U); try reflexivity; try exact R;
      intros; try discriminate.
  - intros x lang slug_ cols F.
    assert (U : updateV x lang slug_ cols s = createV x lang slug_ cols s1).
    { unfold updateDocumentFromVariant. run. rewrite F. cbn. now rewrite Hfalsy. }
    split; [exact U|].
    unfold syncProductVariant. run.
    destruct (validateTranslations (variant_translations x) lang) as [[]|e]; cbn;
      split; try (now rewrite U); try reflexivity; intros; try discriminate.
  - intros c lang slug_ F.
    assert (U : updateC c lang slug_ s = createC c lang slug_ s1).
    { unfold updateDocumentFromCollection. run. rewrite F. cbn. now rewrite Hfalsy. }
    split; [exact U|].
    assert (R : exists reqs,
               (forall s0, requests (snd (createC c lang slug_ s0))
                           = (requests s0 ++ reqs)%list) /\
               requests (snd (updateC c lang slug_ s)) = (requests s1 ++ reqs)%list).
    { destruct (createCollection_requests c lang slug_) as (reqs & _ & Hr).
      exists reqs. split; [exact Hr|]. rewrite U. apply Hr. }
    unfold syncCollection. run.
    destruct (validateTranslations (collection_translations c) lang) as [[]|e]; cbn;
      repeat split; try (now rewrite U); try reflexivity; try exact R;
      intros; try discriminate.
Qed.


(** C7: for an entity without a translation in the default language the
    transform yields "skip" without any remote call.  The sync
    operation that calls it validates the translations first;
    [TranslationUtils.validateTranslations] is not among the sources,
    and the specification has it throw for exactly these entities: when
    it throws, the sync operation, whatever the operation type, throws
    that error from an untouched state, so it issues no remote call for
    the entity.  Whatever the validation does, the operations that
    reach the transform, create and update, issue no mutating call, and
    no call at all once the transform has skipped: the create method
    issues none, and the update method only the read of its lookup,
    which precedes the transform. *)
Theorem untranslated_entity_is_skipped (lang : LanguageCode) s :
  (forall p slug_,
      getTranslationByLanguage (product_translations p) lang = None ->
      transformP p lang slug_ s = (Normal None, s) /\
      (forall e,
          validateTranslations (product_translations p) lang = Abrupt e ->
          forall op, syncP p lang op slug_ s = (Abrupt e, s)) /\
      (forall op,
          op = Create \/ op = Update ->
          filter is_mutating (requests (snd (syncP p lang op slug_ s)))
          = filter is_mutating (requests s)) /\
      createP p lang slug_ s = (Normal tt, s) /\
      snd (syncP p lang Create slug_ s) = s /\
      exists req,
        req_method req = GET /\
        updateP p lang slug_ s
        = (Normal tt, snd (find_ (product_id p) DOCUMENT_TYPE_product s)) /\
        requests (snd (updateP p lang slug_ s)) = (requests s ++ [req])%list) /\
  (forall x slug_ cols,
      getTranslationByLanguage (variant_translations x) lang = None ->
      transformV x lang slug_ cols s = (Normal None, s) /\
      (forall e,
          validateTranslations (variant_translations x) lang = Abrupt e ->
          forall op, syncV x lang op slug_ cols s = (Abrupt e, s)) /\
      (forall op,
          op = Create \/ op = Update ->
          filter is_mutating (requests (snd (syncV x lang op slug_ cols s)))
          = filter is_mutating (requests s)) /\
      createV x lang slug_ cols s = (Normal tt, s) /\
      snd (syncV x lang Create slug_ cols s) = s /\
      exists req,
        req_method req = GET /\
        updateV x lang slug_ cols s
        = (Normal tt, snd (find_ (variant_id x) DOCUMENT_TYPE_product_variant s)) /\
        requests (snd (updateV x lang slug_ cols s)) = (requests s ++ [req])%list) /\
  (forall c slug_,
      getTranslationByLanguage (collection_translations c) lang = None ->
      transformC c lang slug_ s = (Normal None, s) /\
      (forall e,
          validateTranslations (collection_translations c) lang = Abrupt e ->
          forall op, syncC c lang op slug_ s = (Abrupt e, s)) /\
      (forall op,
          op = Create \/ op = Update ->
          filter is_mutating (requests (snd (syncC c lang op slug_ s)))
          = filter is_mutating (requests s)) /\
      createC c lang slug_ s = (Normal tt, s) /\
      snd (syncC c lang Create slug_ s) = s /\
      exists req,
        req_method req = GET /\
        updateC c lang slug_ s
        = (Normal tt, snd (find_ (collection_id c) DOCUMENT_TYPE_collection s)) /\
        requests (snd (updateC c lang slug_ s)) = (requests s ++ [req])%list).
Proof.
  split; [|split].
  - intros p slug_ Hnone.
    assert (Tr : forall s', transformP p lang slug_ s' = (Normal None, s')).
    { intros s'. unfold transformProductData. now rewrite Hnone. }
    assert (Cr : forall s', createP p lang slug_ s' = (Normal tt, s')).
    { intros s'. unfold createDocumentFromProduct. run. now rewrite Tr. }
    assert (Sc : snd (syncP p lang Create slug_ s) = s).
    { unfold syncProduct. run.
      destruct (validateTranslations (product_translations p) lang) as [[]|e];
        [now rewrite Cr|reflexivity]. }
    destruct (find_total (product_id p) DOCUMENT_TYPE_product s) as (ex & req & Hf & Hm & Hr).
    assert (U : updateP p lang slug_ s
                = (Normal tt, snd (find_ (product_id p) DOCUMENT_TYPE_product s))).
    { unfold updateDocumentFromProduct. run.
      destruct (find_ (product_id p) DOCUMENT_TYPE_product s) as [c s1].
      cbn in Hf. subst c. cbn.
      destruct (truthy ex); cbn; [now rewrite Tr|apply Cr]. }
    split; [apply Tr|]. split.
    { intros e He op. unfold syncProduct. run. rewrite He. reflexivity. }
    split.
    { intros op [->| ->]; [now rewrite Sc|].
      unfold syncProduct. run.
      destruct (validateTranslations (product_translations p) lang) as [[]|e]; [|reflexivity].
      rewrite U. cbn [snd]. rewrite Hr. now apply mutating_snoc_GET. }
    split; [apply Cr|]. split; [exact Sc|].
    exists req. split; [exact Hm|]. split; [exact U|]. rewrite U. exact Hr.
  - intros x slug_ cols Hnone.
    assert (Tr : forall s', transformV x lang slug_ cols s' = (Normal None, s')).
    { intros s'. unfold transformVariantData. now rewrite Hnone. }
    assert (Cr : forall s', createV x lang slug_ cols s' = (Normal tt, s')).
    { intros s'. unfold createDocumentFromVariant. run. now rewrite Tr. }
    assert (Sc : snd (syncV x lang Create slug_ cols s) = s).
    { unfold syncProductVariant. run.
      destruct (validateTranslations (variant_translations x) lang) as [[]|e];
        [now rewrite Cr|reflexivity]. }
    destruct (find_total (variant_id x) DOCUMENT_TYPE_product_variant s) as (ex & req & Hf & Hm
      & Hr).
    assert (U : updateV x lang slug_ cols s
                = (Normal tt, snd (find_ (variant_id x) DOCUMENT_TYPE_product_variant s))).
    { unfold updateDocumentFromVariant. run.
      destruct (find_ (variant_id x) DOCUMENT_TYPE_product_variant s) as [c s1].
      cbn in Hf. subst c. cbn.
      destruct (truthy ex); cbn; [now rewrite Tr|apply Cr]. }
    split; [apply Tr|]. split.
    { intros e He op. unfold syncProductVariant. run. rewrite He. reflexivity. }
    split.
    { intros op [->| ->]; [now rewrite Sc|].
      unfold syncProductVariant. run.
      destruct (validateTranslations (variant_translations x) lang) as [[]|e]; [|reflexivity].
      rewrite U. cbn [snd]. rewrite Hr. now apply mutating_snoc_GET. }
    split; [apply Cr|]. split; [exact Sc|].
    exists req. split; [exact Hm|]. split; [exact U|]. rewrite U. exact Hr.
  - intros c slug_ Hnone.
    assert (Tr : forall s', transformC c lang slug_ s' = (Normal None, s')).
    { intros s'. unfold transformCollectionData. now rewrite Hnone. }
    assert (Cr : forall s', createC c lang slug_ s' = (Normal tt, s')).
    { intros s'. unfold createDocumentFromCollection. run. now rewrite Tr. }
    assert (Sc : snd (syncC c lang Create slug_ s) = s).
    { unfold syncCollection. run.
      destruct (validateTranslations (collection_translations c) lang) as [[]|e];
        [now rewrite Cr|reflexivity]. }
    destruct (find_total (collection_id c) DOCUMENT_TYPE_collection s) as (ex & req & Hf & Hm & Hr).
    assert (U : updateC c lang slug_ s
                = (Normal tt, snd (find_ (collection_id c) DOCUMENT_TYPE_collection s))).
    { unfold updateDocumentFromCollection. run.
      destruct (find_ (collection_id c) DOCUMENT_TYPE_collection s) as [c0 s1].
      cbn in Hf. subst c0. cbn.
      destruct (truthy ex); cbn; [now rewrite Tr|apply Cr]. }
    split; [apply Tr|]. split.
    { intros e He op. unfold syncCollection. run. rewrite He. reflexivity. }
    split.
    { intros op [->| ->]; [now rewrite Sc|].
      unfold syncCollection. run.
      destruct (validateTranslations (collection_translations c) lang) as [[]|e]; [|reflexivity].
      rewrite U. cbn [snd]. rewrite Hr. now apply mutating_snoc_GET. }
    split; [apply Cr|]. split; [exact Sc|].
    exists req. split; [exact Hm|]. split; [exact U|]. rewrite U. exact Hr.
Qed.

(** C8 (as amended): for a product with a translation in the default
    language the transform yields the document with [_type] the product
    document type, [vendureId] the result of [Number(id)] (the
    identifier itself when it is numeric), [title] the translated name,
    and [slug.current] the precomputed slug when the caller passes one
    and the slug of the translation otherwise (the orchestrator passes
    the slug of the translation).  For the translation "Widget" /
    "widget", a numeric identifier and no other precomputed slug this is
    exactly the document with title "Widget" and slug "widget". *)
Theorem product_transform_document
    (p : Product) (lang : LanguageCode) (productSlug : option string)
    (t : Translation) s :
  getTranslationByLanguage (product_translations p) lang = Some t ->
  transformP p lang productSlug s
  = (Normal (Some (Obj [ ("_type", Str "vendureProduct");
                         ("vendureId", Number_ StringToNumber (product_id p));
                         ("title", Str (name t));
                         ("slug", Obj [ ("current",
                                         Str (match productSlug with
                                              | Some x => x
                                              | None => slug t
                                              end)) ]) ])), s) /\
  (forall z, product_id p = IdNum z ->
             Number_ StringToNumber (product_id p) = Num z) /\
  (productSlug = None \/
   productSlug = getSlugByLanguage (product_translations p) lang ->
   match productSlug with Some x => x | None => slug t end = slug t) /\
  (forall z,
      product_id p = IdNum z -> name t = "Widget" -> slug t = "widget" ->
      productSlug = None \/
      productSlug = getSlugByLanguage (product_translations p) lang ->
      transformP p lang productSlug s
      = (Normal (Some (Obj [ ("_type", Str "vendureProduct");
                             ("vendureId", Num z);
                             ("title", Str "Widget");
                             ("slug", Obj [ ("current", Str "widget") ]) ])), s)).
Proof.
  intros Ht.
  assert (Hslug : productSlug = None \/
                  productSlug = getSlugByLanguage (product_translations p) lang ->
                  match productSlug with Some x => x | None => slug t end = slug t).
  { unfold getSlugByLanguage. rewrite Ht. cbn. intros [->| ->]; reflexivity. }
  assert (Hdoc : transformP p lang productSlug s
                 = (Normal (Some (Obj [ ("_type", Str "vendureProduct");
                         ("vendureId", Number_ StringToNumber (product_id p));
                         ("title", Str (name t));
                         ("slug", Obj [ ("current",
                                         Str (match productSlug with
                                              | Some x => x
                                              | None => slug t
                                              end)) ]) ])), s)).
  { unfold transformProductData, getSlugByLanguage. rewrite Ht. cbn.
    destruct productSlug; reflexivity. }
  split; [exact Hdoc|]. split; [|split; [exact Hslug|]].
  - intros z ->. reflexivity.
  - intros z Hz Hn Hs Hp. rewrite Hdoc, (Hslug Hp), Hz, Hn, Hs. reflexivity.
Qed.

End PublisherProofs.

(* ================================================================== *)
(** * The boundaries: nothing is thrown to the caller *)
(* ================================================================== *)

Section BoundaryProofs.

Variable World : Type.
Variable fetch : HttpRequest -> World -> Completion HttpResponse * World.
Variable enforceRateLimit : World -> World.
Variable encodeURIComponent : string -> string.
Variable JSON_stringify : Value -> string.
Variable StringToNumber : string -> Value.
Variable ToString : Value -> Completion string.
Variable validateTranslations : list Translation -> LanguageCode -> Completion unit.
Variable options : PluginInitOptions.
Variable RequestContext : Type.
Variable findOneProduct : EntityId -> World -> Completion (option Product) * World.
Variable parentLookupFirst : World -> bool.
Variable findOneVariant : EntityId -> World -> Completion (option ProductVariant) * World.
Variable findOneCollection : EntityId -> World -> Completion (option Collection) * World.
Variable getDefaultChannel : World -> Completion Channel * World.
Variable createRequestContext :
  LanguageCode -> Channel -> World -> Completion RequestContext * World.
Variable collectionService_findAll :
  RequestContext -> World -> Completion (list Collection) * World.
Variable getCollectionProductVariantIds :
  Collection -> RequestContext -> World -> Completion (list EntityId) * World.
Variable clock : World -> string.

(** The generic sweep, over any entity type and any sync method. *)
Variable T : Type.
Variable id : T -> EntityId.
Variable entityType_ : EntityKind.
Variable findEntities : World -> Completion (list T) * World.
Variable syncMethod : SyncJobData -> M (State World) SyncResponse.

Local Abbreviation productToCms :=
  (syncProductToCms World fetch enforceRateLimit encodeURIComponent JSON_stringify
     StringToNumber ToString validateTranslations options findOneProduct getDefaultChannel clock).
Local Abbreviation productToCms_body :=
  (syncProductToCms_body World fetch enforceRateLimit encodeURIComponent JSON_stringify
     StringToNumber ToString validateTranslations options findOneProduct getDefaultChannel clock).
Local Abbreviation variantToCms :=
  (syncVariantToCms World fetch enforceRateLimit encodeURIComponent JSON_stringify
     StringToNumber ToString validateTranslations options RequestContext
     findOneProduct parentLookupFirst findOneVariant getDefaultChannel createRequestContext
     collectionService_findAll getCollectionProductVariantIds clock).
Local Abbreviation variantToCms_body :=
  (syncVariantToCms_body World fetch enforceRateLimit encodeURIComponent JSON_stringify
     StringToNumber ToString validateTranslations options RequestContext
     findOneProduct parentLookupFirst findOneVariant getDefaultChannel createRequestContext
     collectionService_findAll getCollectionProductVariantIds clock).
Local Abbreviation collectionToCms :=
  (syncCollectionToCms World fetch enforceRateLimit encodeURIComponent JSON_stringify
     StringToNumber ToString validateTranslations options RequestContext
     findOneCollection getDefaultChannel createRequestContext clock).
Local Abbreviation collectionToCms_body :=
  (syncCollectionToCms_body World fetch enforceRateLimit encodeURIComponent JSON_stringify
     StringToNumber ToString validateTranslations options RequestContext
     findOneCollection getDefaultChannel createRequestContext clock).
Local Abbreviation sweep_ :=
  (syncAllEntitiesToCmsGeneric World T id entityType_ findEntities syncMethod clock).

(** A [try] whose handler returns a value never throws. *)
Lemma try_catch_returns {A : Type} (body : M (State World) A) (handler : Thrown -> A)
    (s : State World) :
  exists a,
    fst (try_catch body (fun e => ret (handler e)) s) = Normal a /\
    snd (try_catch body (fun e => ret (handler e)) s) = snd (body s) /\
    (forall e, fst (body s) = Abrupt e -> a = handler e) /\
    (forall r, fst (body s) = Normal r -> a = r).
Proof.
  unfold try_catch, ret. destruct (body s) as [[r|e] s1]; cbn.
  - exists r. repeat split; congruence.
  - exists (handler e). repeat split; congruence.
Qed.

(** C4: the three single-entity sync operations always return a result:
    whatever is thrown during lookup or publishing is caught and turned
    into [{success: false, message}] carrying the message of the error;
    and the bulk sweep never passes an exception on either: when the
    initial load throws it returns the summary with [success: false]
    and the single synthetic entry, and when the load succeeds it
    returns a summary once the loop has ended, which it does. *)
Theorem sync_boundaries_never_throw :
  (forall jobData s,
      exists resp,
        fst (productToCms jobData s) = Normal resp /\
        (forall e, fst (productToCms_body jobData s) = Abrupt e ->
                   resp = mkSyncResponse false
                            ("Product sync failed: " ++ error_message e) None)) /\
  (forall jobData s,
      exists resp,
        fst (variantToCms jobData s) = Normal resp /\
        (forall e, fst (variantToCms_body jobData s) = Abrupt e ->
                   resp = mkSyncResponse false
                            ("Variant sync failed: " ++ error_message e) None)) /\
  (forall jobData s,
      exists resp,
        fst (collectionToCms jobData s) = Normal resp /\
        (forall e, fst (collectionToCms_body jobData s) = Abrupt e ->
                   resp = mkSyncResponse false
                            ("Collection sync failed: " ++ error_message e) None)) /\
  (forall fuel s,
      (forall e w1,
          findEntities (world s) = (Abrupt e, w1) ->
          sweep_ fuel s
          = Some (Normal (mkSummary false 0 0 1
                            [mkErrorEntry (IdNum (-1)) (error_message e) 1]),
                  mkState w1 (requests s))) /\
      (forall entities w1,
          findEntities (world s) = (Normal entities, w1) ->
          5 * List.length entities <= fuel ->
          exists summary s', sweep_ fuel s = Some (Normal summary, s')) /\
      (forall c s', sweep_ fuel s = Some (c, s') -> exists summary, c = Normal summary)).
Proof.
  split; [|split; [|split]].
  - intros jobData s. unfold syncProductToCms.
    destruct (try_catch_returns (productToCms_body jobData)
                (fun e => mkSyncResponse false
                            ("Product sync failed: " ++ error_message e) None) s)
      as (a & H1 & _ & H2 & _).
    exists a. split; [exact H1|exact H2].
  - intros jobData s. unfold syncVariantToCms.
    destruct (try_catch_returns (variantToCms_body jobData)
                (fun e => mkSyncResponse false
                            ("Variant sync failed: " ++ error_message e) None) s)
      as (a & H1 & _ & H2 & _).
    exists a. split; [exact H1|exact H2].
  - intros jobData s. unfold syncCollectionToCms.
    destruct (try_catch_returns (collectionToCms_body jobData)
                (fun e => mkSyncResponse false
                            ("Collection sync failed: " ++ error_message e) None) s)
      as (a & H1 & _ & H2 & _).
    exists a. split; [exact H1|exact H2].
  - intros fuel s. split; [|split].
    + intros e w1 H. unfold syncAllEntitiesToCmsGeneric, on_world. rewrite H.
      reflexivity.
    + intros entities w1 H Hfuel.
      unfold syncAllEntitiesToCmsGeneric, on_world. rewrite H.
      destruct (List.length entities =? 0)%nat; [eauto|].
      destruct (sweepLoop_result World T id entityType_ syncMethod clock
                  entities (mkState w1 (requests s)) fuel Hfuel) as (r & Hr & _).
      rewrite Hr. eauto.
    + intros c s'. unfold syncAllEntitiesToCmsGeneric, on_world.
      destruct (findEntities (world s)) as [[entities|e] w1].
      * destruct (List.length entities =? 0)%nat.
        -- intros H. inversion H. eauto.
        -- destruct (sweepLoop _ _ _ _ _ _ _ _ _); intros H; inversion H. eauto.
      * intros H. inversion H. eauto.
Qed.

(** The sweeps of the service run the single-entity sync operations,
    which never throw: whenever the initial load succeeds, such a sweep
    makes one attempt per entity and returns [success: true] with an
    empty error list, whatever the results of the sync operations say.
    Shown here for products; variants and collections go the same
    way. *)
Theorem product_sweep_reports_success
    (findProducts : World -> Completion (list Product) * World)
    (fuel : nat) (s : State World) (products : list Product) (w1 : World) :
  findProducts (world s) = (Normal products, w1) ->
  5 * List.length products <= fuel ->
  exists s',
    syncAllProductsToCms World fetch enforceRateLimit encodeURIComponent JSON_stringify
      StringToNumber ToString validateTranslations options findOneProduct findProducts
      getDefaultChannel clock fuel s
    = Some (Normal (mkSummary true (List.length products) (List.length products) 0 []),
            s').
Proof.
  intros Hfind Hfuel.
  unfold syncAllProductsToCms, syncAllEntitiesToCmsGeneric, on_world. rewrite Hfind.
  destruct (List.length products =? 0)%nat eqn:E.
  - apply Nat.eqb_eq in E. rewrite E. eauto.
  - destruct (quiet_sweep World Product product_id KProduct productToCms clock
                products (mkState w1 (requests s)) fuel) as (r & Hr & Hsum);
      [|assumption|].
    + intros data s0. unfold syncProductToCms.
      destruct (try_catch_returns (productToCms_body data)
                  (fun e => mkSyncResponse false
                              ("Product sync failed: " ++ error_message e) None) s0)
        as (a & H1 & _).
      exists a. eexists. apply injective_projections; [exact H1|reflexivity].
    + rewrite Hr, Hsum. eauto.
Qed.

End BoundaryProofs.

(* ================================================================== *)
(** * The sweep on the concrete scenario *)
(* ================================================================== *)

(** Twenty-five products of which number 13 always throws: one terminal
    failure after five attempts, twenty-four successes. *)
Example sweep_25_products :
  option_map fst (Scenario.sweep (Scenario.findFirst 25) Scenario.flakySync 125)
  = Some (Normal (mkSummary false 25 24 1
                    [mkErrorEntry (IdNum 13)
                       "Failed after 5 attempts. Last error: remote unavailable" 5])).
Proof. vm_compute. reflexivity. Qed.

(** A sync method that reports its failure in the returned
    [SyncResponse] instead of throwing is counted as a success on its
    first attempt: the sweep looks at whether the call threw, not at the
    [success] field of what it returned. *)
Example sweep_ignores_reported_failure :
  option_map fst (Scenario.sweep Scenario.findThree Scenario.reportingSync 15)
  = Some (Normal (mkSummary true 3 3 0 [])).
Proof. vm_compute. reflexivity. Qed.

(** The first wave over the entities 12, 13, 14: the job of 13 goes back
    to the queue with one attempt made and its error recorded. *)
Example first_wave_requeues_13 :
  queue (locals (wave Scenario.World nat Scenario.entityOf KProduct Scenario.flakySync
                      Scenario.clock
                      (startRun Scenario.World nat [12; 13; 14] Scenario.start)))
  = [mkJob nat 13 1 5 (Some "remote unavailable")].
Proof. vm_compute. reflexivity. Qed.

Lemma three_ids_distinct : NoDup (map Scenario.entityOf [12; 13; 14]).
Proof.
  repeat constructor; simpl; intuition discriminate.
Defined.




Lemma sweep_dispatches_updates_witness :
  exists r,
    sweepLoop Scenario.World nat Scenario.entityOf KProduct Scenario.flakySync
              Scenario.clock 15 [12; 13; 14] Scenario.start = Some r /\
    forall d, In d (calls r) -> operationType (d_data d) = Update.
Proof.
  destruct (sweep_dispatches_updates Scenario.World nat Scenario.entityOf KProduct
              Scenario.flakySync Scenario.clock [12; 13; 14] Scenario.start 15)
    as (r & Hr & _ & H & _).
  - simpl. lia.
  - exists r. split; [exact Hr|]. intros d Hd. apply (H d Hd).
Defined.

(** The product sync of the service reports a failure of the remote
    store in its result and does not throw, so a sweep that runs it
    counts the product as synced after one attempt. *)
Example service_sweep_counts_reported_failure :
  fst (Scenario.productSyncDown
         (mkJobData KProduct (IdNum 7) Update "0" 0) Scenario.start)
  = Normal (mkSyncResponse false "Product sync failed: fetch failed" None) /\
  option_map fst
    (syncAllEntitiesToCmsGeneric Scenario.World Product product_id KProduct
       Scenario.findWidgets Scenario.productSyncDown Scenario.clock 5 Scenario.start)
  = Some (Normal (mkSummary true 1 1 0 [])).
Proof. split; vm_compute; reflexivity. Qed.

(* ================================================================== *)
(** * The publisher on the concrete scenario *)
(* ================================================================== *)

Lemma update_without_document_creates_witness :
  updateDocumentFromProduct Scenario.World Scenario.fetchEmpty Scenario.noDelay
    Scenario.plainEncoding Scenario.opaqueJson Scenario.notNumeric Scenario.plainToString
      Scenario.options
    Scenario.widget "en" None Scenario.start
  = createDocumentFromProduct Scenario.World Scenario.fetchEmpty Scenario.noDelay
      Scenario.opaqueJson Scenario.notNumeric Scenario.plainToString Scenario.options
      Scenario.widget "en" None
      (Scenario.afterLookup (IdNum 7) DOCUMENT_TYPE_product).
Proof.
  destruct (update_without_document_creates Scenario.World Scenario.fetchEmpty
              Scenario.noDelay Scenario.noProduct Scenario.parentFirst Scenario.plainEncoding
              Scenario.opaqueJson Scenario.notNumeric Scenario.plainToString
              Scenario.strictValidation Scenario.options
              Null Scenario.start
              (Scenario.afterLookup (IdNum 7) DOCUMENT_TYPE_product) eq_refl)
    as [H _].
  destruct (H Scenario.widget "en" None) as [U _].
  - reflexivity.
  - exact U.
Defined.


Lemma failed_lookup_is_not_found_witness :
  findDocumentByVendureId Scenario.World Scenario.fetchDown Scenario.noDelay
    Scenario.plainEncoding Scenario.opaqueJson Scenario.options
    (IdNum 7) DOCUMENT_TYPE_product Scenario.start
  = (Normal Null, Scenario.afterFailedLookup (IdNum 7) DOCUMENT_TYPE_product).
Proof.
  destruct (failed_lookup_is_not_found Scenario.World Scenario.fetchDown
              Scenario.noDelay Scenario.noProduct Scenario.parentFirst Scenario.plainEncoding
              Scenario.opaqueJson Scenario.notNumeric Scenario.plainToString
              Scenario.options (IdNum 7) DOCUMENT_TYPE_product Scenario.start)
    as [_ H].
  destruct (H (ErrorObj "fetch failed")
              (Scenario.afterFailedLookup (IdNum 7) DOCUMENT_TYPE_product))
    as [F _].
  - reflexivity.
  - exact F.
Defined.

Lemma untranslated_entity_is_skipped_witness :
  syncProduct Scenario.World Scenario.fetchEmpty Scenario.noDelay Scenario.plainEncoding
    Scenario.opaqueJson Scenario.notNumeric Scenario.plainToString Scenario.strictValidation
      Scenario.options
    Scenario.untranslated "en" Update None Scenario.start
  = (Abrupt (ErrorObj "No translation for the default language"), Scenario.start).
Proof.
  destruct (untranslated_entity_is_skipped Scenario.World Scenario.fetchEmpty
              Scenario.noDelay Scenario.noProduct Scenario.parentFirst Scenario.plainEncoding
              Scenario.opaqueJson Scenario.notNumeric Scenario.plainToString
              Scenario.strictValidation Scenario.options "en" Scenario.start)
    as [H _].
  destruct (H Scenario.untranslated None) as (_ & V & _).
  - reflexivity.
  - exact (V (ErrorObj "No translation for the default language") eq_refl Update).
Defined.

(** The update method on its own, run on a product without a
    translation in the default language, has issued one remote call
    when it returns: the read of its lookup.  The sync operation does
    not get that far when the validation throws. *)
Lemma untranslated_update_issues_a_read :
  getTranslationByLanguage (product_translations Scenario.untranslated) "en" = None /\
  fst (transformProductData Scenario.World Scenario.notNumeric
         Scenario.untranslated "en" None Scenario.start) = Normal None /\
  fst (updateDocumentFromProduct Scenario.World Scenario.fetchEmpty Scenario.noDelay
         Scenario.plainEncoding Scenario.opaqueJson Scenario.notNumeric Scenario.plainToString
           Scenario.options
         Scenario.untranslated "en" None Scenario.start) = Normal tt /\
  map req_method
      (requests (snd (updateDocumentFromProduct Scenario.World Scenario.fetchEmpty
                        Scenario.noDelay Scenario.plainEncoding Scenario.opaqueJson
                        Scenario.notNumeric Scenario.plainToString Scenario.options
                        Scenario.untranslated "en" None Scenario.start)))
  = [GET] /\
  requests (snd (updateDocumentFromProduct Scenario.World Scenario.fetchEmpty
                   Scenario.noDelay Scenario.plainEncoding Scenario.opaqueJson
                   Scenario.notNumeric Scenario.plainToString Scenario.options
                   Scenario.untranslated "en" None Scenario.start))
  <> requests Scenario.start.
Proof.
  repeat split; try (vm_compute; reflexivity).
  vm_compute. discriminate.
Qed.

Lemma product_transform_document_witness :
  transformProductData Scenario.World Scenario.notNumeric
    Scenario.widget "en" None Scenario.start
  = (Normal (Some (Obj [ ("_type", Str "vendureProduct");
                         ("vendureId", Num 7);
                         ("title", Str "Widget");
                         ("slug", Obj [ ("current", Str "widget") ]) ])),
     Scenario.start).
Proof.
  destruct (product_transform_document Scenario.World Scenario.notNumeric
              Scenario.widget "en" None (mkTranslation "en" "Widget" "widget")
              Scenario.start eq_refl)
    as (_ & _ & _ & H).
  apply (H 7%Z); try reflexivity. left. reflexivity.
Defined.

(** The product transform, given a precomputed slug other than the slug
    of the translation, puts the precomputed one into the document; and
    for an identifier that is a non-numeric string, [vendureId] is not
    that identifier. *)
Lemma precomputed_slug_overrides_translation :
  getTranslationByLanguage (product_translations Scenario.widget) "en"
  = Some (mkTranslation "en" "Widget" "widget") /\
  fst (transformProductData Scenario.World Scenario.notNumeric
         Scenario.widget "en" (Some "other") Scenario.start)
  = Normal (Some (Obj [ ("_type", Str "vendureProduct");
                        ("vendureId", Num 7);
                        ("title", Str "Widget");
                        ("slug", Obj [ ("current", Str "other") ]) ])) /\
  fst (transformProductData Scenario.World Scenario.notNumeric
         Scenario.widget "en" (Some "other") Scenario.start)
  <> Normal (Some (Obj [ ("_type", Str "vendureProduct");
                         ("vendureId", Num 7);
                         ("title", Str "Widget");
                         ("slug", Obj [ ("current", Str "widget") ]) ])) /\
  fst (transformProductData Scenario.World Scenario.notNumeric
         (mkProduct (IdStr "p-1") [mkTranslation "en" "Widget" "widget"])
         "en" None Scenario.start)
  = Normal (Some (Obj [ ("_type", Str "vendureProduct");
                        ("vendureId", NaN);
                        ("title", Str "Widget");
                        ("slug", Obj [ ("current", Str "widget") ]) ])).
Proof.
  repeat split; try (vm_compute; reflexivity).
  vm_compute. intros H. inversion H.
Qed.

Lemma sync_boundaries_never_throw_witness :
  Scenario.sweep Scenario.findBroken Scenario.flakySync 0
  = Some (Normal (mkSummary false 0 0 1
                    [mkErrorEntry (IdNum (-1)) "connection lost" 1]),
          Scenario.start).
Proof.
  destruct (sync_boundaries_never_throw Scenario.World Scenario.fetchDown
              Scenario.noDelay Scenario.plainEncoding Scenario.opaqueJson
              Scenario.notNumeric Scenario.plainToString Scenario.strictValidation
              Scenario.options unit Scenario.findWidget Scenario.parentFirst Scenario.findNoVariant
              Scenario.findNoCollection Scenario.englishChannel Scenario.adminContext
              Scenario.noCollections Scenario.noVariantIds Scenario.clock
              nat Scenario.entityOf KProduct Scenario.findBroken Scenario.flakySync)
    as (_ & _ & _ & H).
  destruct (H 0 Scenario.start) as (F & _).
  exact (F (ErrorObj "connection lost") 0 eq_refl).
Defined.

(** The variant transform against the empty store: the parent product
    has no document, so the reference is left out, and no collection
    document is found. *)
Example variant_transform_without_references :
  fst (transformVariantData Scenario.World Scenario.fetchEmpty Scenario.noDelay
         Scenario.findWidget Scenario.parentFirst Scenario.plainEncoding Scenario.opaqueJson
         Scenario.notNumeric Scenario.plainToString Scenario.options
         Scenario.widgetVariant "en" "widget-variant-70" (Some [Scenario.widgets])
         Scenario.start)
  = Normal (Some (Obj [ ("_type", Str "vendureProductVariant");
                        ("vendureId", Num 70);
                        ("title", Str "Widget, large");
                        ("slug", Obj [ ("current", Str "widget-variant-70") ]);
                        ("vendureProduct", Undefined);
                        ("vendureCollections", Arr []) ])).
Proof. vm_compute. reflexivity. Qed.

(* ================================================================== *)
(** * More on the bulk sweep: fan-out, number and order of calls *)
(* ================================================================== *)

Section SweepCalls.

Variable World : Type.
Variable T : Type.
Variable id : T -> EntityId.
Variable entityType_ : EntityKind.
Variable syncMethod : SyncJobData -> M (State World) SyncResponse.
Variable clock : World -> string.

Local Abbreviation stepJob_ := (stepJob World T id entityType_ syncMethod clock).
Local Abbreviation wave_ := (wave World T id entityType_ syncMethod clock).
Local Abbreviation whileQueue_ := (whileQueue World T id entityType_ syncMethod clock).
Local Abbreviation sweepLoop_ := (sweepLoop World T id entityType_ syncMethod clock).
Local Abbreviation entityIds :=
  (map (fun d : Dispatch T => entityId (d_data d))).
Local Abbreviation okJob := (fun j : Job T => attempts j < maxAttempts j).

Implicit Types (job j : Job T) (d : Dispatch T) (r : Run World T).

(** The calls a run of steps makes, and what it does to the queue. *)
Lemma steps_calls (batch : list (Job T)) :
  forall r,
  exists ds qs,
    calls (fold_left stepJob_ batch r) = (calls r ++ ds)%list /\
    entityIds ds = map (jobId id) batch /\
    map (fun d => retryCount (d_data d)) ds = map attempts batch /\
    queue (locals (fold_left stepJob_ batch r)) = (queue (locals r) ++ qs)%list /\
    successCount (locals (fold_left stepJob_ batch r))
      + errorCount (locals (fold_left stepJob_ batch r))
    <= successCount (locals r) + errorCount (locals r) + List.length batch.
Proof.
  induction batch as [|job rest IH]; intros r; simpl.
  - exists [], []. rewrite !app_nil_r. repeat split. lia.
  - destruct (stepJob_cases World T id entityType_ syncMethod clock r job)
      as (d & s' & Hj & Hd & _ & Hc & Hl).
    destruct (IH (stepJob_ r job)) as (ds & qs & Hcs & Hids & Hrc & Hq & Hn).
    assert (Hl' : exists q1,
               queue (locals (stepJob_ r job)) = (queue (locals r) ++ q1)%list /\
               successCount (locals (stepJob_ r job)) + errorCount (locals (stepJob_ r job))
               <= successCount (locals r) + errorCount (locals r) + 1).
    { destruct Hl as [(_ & ->)|[(_ & _ & ->)|(_ & _ & ->)]];
        cbn [queue successCount errorCount].
      - exists []. rewrite app_nil_r. split; [reflexivity|lia].
      - exists [afterFailure d]. split; [reflexivity|lia].
      - exists []. rewrite app_nil_r. split; [reflexivity|lia]. }
    destruct Hl' as (q1 & Hq1 & Hn1).
    exists (d :: ds), (q1 ++ qs)%list. repeat split.
    + rewrite Hcs, Hc, <- app_assoc. reflexivity.
    + simpl. rewrite Hids, Hd. reflexivity.
    + simpl. rewrite Hrc, Hd. reflexivity.
    + rewrite Hq, Hq1, <- app_assoc. reflexivity.
    + lia.
Qed.

Lemma wave_calls r :
  exists ds qs,
    calls (wave_ r) = (calls r ++ ds)%list /\
    entityIds ds = map (jobId id) (firstn BATCH (queue (locals r))) /\
    map (fun d => retryCount (d_data d)) ds
    = map attempts (firstn BATCH (queue (locals r))) /\
    queue (locals (wave_ r)) = (skipn BATCH (queue (locals r)) ++ qs)%list /\
    successCount (locals (wave_ r)) + errorCount (locals (wave_ r))
    <= successCount (locals r) + errorCount (locals r)
       + List.length (firstn BATCH (queue (locals r))).
Proof.
  rewrite (wave_as_steps World T id entityType_ syncMethod clock r).
  match goal with |- context [fold_left _ ?b ?r0] =>
    destruct (steps_calls b r0) as (ds & qs & H) end.
  exists ds, qs. exact H.
Qed.

(** X1: a wave calls the sync method exactly as many times as the
    smaller of 10 and the length of the queue, so never more than 10
    times; and a sweep over [n] entities calls it at least [n] and at
    most [5 * n] times.  The calls counted are the calls made: the sync
    method called with the recorded descriptors, one after the other,
    leads from the state before to the state after, with the recorded
    outcomes. *)
Theorem sweep_fan_out_and_call_count :
  (forall r,
      exists ds,
        calls (wave_ r) = (calls r ++ ds)%list /\
        faithful syncMethod ds (io r) (io (wave_ r)) /\
        List.length ds = Nat.min BATCH (List.length (queue (locals r)))) /\
  (forall entities s fuel,
      5 * List.length entities <= fuel ->
      exists r,
        sweepLoop_ fuel entities s = Some r /\
        faithful syncMethod (calls r) s (io r) /\
        List.length entities <= List.length (calls r) <= 5 * List.length entities).
Proof.
  assert (Hwave : forall r,
             List.length (calls (wave_ r))
             = List.length (calls r) + Nat.min BATCH (List.length (queue (locals r)))).
  { intros r. destruct (wave_calls r) as (ds & qs & Hc & Hids & _).
    rewrite Hc, length_app. f_equal.
    rewrite <- (length_map (fun d : Dispatch T => entityId (d_data d)) ds), Hids,
      length_map.
    apply length_firstn. }
  split.
  { intros r.
    destruct (wave_faithful World T id entityType_ syncMethod clock r) as (ds & Hc & HF).
    exists ds. split; [exact Hc|]. split; [exact HF|].
    pose proof (Hwave r) as Hlen. rewrite Hc, length_app in Hlen. lia. }
  intros entities s fuel Hfuel.
  destruct (sweepLoop_result World T id entityType_ syncMethod clock entities s fuel Hfuel)
    as (r & Hr & Hq & _ & Htot & _).
  exists r. split; [exact Hr|].
  split; [exact (sweep_faithful World T id entityType_ syncMethod clock
                   fuel entities s r Hr)|].
  pose (P := fun r : Run World T =>
                Forall okJob (queue (locals r)) /\
                List.length (calls r) + budget (queue (locals r))
                <= 5 * List.length entities /\
                successCount (locals r) + errorCount (locals r)
                <= List.length (calls r)).
  assert (Hstep : forall r0, queue (locals r0) <> [] -> P r0 -> P (wave_ r0)).
  { intros r0 _ (Hok & Hup & Hlow).
    destruct (wave_budget World T id entityType_ syncMethod clock r0 Hok) as [Hok' Hb].
    destruct (wave_calls r0) as (ds & qs & Hc & _ & _ & _ & Hn).
    pose proof (Hwave r0) as Hlen. rewrite length_firstn in Hb, Hn.
    split; [exact Hok'|]. split; lia. }
  assert (Hstart : P (startRun World T entities s)).
  { unfold P. cbn [startRun locals queue calls successCount errorCount List.length].
    split; [apply newJobs_ok|]. rewrite budget_newJobs. split; lia. }
  destruct (whileQueue_invariant World T id entityType_ syncMethod clock P Hstep
              fuel _ r Hr Hstart) as [(_ & Hup & Hlow) _].
  rewrite Hq in Hup. unfold budget in Hup. simpl in Hup. lia.
Qed.

Lemma firstn_plus {A : Type} (k m : nat) (l : list A) :
  firstn (k + m) l = (firstn k l ++ firstn m (skipn k l))%list.
Proof.
  revert l. induction k as [|k IH]; intros l; [reflexivity|].
  destruct l as [|a l]; simpl; [now rewrite firstn_nil|]. now rewrite IH.
Qed.

(** With a sync method that never throws, one step makes one call and
    leaves the queue alone. *)
Lemma steps_quiet (batch : list (Job T)) :
  (forall data s, exists resp s', syncMethod data s = (Normal resp, s')) ->
  forall r,
    queue (locals (fold_left stepJob_ batch r)) = queue (locals r).
Proof.
  intros Hquiet. induction batch as [|job rest IH]; intros r; simpl; [reflexivity|].
  rewrite IH. unfold stepJob, runJob.
  match goal with |- context [syncMethod ?d ?s] =>
    destruct (Hquiet d s) as (resp & s' & ->) end.
  reflexivity.
Qed.

(** X2: with a sync method that never throws, a sweep calls it exactly
    once for every entity, in the order in which the entities were
    loaded, each time as a first attempt ([retryCount] 0) and for an
    update.  The descriptors are the ones the sync method receives: the
    sync method called with them, in this order, from the state the
    sweep starts in, leads to the state the sweep ends in. *)
Theorem quiet_sweep_visits_in_order (entities : list T) (s : State World) (fuel : nat) :
  (forall data s0, exists resp s1, syncMethod data s0 = (Normal resp, s1)) ->
  5 * List.length entities <= fuel ->
  exists r,
    sweepLoop World T id entityType_ syncMethod clock fuel entities s = Some r /\
    faithful syncMethod (calls r) s (io r) /\
    map (fun d => entityId (d_data d)) (calls r) = map id entities /\
    map (fun d => retryCount (d_data d)) (calls r) = map (fun _ => 0) entities /\
    map (fun d => operationType (d_data d)) (calls r) = map (fun _ => Update) entities.
Proof.
  intros Hquiet Hfuel.
  destruct (sweepLoop_result World T id entityType_ syncMethod clock entities s fuel Hfuel)
    as (r & Hr & Hq & Hwd & _).
  exists r. split; [exact Hr|].
  split; [exact (sweep_faithful World T id entityType_ syncMethod clock
                   fuel entities s r Hr)|].
  assert (Hop : forall n : nat,
             List.length (calls r) = n ->
             map (fun d => operationType (d_data d)) (calls r) = repeat Update n).
  { intros n <-. clear - Hwd. induction Hwd as [|d c Hd _ IH]; [reflexivity|].
    simpl. rewrite IH. destruct Hd as (_ & -> & _). reflexivity. }
  cut (map (fun d => entityId (d_data d)) (calls r) = map id entities /\
       map (fun d => retryCount (d_data d)) (calls r) = map (fun _ => 0) entities).
  { intros [H1 H2]. split; [exact H1|]. split; [exact H2|].
    rewrite (Hop (List.length entities)).
    - clear. induction entities as [|e es IH]; [reflexivity|]. simpl. now rewrite IH.
    - rewrite <- (length_map (fun d => entityId (d_data d))), H1. apply length_map. }
  pose (P := fun r : Run World T =>
                exists k,
                  queue (locals r) = map (newJob T) (skipn k entities) /\
                  entityIds (calls r) = map id (firstn k entities) /\
                  map (fun d => retryCount (d_data d)) (calls r)
                  = map (fun _ => 0) (firstn k entities)).
  assert (Hstep : forall r0, queue (locals r0) <> [] -> P r0 -> P (wave_ r0)).
  { intros r0 _ (k & Hk & Hids & Hrc).
    destruct (wave_calls r0) as (ds & qs & Hc & Hd & Hdr & _).
    assert (Hqueue : queue (locals (wave_ r0)) = skipn BATCH (queue (locals r0))).
    { rewrite (wave_as_steps World T id entityType_ syncMethod clock r0).
      now rewrite steps_quiet. }
    exists (k + BATCH). rewrite Hqueue, Hc, !map_app, Hids, Hrc, Hd, Hdr, Hk.
    rewrite skipn_map, skipn_skipn, firstn_map, !map_map.
    rewrite (Nat.add_comm BATCH k), firstn_plus, !map_app.
    repeat split. }
  assert (Hstart : P (startRun World T entities s)).
  { exists 0. cbn [startRun locals queue calls]. repeat split. }
  destruct (whileQueue_invariant World T id entityType_ syncMethod clock P Hstep
              fuel _ r Hr Hstart) as [(k & Hk & Hids & Hrc) _].
  rewrite Hq in Hk.
  assert (Hall : firstn k entities = entities).
  { rewrite <- (firstn_skipn k entities) at 2.
    destruct (skipn k entities); [now rewrite app_nil_r|discriminate]. }
  rewrite Hids, Hrc, Hall. split; reflexivity.
Qed.

(** X3: whatever the sync method does, the calls of a sweep begin with
    one call for every entity, in the order in which the entities were
    loaded: every entity gets its first attempt before any entity is
    retried.  The descriptors are the ones the sync method receives: the
    sync method called with them, in this order, from the state the
    sweep starts in, gives the recorded outcomes and leads to the state
    the sweep ends in. *)
Theorem first_attempts_precede_retries (entities : list T) (s : State World) (fuel : nat) :
  5 * List.length entities <= fuel ->
  exists r retries,
    sweepLoop World T id entityType_ syncMethod clock fuel entities s = Some r /\
    faithful syncMethod (calls r) s (io r) /\
    map (fun d => entityId (d_data d)) (calls r) = (map id entities ++ retries)%list.
Proof.
  intros Hfuel.
  destruct (sweepLoop_result World T id entityType_ syncMethod clock entities s fuel Hfuel)
    as (r & Hr & Hq & _).
  pose (P := fun r : Run World T =>
                exists k Q R,
                  queue (locals r) = (map (newJob T) (skipn k entities) ++ Q)%list /\
                  entityIds (calls r) = (map id (firstn k entities) ++ R)%list /\
                  (skipn k entities <> [] -> R = [])).
  assert (Hstep : forall r0, queue (locals r0) <> [] -> P r0 -> P (wave_ r0)).
  { intros r0 _ (k & Q & R & Hk & Hids & HR).
    destruct (wave_calls r0) as (ds & qs & Hc & Hd & _ & Hqueue & _).
    set (F := skipn k entities) in *.
    exists (k + BATCH), (skipn (BATCH - List.length F) Q ++ qs)%list,
           (R ++ map (jobId id) (firstn (BATCH - List.length F) Q))%list.
    rewrite Hk in Hqueue, Hd.
    rewrite firstn_app, length_map, map_app, firstn_map, map_map in Hd.
    rewrite skipn_app, length_map, skipn_map in Hqueue. unfold F in Hqueue.
    rewrite skipn_skipn in Hqueue.
    split; [|split].
    - rewrite Hqueue, (Nat.add_comm k BATCH), <- app_assoc. reflexivity.
    - rewrite Hc, map_app, Hids, Hd, firstn_plus, map_app. fold F.
      change (map (fun x : T => jobId id (newJob T x)) (firstn BATCH F))
        with (map id (firstn BATCH F)).
      destruct F as [|e F'] eqn:EF.
      + rewrite firstn_nil. simpl. now rewrite !app_nil_r, <- !app_assoc.
      + rewrite HR by discriminate. simpl. now rewrite <- !app_assoc.
    - intros Hmore.
      assert (HF : BATCH < List.length F).
      { destruct (Nat.lt_ge_cases BATCH (List.length F)) as [H|H]; [exact H|].
        exfalso. apply Hmore. rewrite (Nat.add_comm k BATCH), <- skipn_skipn.
        fold F. apply skipn_all2.
        destruct (Nat.eq_dec (List.length F) BATCH) as [E|E]; [lia|].
        lia. }
      assert (HFne : F <> []) by (intro E; rewrite E in HF; simpl in HF; lia).
      rewrite (HR HFne). replace (BATCH - List.length F) with 0 by lia. reflexivity. }
  assert (Hstart : P (startRun World T entities s)).
  { exists 0, [], []. cbn [startRun locals queue calls]. simpl.
    rewrite app_nil_r. repeat split. }
  destruct (whileQueue_invariant World T id entityType_ syncMethod clock P Hstep
              fuel _ r Hr Hstart) as [(k & Q & R & Hk & Hids & _) _].
  rewrite Hq in Hk. symmetry in Hk. apply app_eq_nil in Hk. destruct Hk as [Hk _].
  apply map_eq_nil in Hk.
  assert (Hall : firstn k entities = entities).
  { rewrite <- (firstn_skipn k entities) at 2. now rewrite Hk, app_nil_r. }
  exists r, R. split; [exact Hr|].
  split; [exact (sweep_faithful World T id entityType_ syncMethod clock
                   fuel entities s r Hr)|].
  now rewrite Hids, Hall.
Qed.

End SweepCalls.

(* ================================================================== *)
(** * The requests of the publisher *)
(* ================================================================== *)

Section RequestAccounting.

Variable World : Type.

Implicit Types (P Q R : list HttpRequest -> Prop).

Local Abbreviation quiet := (fun new : list HttpRequest => new = []).

Lemma appends_weaken {A : Type} P Q (m : M (State World) A) :
  (forall new, P new -> Q new) -> appends P m -> appends Q m.
Proof. intros H Hm s. destruct (Hm s) as (new & E & Hn). eauto. Qed.

Lemma appends_ret {A : Type} (a : A) : appends quiet (ret (St := State World) a).
Proof. intros s. exists []. cbn. now rewrite app_nil_r. Qed.

Lemma appends_throw {A : Type} (e : Thrown) :
  appends quiet (throw (St := State World) (A := A) e).
Proof. intros s. exists []. cbn. now rewrite app_nil_r. Qed.

Lemma appends_lift {A : Type} (c : Completion A) :
  appends quiet (lift (St := State World) c).
Proof. intros s. exists []. cbn. now rewrite app_nil_r. Qed.

Lemma appends_on_world {A : Type} (f : World -> Completion A * World) :
  appends quiet (on_world f).
Proof.
  intros s. exists []. unfold on_world. destruct (f (world s)). cbn.
  now rewrite app_nil_r.
Qed.

(** Sequencing: the continuation runs only when the first part returns. *)
Lemma appends_bind {A B : Type} P Q R (m : M (State World) A)
    (k : A -> M (State World) B) :
  appends P m -> (forall a, appends Q (k a)) ->
  (forall l1, P l1 -> R l1) ->
  (forall l1 l2, P l1 -> Q l2 -> R (l1 ++ l2)%list) ->
  appends R (bind m k).
Proof.
  intros Hm Hk H1 H2 s. unfold bind. destruct (Hm s) as (l1 & E1 & P1).
  destruct (m s) as [[a|e] s1]; cbn in E1.
  - destruct (Hk a s1) as (l2 & E2 & Q2). exists (l1 ++ l2)%list.
    rewrite E2, E1, app_assoc. split; auto.
  - exists l1. cbn. auto.
Qed.

(** [try]/[catch]: the handler runs only when the body throws. *)
Lemma appends_try {A : Type} P Q R (body : M (State World) A)
    (handler : Thrown -> M (State World) A) :
  appends P body -> (forall e, appends Q (handler e)) ->
  (forall l1, P l1 -> R l1) ->
  (forall l1 l2, P l1 -> Q l2 -> R (l1 ++ l2)%list) ->
  appends R (try_catch body handler).
Proof.
  intros Hm Hk H1 H2 s. unfold try_catch. destruct (Hm s) as (l1 & E1 & P1).
  destruct (body s) as [[a|e] s1]; cbn in E1.
  - exists l1. cbn. auto.
  - destruct (Hk e s1) as (l2 & E2 & Q2). exists (l1 ++ l2)%list.
    rewrite E2, E1, app_assoc. split; auto.
Qed.

Lemma readsAtMost_nil (n : nat) : readsAtMost n [].
Proof. split; [constructor|simpl; lia]. Qed.

Lemma readsAtMost_mono (a b : nat) (l : list HttpRequest) :
  a <= b -> readsAtMost a l -> readsAtMost b l.
Proof. intros H [F L]. split; [assumption|lia]. Qed.

Lemma readsAtMost_app (a b : nat) (l1 l2 : list HttpRequest) :
  readsAtMost a l1 -> readsAtMost b l2 -> readsAtMost (a + b) (l1 ++ l2).
Proof.
  intros [F1 L1] [F2 L2]. split.
  - apply Forall_app. split; assumption.
  - rewrite length_app. lia.
Qed.

Lemma readsThenWrite_of_reads (n : nat) (l : list HttpRequest) :
  readsAtMost n l -> readsThenWrite n l.
Proof.
  intros H. exists l, []. rewrite app_nil_r. repeat split; try apply H.
  - constructor.
  - simpl. lia.
Qed.

Lemma readsThenWrite_mono (a b : nat) (l : list HttpRequest) :
  a <= b -> readsThenWrite a l -> readsThenWrite b l.
Proof.
  intros H (rs & ws & E & Hr & Hw & Hl). exists rs, ws.
  repeat split; try assumption; try apply (readsAtMost_mono a b rs H Hr).
Qed.

Lemma readsThenWrite_after_reads (a b : nat) (l1 l2 : list HttpRequest) :
  readsAtMost a l1 -> readsThenWrite b l2 -> readsThenWrite (a + b) (l1 ++ l2).
Proof.
  intros H1 (rs & ws & E & Hr & Hw & Hl). exists (l1 ++ rs)%list, ws.
  rewrite E, app_assoc. split; [reflexivity|]. split; [|split; assumption].
  now apply readsAtMost_app.
Qed.

Lemma readsThenWrite_post (r : HttpRequest) :
  req_method r = POST -> readsThenWrite 0 [r].
Proof.
  intros H. exists [], [r]. split; [reflexivity|]. split; [apply readsAtMost_nil|].
  split; [repeat constructor; exact H|simpl; lia].
Qed.

(** Reads, then something that reads. *)
Lemma reads_bind {A B : Type} (a b : nat) (m : M (State World) A)
    (k : A -> M (State World) B) :
  appends (readsAtMost a) m -> (forall x, appends (readsAtMost b) (k x)) ->
  appends (readsAtMost (a + b)) (bind m k).
Proof.
  intros Hm Hk. apply (appends_bind (readsAtMost a) (readsAtMost b) _ m k Hm Hk).
  - intros l H. apply (readsAtMost_mono a); [lia|exact H].
  - intros l1 l2. apply readsAtMost_app.
Qed.

(** Reads, then something that reads and writes at most once. *)
Lemma reads_then_write_bind {A B : Type} (a b : nat) (m : M (State World) A)
    (k : A -> M (State World) B) :
  appends (readsAtMost a) m -> (forall x, appends (readsThenWrite b) (k x)) ->
  appends (readsThenWrite (a + b)) (bind m k).
Proof.
  intros Hm Hk. apply (appends_bind (readsAtMost a) (readsThenWrite b) _ m k Hm Hk).
  - intros l H. apply readsThenWrite_of_reads. apply (readsAtMost_mono a); [lia|exact H].
  - intros l1 l2. apply readsThenWrite_after_reads.
Qed.

(** Two lookups awaited together: both run, in either order. *)
Lemma reads_all2 {A B : Type} (a b : nat) (pFirst : World -> bool)
    (p : M (State World) A) (q : M (State World) B) :
  appends (readsAtMost a) p -> appends (readsAtMost b) q ->
  appends (readsAtMost (a + b)) (promiseAll2 World pFirst p q).
Proof.
  intros Hp Hq s. unfold promiseAll2. destruct (pFirst (world s)).
  - destruct (Hp s) as (l1 & E1 & P1). destruct (p s) as [x s1]. cbn in E1.
    destruct (Hq s1) as (l2 & E2 & P2). destruct (q s1) as [y s2]. cbn in E2.
    exists (l1 ++ l2)%list. cbn. rewrite E2, E1, app_assoc. split; [reflexivity|].
    now apply readsAtMost_app.
  - destruct (Hq s) as (l1 & E1 & P1). destruct (q s) as [y s1]. cbn in E1.
    destruct (Hp s1) as (l2 & E2 & P2). destruct (p s1) as [x s2]. cbn in E2.
    exists (l1 ++ l2)%list. cbn. rewrite E2, E1, app_assoc. split; [reflexivity|].
    replace (a + b) with (b + a) by lia. now apply readsAtMost_app.
Qed.

(** Something followed by a part that sends nothing. *)
Lemma bind_quiet {A B : Type} P (m : M (State World) A) (k : A -> M (State World) B) :
  appends P m -> (forall x, appends quiet (k x)) -> appends P (bind m k).
Proof.
  intros Hm Hk. apply (appends_bind P quiet _ m k Hm Hk).
  - auto.
  - intros l1 l2 H ->. now rewrite app_nil_r.
Qed.

(** A body whose errors are caught by a handler that sends nothing. *)
Lemma try_quiet {A : Type} P (body : M (State World) A)
    (handler : Thrown -> M (State World) A) :
  appends P body -> (forall e, appends quiet (handler e)) ->
  appends P (try_catch body handler).
Proof.
  intros Hm Hk. apply (appends_try P quiet _ body handler Hm Hk).
  - auto.
  - intros l1 l2 H ->. now rewrite app_nil_r.
Qed.

Lemma quiet_reads (n : nat) {A : Type} (m : M (State World) A) :
  appends quiet m -> appends (readsAtMost n) m.
Proof. apply appends_weaken. intros new ->. apply readsAtMost_nil. Qed.

End RequestAccounting.

Section PublisherRequests.

Variable World : Type.
Variable fetch : HttpRequest -> World -> Completion HttpResponse * World.
Variable enforceRateLimit : World -> World.
Variable findOneProduct : EntityId -> World -> Completion (option Product) * World.
Variable parentLookupFirst : World -> bool.
Variable encodeURIComponent : string -> string.
Variable JSON_stringify : Value -> string.
Variable StringToNumber : string -> Value.
Variable ToString : Value -> Completion string.
Variable validateTranslations : list Translation -> LanguageCode -> Completion unit.
Variable options : PluginInitOptions.

Local Abbreviation request_ :=
  (makeSanityRequest World fetch enforceRateLimit JSON_stringify options).
Local Abbreviation requestFor_ := (requestFor JSON_stringify options).
Local Abbreviation mutate_ := (mutate_endpoint options).
Local Abbreviation find_ :=
  (findDocumentByVendureId World fetch enforceRateLimit encodeURIComponent
     JSON_stringify options).
Local Abbreviation collectionIds_ :=
  (getCollectionDocumentIds World fetch enforceRateLimit encodeURIComponent
     JSON_stringify options).
Local Abbreviation parent_ :=
  (findParentProductDocumentId World fetch enforceRateLimit findOneProduct
     encodeURIComponent JSON_stringify options).
Local Abbreviation transformP := (transformProductData World StringToNumber).
Local Abbreviation transformV :=
  (transformVariantData World fetch enforceRateLimit findOneProduct parentLookupFirst
    encodeURIComponent
     JSON_stringify StringToNumber ToString options).
Local Abbreviation transformC := (transformCollectionData World StringToNumber).
Local Abbreviation createP :=
  (createDocumentFromProduct World fetch enforceRateLimit JSON_stringify
     StringToNumber ToString options).
Local Abbreviation updateP :=
  (updateDocumentFromProduct World fetch enforceRateLimit encodeURIComponent
     JSON_stringify StringToNumber ToString options).
Local Abbreviation deleteP :=
  (deleteDocumentFromProduct World fetch enforceRateLimit encodeURIComponent
     JSON_stringify options).
Local Abbreviation createV :=
  (createDocumentFromVariant World fetch enforceRateLimit findOneProduct parentLookupFirst
     encodeURIComponent JSON_stringify StringToNumber ToString options).
Local Abbreviation updateV :=
  (updateDocumentFromVariant World fetch enforceRateLimit findOneProduct parentLookupFirst
     encodeURIComponent JSON_stringify StringToNumber ToString options).
Local Abbreviation deleteV :=
  (deleteDocumentFromVariant World fetch enforceRateLimit encodeURIComponent
     JSON_stringify options).
Local Abbreviation createC :=
  (createDocumentFromCollection World fetch enforceRateLimit JSON_stringify
     StringToNumber ToString options).
Local Abbreviation updateC :=
  (updateDocumentFromCollection World fetch enforceRateLimit encodeURIComponent
     JSON_stringify StringToNumber ToString options).
Local Abbreviation deleteC :=
  (deleteDocumentFromCollection World fetch enforceRateLimit encodeURIComponent
     JSON_stringify options).
Local Abbreviation syncP :=
  (syncProduct World fetch enforceRateLimit encodeURIComponent JSON_stringify
     StringToNumber ToString validateTranslations options).
Local Abbreviation syncV :=
  (syncProductVariant World fetch enforceRateLimit findOneProduct parentLookupFirst
    encodeURIComponent
     JSON_stringify StringToNumber ToString validateTranslations options).
Local Abbreviation syncC :=
  (syncCollection World fetch enforceRateLimit encodeURIComponent JSON_stringify
     StringToNumber ToString validateTranslations options).
Local Abbreviation quiet := (fun new : list HttpRequest => new = []).

Implicit Types (s : State World) (v existing : Value).

Ltac run := unfold bind, try_catch, ret, throw, lift in *; cbv beta in *.

(** Whatever happens to it, a request is handed to [fetch] once, after
    the rate limiter, and it is the request [requestFor] builds. *)
Lemma request_sends (m : HttpMethod) (ep : string) (data : option Value) s :
  requests (snd (request_ m ep data s))
  = (requests s ++ [requestFor_ m ep data])%list.
Proof.
  unfold makeSanityRequest, requestFor, rateLimit, do_fetch. run. cbn [world requests].
  destruct (fetch _ _) as [[resp|e] w]; cbn; [|reflexivity].
  destruct (resp_ok resp); cbn; [|destruct (resp_text resp); reflexivity].
  destruct m; destruct (resp_json resp); reflexivity.
Qed.

(** X4: [makeSanityRequest] calls [fetch] exactly once, whatever the
    answer, with a body only for a [POST] or [PUT] that carries truthy
    data; an error of [fetch] is passed on.  Of an answer that is not
    [ok] the text is read: when reading it fails, that error is thrown,
    and otherwise "Sanity API error: <status> <statusText> - <text>" is
    thrown.  An [ok] answer to a [DELETE] gives an empty object without
    the body being read, and any other [ok] answer gives what parsing
    the body gives, its error included.  Nothing but the rate limiter
    and [fetch] touches the outside world. *)
Theorem request_outcomes (m : HttpMethod) (ep : string) (data : option Value) s :
  requests (snd (request_ m ep data s))
  = (requests s ++ [requestFor_ m ep data])%list /\
  (forall body,
      req_body (requestFor_ m ep data) = Some body ->
      (m = POST \/ m = PUT) /\
      exists d, data = Some d /\ truthy d = true /\ body = JSON_stringify d) /\
  (forall e w,
      fetch (requestFor_ m ep data) (enforceRateLimit (world s)) = (Abrupt e, w) ->
      request_ m ep data s
      = (Abrupt e, mkState w (requests s ++ [requestFor_ m ep data]))) /\
  (forall resp w,
      fetch (requestFor_ m ep data) (enforceRateLimit (world s)) = (Normal resp, w) ->
      request_ m ep data s
      = (if negb (resp_ok resp) then
           match resp_text resp with
           | Normal text =>
               Abrupt (ErrorObj ("Sanity API error: " ++ string_of_Z (resp_status resp)
                                 ++ " " ++ resp_statusText resp ++ " - " ++ text))
           | Abrupt e => Abrupt e
           end
         else if match m with DELETE => true | _ => false end then Normal (Obj [])
         else resp_json resp,
         mkState w (requests s ++ [requestFor_ m ep data]))).
Proof.
  split; [apply request_sends|]. split; [|split].
  - unfold requestFor. cbn [req_body]. intros body H.
    destruct data as [d|]; [|destruct m; discriminate].
    destruct m; try discriminate; destruct (truthy d) eqn:T; try discriminate;
      inversion H; eauto 6.
  - intros e w H. unfold makeSanityRequest, requestFor, rateLimit, do_fetch in *. run.
    cbn [world requests]. rewrite H. reflexivity.
  - intros resp w H. unfold makeSanityRequest, requestFor, rateLimit, do_fetch in *. run.
    cbn [world requests]. rewrite H. cbn.
    destruct (resp_ok resp); cbn; [|destruct (resp_text resp); reflexivity].
    destruct m; cbn; destruct (resp_json resp); reflexivity.
Qed.

Lemma request_appends (m : HttpMethod) (ep : string) (data : option Value) :
  appends (fun new => new = [requestFor_ m ep data]) (request_ m ep data).
Proof. intros s. eexists. split; [apply request_sends|reflexivity]. Qed.

Lemma read_appends (ep : string) : appends (readsAtMost 1) (request_ GET ep None).
Proof.
  intros s. eexists. split; [apply request_sends|].
  split; [repeat constructor|simpl; lia].
Qed.

Lemma write_appends (d : Value) :
  appends (readsThenWrite 0) (request_ POST mutate_ (Some d)).
Proof.
  intros s. eexists. split; [apply request_sends|].
  apply readsThenWrite_post. reflexivity.
Qed.

(* ---------- what each operation may send ---------- *)

Lemma quiet_writes (n : nat) {A : Type} (m : M (State World) A) :
  appends quiet m -> appends (readsThenWrite n) m.
Proof.
  intros H. apply (appends_weaken World (readsAtMost n)).
  - apply readsThenWrite_of_reads.
  - now apply quiet_reads.
Qed.

Lemma find_appends (i : EntityId) (type : string) :
  appends (readsAtMost 1) (find_ i type).
Proof.
  unfold findDocumentByVendureId.
  apply try_quiet; [|intros; apply appends_ret].
  apply bind_quiet; [apply read_appends|]. intros response.
  apply bind_quiet; [apply appends_lift|intros; apply appends_ret].
Qed.

Lemma collectionIds_appends (cs : option (list Collection)) :
  appends (readsAtMost 1) (collectionIds_ cs).
Proof.
  unfold getCollectionDocumentIds.
  destruct cs as [[|c cs]|]; try (apply quiet_reads, appends_ret).
  cbv zeta. apply try_quiet; [|intros; apply appends_ret].
  apply bind_quiet; [apply read_appends|]. intros response.
  apply bind_quiet; [apply appends_lift|]. intros result.
  destruct (coalesce result (Arr [])); try apply appends_throw; apply appends_ret.
Qed.

Lemma parent_appends (variant : ProductVariant) :
  appends (readsAtMost 1) (parent_ variant).
Proof.
  unfold findParentProductDocumentId.
  apply try_quiet; [|intros; apply appends_ret].
  apply (reads_bind World 0 1); [apply quiet_reads, appends_on_world|].
  intros [p|]; [|apply quiet_reads, appends_ret].
  apply bind_quiet; [apply find_appends|intros; apply appends_ret].
Qed.

Lemma transformP_quiet (p : Product) (lang : LanguageCode) (slug_ : option string) :
  appends quiet (transformP p lang slug_).
Proof.
  unfold transformProductData.
  destruct (getTranslationByLanguage _ _); apply appends_ret.
Qed.

Lemma transformC_quiet (c : Collection) (lang : LanguageCode) (slug_ : option string) :
  appends quiet (transformC c lang slug_).
Proof.
  unfold transformCollectionData.
  destruct (getTranslationByLanguage _ _); apply appends_ret.
Qed.

Lemma transformV_appends (variant : ProductVariant) (lang : LanguageCode)
    (slug_ : string) (cs : option (list Collection)) :
  appends (readsAtMost 2) (transformV variant lang slug_ cs).
Proof.
  unfold transformVariantData.
  destruct (getTranslationByLanguage _ _); [|apply quiet_reads, appends_ret].
  apply bind_quiet.
  - apply (reads_all2 World 1 1); [apply parent_appends|apply collectionIds_appends].
  - intros lookups. cbv zeta.
    apply bind_quiet; [apply appends_lift|intros; apply appends_ret].
Qed.

(** The tail shared by the create methods: nothing, or one [create]. *)
Lemma create_tail (data : option Value) :
  appends (readsThenWrite 0)
    (match data with
     | None => ret tt
     | Some d =>
         result <- request_ POST mutate_ (Some (create_mutation d)) ;;
         results <- lift (get_prop result "results") ;;
         _ <- lift (ToString (get_prop_opt (get_index_opt results 0) "id")) ;;
         ret tt
     end)%async.
Proof.
  destruct data as [d|]; [|apply quiet_writes, appends_ret].
  apply bind_quiet; [apply write_appends|]. intros result.
  apply bind_quiet; [apply appends_lift|]. intros results.
  apply bind_quiet; [apply appends_lift|intros; apply appends_ret].
Qed.

(** The tail shared by the update methods: nothing, or one [patch]. *)
Lemma patch_tail (existing : Value) (data : option Value) :
  appends (readsThenWrite 0)
    (match data with
     | None => ret tt
     | Some d =>
         _ <- request_ POST mutate_
                (Some (patch_mutation (get_prop_opt existing "_id") d)) ;;
         _ <- lift (ToString (get_prop_opt existing "_id")) ;;
         ret tt
     end)%async.
Proof.
  destruct data as [d|]; [|apply quiet_writes, appends_ret].
  apply bind_quiet; [apply write_appends|]. intros result.
  apply bind_quiet; [apply appends_lift|intros; apply appends_ret].
Qed.

Lemma delete_tail (existing : Value) :
  appends (readsThenWrite 0)
    (if negb (truthy existing) then ret tt
     else
       _ <- request_ POST mutate_
              (Some (delete_mutation (get_prop_opt existing "_id"))) ;;
       ret tt)%async.
Proof.
  destruct (negb (truthy existing)); [apply quiet_writes, appends_ret|].
  apply bind_quiet; [apply write_appends|intros; apply appends_ret].
Qed.

Lemma createP_appends (p : Product) (lang : LanguageCode) (slug_ : option string) :
  appends (readsThenWrite 0) (createP p lang slug_).
Proof.
  unfold createDocumentFromProduct.
  apply (reads_then_write_bind World 0 0); [apply quiet_reads, transformP_quiet|].
  apply create_tail.
Qed.

Lemma createC_appends (c : Collection) (lang : LanguageCode) (slug_ : option string) :
  appends (readsThenWrite 0) (createC c lang slug_).
Proof.
  unfold createDocumentFromCollection.
  apply (reads_then_write_bind World 0 0); [apply quiet_reads, transformC_quiet|].
  apply create_tail.
Qed.

Lemma createV_appends (variant : ProductVariant) (lang : LanguageCode)
    (slug_ : string) (cs : option (list Collection)) :
  appends (readsThenWrite 2) (createV variant lang slug_ cs).
Proof.
  unfold createDocumentFromVariant.
  apply (reads_then_write_bind World 2 0); [apply transformV_appends|].
  apply create_tail.
Qed.

Lemma updateP_appends (p : Product) (lang : LanguageCode) (slug_ : option string) :
  appends (readsThenWrite 1) (updateP p lang slug_).
Proof.
  unfold updateDocumentFromProduct.
  apply (reads_then_write_bind World 1 0); [apply find_appends|]. intros existing.
  destruct (negb (truthy existing)); [apply createP_appends|].
  apply (reads_then_write_bind World 0 0); [apply quiet_reads, transformP_quiet|].
  apply patch_tail.
Qed.

Lemma updateC_appends (c : Collection) (lang : LanguageCode) (slug_ : option string) :
  appends (readsThenWrite 1) (updateC c lang slug_).
Proof.
  unfold updateDocumentFromCollection.
  apply (reads_then_write_bind World 1 0); [apply find_appends|]. intros existing.
  destruct (negb (truthy existing)); [apply createC_appends|].
  apply (reads_then_write_bind World 0 0); [apply quiet_reads, transformC_quiet|].
  apply patch_tail.
Qed.

Lemma updateV_appends (variant : ProductVariant) (lang : LanguageCode)
    (slug_ : string) (cs : option (list Collection)) :
  appends (readsThenWrite 3) (updateV variant lang slug_ cs).
Proof.
  unfold updateDocumentFromVariant.
  apply (reads_then_write_bind World 1 2); [apply find_appends|]. intros existing.
  destruct (negb (truthy existing)); [apply createV_appends|].
  apply (reads_then_write_bind World 2 0); [apply transformV_appends|].
  apply patch_tail.
Qed.

Lemma deleteP_appends (p : Product) : appends (readsThenWrite 1) (deleteP p).
Proof.
  unfold deleteDocumentFromProduct.
  apply (reads_then_write_bind World 1 0); [apply find_appends|]. apply delete_tail.
Qed.

Lemma deleteC_appends (c : Collection) : appends (readsThenWrite 1) (deleteC c).
Proof.
  unfold deleteDocumentFromCollection.
  apply (reads_then_write_bind World 1 0); [apply find_appends|]. apply delete_tail.
Qed.

Lemma deleteV_appends (variant : ProductVariant) :
  appends (readsThenWrite 1) (deleteV variant).
Proof.
  unfold deleteDocumentFromVariant.
  apply (reads_then_write_bind World 1 0); [apply find_appends|]. apply delete_tail.
Qed.

Lemma syncP_appends (p : Product) (lang : LanguageCode) (op : OperationType)
    (slug_ : option string) :
  appends (readsThenWrite 1) (syncP p lang op slug_).
Proof.
  unfold syncProduct.
  apply (reads_then_write_bind World 0 1); [apply quiet_reads, appends_lift|]. intros _.
  destruct op.
  - apply (appends_weaken World (readsThenWrite 0)); [|apply createP_appends].
    intros new. apply readsThenWrite_mono. lia.
  - apply updateP_appends.
  - apply deleteP_appends.
  - apply quiet_writes, appends_ret.
Qed.

Lemma syncC_appends (c : Collection) (lang : LanguageCode) (op : OperationType)
    (slug_ : option string) :
  appends (readsThenWrite 1) (syncC c lang op slug_).
Proof.
  unfold syncCollection.
  apply (reads_then_write_bind World 0 1); [apply quiet_reads, appends_lift|]. intros _.
  destruct op.
  - apply (appends_weaken World (readsThenWrite 0)); [|apply createC_appends].
    intros new. apply readsThenWrite_mono. lia.
  - apply updateC_appends.
  - apply deleteC_appends.
  - apply quiet_writes, appends_ret.
Qed.

Lemma syncV_appends (variant : ProductVariant) (lang : LanguageCode)
    (op : OperationType) (slug_ : string) (cs : option (list Collection)) :
  appends (readsThenWrite 3) (syncV variant lang op slug_ cs).
Proof.
  unfold syncProductVariant.
  apply (reads_then_write_bind World 0 3); [apply quiet_reads, appends_lift|]. intros _.
  destruct op.
  - apply (appends_weaken World (readsThenWrite 2)); [|apply createV_appends].
    intros new. apply readsThenWrite_mono. lia.
  - apply updateV_appends.
  - apply (appends_weaken World (readsThenWrite 1)); [|apply deleteV_appends].
    intros new. apply readsThenWrite_mono. lia.
  - apply quiet_writes, appends_ret.
Qed.

(** X5: whatever the operation type, the entity and the answers of the
    remote store, a sync operation of the publisher only adds requests
    to the history, and what it adds is reads followed by at most one
    write, which is a [POST]: at most one read for a product or a
    collection, at most three for a variant.  It never sends a [PUT] or
    a [DELETE], never writes twice, and never reads after writing. *)
Theorem sync_reads_then_writes_once :
  (forall p lang op slug_,
      appends (readsThenWrite 1) (syncP p lang op slug_)) /\
  (forall variant lang op slug_ cs,
      appends (readsThenWrite 3) (syncV variant lang op slug_ cs)) /\
  (forall c lang op slug_,
      appends (readsThenWrite 1) (syncC c lang op slug_)).
Proof.
  split; [|split].
  - exact syncP_appends.
  - exact syncV_appends.
  - exact syncC_appends.
Qed.

(* ---------- the write of an update and of a delete ---------- *)

Local Abbreviation endpoint_ := (lookup_endpoint encodeURIComponent options).

(** [{ mutations: [...] }] is an object, so it always goes into the body. *)
Lemma mutation_body (d : Value) :
  req_body (requestFor_ POST mutate_ (Some (Obj [("mutations", d)])))
  = Some (JSON_stringify (Obj [("mutations", d)])).
Proof. reflexivity. Qed.

Lemma find_sends (i : EntityId) (type : string) s :
  requests (snd (find_ i type s))
  = (requests s ++ [requestFor_ GET (endpoint_ i type) None])%list.
Proof.
  unfold findDocumentByVendureId. run.
  pose proof (request_sends GET (endpoint_ i type) None s) as H.
  destruct (request_ GET _ None s) as [[resp|e] s1]; cbn in *; [|exact H].
  destruct (get_prop resp "result"); cbn; exact H.
Qed.

(** The shape the three update methods share, on the path where the
    lookup finds a document and the transform gives data. *)
Lemma patch_path (find : M (State World) Value) (create : M (State World) unit)
    (transform : M (State World) (option Value)) s existing s1 d s2 :
  find s = (Normal existing, s1) ->
  truthy existing = true ->
  transform s1 = (Normal (Some d), s2) ->
  let patch := Some (patch_mutation (get_prop_opt existing "_id") d) in
  let update :=
    (existing <- find ;;
     if negb (truthy existing) then create
     else
       data <- transform ;;
       match data with
       | None => ret tt
       | Some d =>
           _ <- request_ POST mutate_
                  (Some (patch_mutation (get_prop_opt existing "_id") d)) ;;
           _ <- lift (ToString (get_prop_opt existing "_id")) ;;
           ret tt
       end)%async in
  requests (snd (update s)) = (requests s2 ++ [requestFor_ POST mutate_ patch])%list /\
  fst (update s) = match fst (request_ POST mutate_ patch s2) with
                   | Normal _ =>
                       match ToString (get_prop_opt existing "_id") with
                       | Normal _ => Normal tt
                       | Abrupt e => Abrupt e
                       end
                   | Abrupt e => Abrupt e
                   end.
Proof.
  intros Hf Ht Hd patch update. unfold update.
  pose proof (request_sends POST mutate_ patch s2) as H.
  set (rq := request_ POST mutate_) in *.
  unfold bind, ret, lift. rewrite Hf. cbv beta iota. rewrite Ht. cbn [negb]. cbv beta iota.
  rewrite Hd. cbv beta iota. fold patch.
  destruct (rq patch s2) as [[r|e] s3]; cbn [fst snd] in *; auto.
  destruct (ToString (get_prop_opt existing "_id")); cbn [fst snd]; auto.
Qed.

Lemma delete_path (find : M (State World) Value) s existing s1 :
  find s = (Normal existing, s1) ->
  truthy existing = true ->
  let del := Some (delete_mutation (get_prop_opt existing "_id")) in
  let delete :=
    (existing <- find ;;
     if negb (truthy existing) then ret tt
     else
       _ <- request_ POST mutate_
              (Some (delete_mutation (get_prop_opt existing "_id"))) ;;
       ret tt)%async in
  requests (snd (delete s)) = (requests s1 ++ [requestFor_ POST mutate_ del])%list /\
  fst (delete s) = match fst (request_ POST mutate_ del s1) with
                   | Normal _ => Normal tt
                   | Abrupt e => Abrupt e
                   end.
Proof.
  intros Hf Ht del delete. unfold delete.
  pose proof (request_sends POST mutate_ del s1) as H.
  set (rq := request_ POST mutate_) in *.
  unfold bind, ret. rewrite Hf. cbv beta iota. rewrite Ht. cbn [negb]. cbv beta iota.
  fold del.
  destruct (rq del s1) as [[r|e] s3]; cbn [fst snd] in *; auto.
Qed.

(** X6: when the lookup finds a document and the entity has a
    translation in the default language, an update sends, after its
    reads, exactly one write: a [POST] to the mutate endpoint whose body
    is the [patch] of the document found (by its [_id]) with the
    transformed data; nothing is created.  The update throws what the
    write throws.  When the write returns, the line that reports the
    update converts the [_id] of the document found to text: the update
    returns when that conversion returns, and throws what it throws,
    the patch having been sent.  For a product and a collection the
    requests are the lookup and the patch, and nothing else. *)
Theorem update_patches_the_document_found :
  (forall p lang slug_ s existing s1 d,
      find_ (product_id p) DOCUMENT_TYPE_product s = (Normal existing, s1) ->
      truthy existing = true ->
      fst (transformP p lang slug_ s1) = Normal (Some d) ->
      let patch := Some (patch_mutation (get_prop_opt existing "_id") d) in
      requests (snd (updateP p lang slug_ s))
      = (requests s ++ [requestFor_ GET (endpoint_ (product_id p) DOCUMENT_TYPE_product) None;
                        requestFor_ POST mutate_ patch])%list /\
      req_body (requestFor_ POST mutate_ patch)
      = Some (JSON_stringify (patch_mutation (get_prop_opt existing "_id") d)) /\
      fst (updateP p lang slug_ s)
      = match fst (request_ POST mutate_ patch s1) with
        | Normal _ =>
            match ToString (get_prop_opt existing "_id") with
            | Normal _ => Normal tt
            | Abrupt e => Abrupt e
            end
        | Abrupt e => Abrupt e
        end) /\
  (forall c lang slug_ s existing s1 d,
      find_ (collection_id c) DOCUMENT_TYPE_collection s = (Normal existing, s1) ->
      truthy existing = true ->
      fst (transformC c lang slug_ s1) = Normal (Some d) ->
      let patch := Some (patch_mutation (get_prop_opt existing "_id") d) in
      requests (snd (updateC c lang slug_ s))
      = (requests s
           ++ [requestFor_ GET (endpoint_ (collection_id c) DOCUMENT_TYPE_collection) None;
               requestFor_ POST mutate_ patch])%list /\
      req_body (requestFor_ POST mutate_ patch)
      = Some (JSON_stringify (patch_mutation (get_prop_opt existing "_id") d)) /\
      fst (updateC c lang slug_ s)
      = match fst (request_ POST mutate_ patch s1) with
        | Normal _ =>
            match ToString (get_prop_opt existing "_id") with
            | Normal _ => Normal tt
            | Abrupt e => Abrupt e
            end
        | Abrupt e => Abrupt e
        end) /\
  (forall variant lang slug_ cs s existing s1 d s2,
      find_ (variant_id variant) DOCUMENT_TYPE_product_variant s = (Normal existing, s1) ->
      truthy existing = true ->
      transformV variant lang slug_ cs s1 = (Normal (Some d), s2) ->
      let patch := Some (patch_mutation (get_prop_opt existing "_id") d) in
      requests (snd (updateV variant lang slug_ cs s))
      = (requests s2 ++ [requestFor_ POST mutate_ patch])%list /\
      Forall (fun r => req_method r = GET)
             (skipn (List.length (requests s)) (requests s2)) /\
      req_body (requestFor_ POST mutate_ patch)
      = Some (JSON_stringify (patch_mutation (get_prop_opt existing "_id") d)) /\
      fst (updateV variant lang slug_ cs s)
      = match fst (request_ POST mutate_ patch s2) with
        | Normal _ =>
            match ToString (get_prop_opt existing "_id") with
            | Normal _ => Normal tt
            | Abrupt e => Abrupt e
            end
        | Abrupt e => Abrupt e
        end).
Proof.
  split; [|split].
  - intros p lang slug_ s existing s1 d Hf Ht Hd patch.
    assert (Hd' : transformP p lang slug_ s1 = (Normal (Some d), s1)).
    { revert Hd. unfold transformProductData.
      destruct (getTranslationByLanguage _ _); cbn; intros H; inversion H; reflexivity. }
    destruct (patch_path (find_ (product_id p) DOCUMENT_TYPE_product)
                (createP p lang slug_) (transformP p lang slug_)
                s existing s1 d s1 Hf Ht Hd') as [Hr Ho].
    split; [|split; [reflexivity|exact Ho]].
    unfold updateDocumentFromProduct. rewrite Hr.
    pose proof (find_sends (product_id p) DOCUMENT_TYPE_product s) as Hs.
    rewrite Hf in Hs. cbn [snd] in Hs. rewrite Hs, <- app_assoc. reflexivity.
  - intros c lang slug_ s existing s1 d Hf Ht Hd patch.
    assert (Hd' : transformC c lang slug_ s1 = (Normal (Some d), s1)).
    { revert Hd. unfold transformCollectionData.
      destruct (getTranslationByLanguage _ _); cbn; intros H; inversion H; reflexivity. }
    destruct (patch_path (find_ (collection_id c) DOCUMENT_TYPE_collection)
                (createC c lang slug_) (transformC c lang slug_)
                s existing s1 d s1 Hf Ht Hd') as [Hr Ho].
    split; [|split; [reflexivity|exact Ho]].
    unfold updateDocumentFromCollection. rewrite Hr.
    pose proof (find_sends (collection_id c) DOCUMENT_TYPE_collection s) as Hs.
    rewrite Hf in Hs. cbn [snd] in Hs. rewrite Hs, <- app_assoc. reflexivity.
  - intros variant lang slug_ cs s existing s1 d s2 Hf Ht Hd patch.
    destruct (patch_path (find_ (variant_id variant) DOCUMENT_TYPE_product_variant)
                (createV variant lang slug_ cs) (transformV variant lang slug_ cs)
                s existing s1 d s2 Hf Ht Hd) as [Hr Ho].
    split; [exact Hr|]. split; [|split; [reflexivity|exact Ho]].
    pose proof (find_sends (variant_id variant) DOCUMENT_TYPE_product_variant s) as Hs.
    rewrite Hf in Hs. cbn [snd] in Hs.
    destruct (transformV_appends variant lang slug_ cs s1) as (new & Hn & [HG _]).
    rewrite Hd in Hn. cbn [snd] in Hn. rewrite Hn, Hs, <- app_assoc.
    rewrite skipn_app, skipn_all, Nat.sub_diag. cbn [app skipn].
    constructor; [reflexivity|exact HG].
Qed.

(** X7: when the lookup finds a document, a delete sends exactly one
    write after the lookup: a [POST] to the mutate endpoint whose body
    is the [delete] of that document, by its [_id].  The delete returns
    when the write returns and throws what the write throws. *)
Theorem delete_removes_the_document_found :
  (forall p s existing s1,
      find_ (product_id p) DOCUMENT_TYPE_product s = (Normal existing, s1) ->
      truthy existing = true ->
      let del := Some (delete_mutation (get_prop_opt existing "_id")) in
      requests (snd (deleteP p s))
      = (requests s ++ [requestFor_ GET (endpoint_ (product_id p) DOCUMENT_TYPE_product) None;
                        requestFor_ POST mutate_ del])%list /\
      req_body (requestFor_ POST mutate_ del)
      = Some (JSON_stringify (delete_mutation (get_prop_opt existing "_id"))) /\
      fst (deleteP p s)
      = match fst (request_ POST mutate_ del s1) with
        | Normal _ => Normal tt
        | Abrupt e => Abrupt e
        end) /\
  (forall variant s existing s1,
      find_ (variant_id variant) DOCUMENT_TYPE_product_variant s = (Normal existing, s1) ->
      truthy existing = true ->
      let del := Some (delete_mutation (get_prop_opt existing "_id")) in
      requests (snd (deleteV variant s))
      = (requests s
           ++ [requestFor_ GET (endpoint_ (variant_id variant) DOCUMENT_TYPE_product_variant)
                 None;
               requestFor_ POST mutate_ del])%list /\
      req_body (requestFor_ POST mutate_ del)
      = Some (JSON_stringify (delete_mutation (get_prop_opt existing "_id"))) /\
      fst (deleteV variant s)
      = match fst (request_ POST mutate_ del s1) with
        | Normal _ => Normal tt
        | Abrupt e => Abrupt e
        end) /\
  (forall c s existing s1,
      find_ (collection_id c) DOCUMENT_TYPE_collection s = (Normal existing, s1) ->
      truthy existing = true ->
      let del := Some (delete_mutation (get_prop_opt existing "_id")) in
      requests (snd (deleteC c s))
      = (requests s
           ++ [requestFor_ GET (endpoint_ (collection_id c) DOCUMENT_TYPE_collection) None;
               requestFor_ POST mutate_ del])%list /\
      req_body (requestFor_ POST mutate_ del)
      = Some (JSON_stringify (delete_mutation (get_prop_opt existing "_id"))) /\
      fst (deleteC c s)
      = match fst (request_ POST mutate_ del s1) with
        | Normal _ => Normal tt
        | Abrupt e => Abrupt e
        end).
Proof.
  split; [|split].
  - intros p s existing s1 Hf Ht del.
    destruct (delete_path (find_ (product_id p) DOCUMENT_TYPE_product)
                s existing s1 Hf Ht) as [Hr Ho].
    split; [|split; [reflexivity|exact Ho]].
    unfold deleteDocumentFromProduct. rewrite Hr.
    pose proof (find_sends (product_id p) DOCUMENT_TYPE_product s) as Hs.
    rewrite Hf in Hs. cbn [snd] in Hs. rewrite Hs, <- app_assoc. reflexivity.
  - intros variant s existing s1 Hf Ht del.
    destruct (delete_path (find_ (variant_id variant) DOCUMENT_TYPE_product_variant)
                s existing s1 Hf Ht) as [Hr Ho].
    split; [|split; [reflexivity|exact Ho]].
    unfold deleteDocumentFromVariant. rewrite Hr.
    pose proof (find_sends (variant_id variant) DOCUMENT_TYPE_product_variant s) as Hs.
    rewrite Hf in Hs. cbn [snd] in Hs. rewrite Hs, <- app_assoc. reflexivity.
  - intros c s existing s1 Hf Ht del.
    destruct (delete_path (find_ (collection_id c) DOCUMENT_TYPE_collection)
                s existing s1 Hf Ht) as [Hr Ho].
    split; [|split; [reflexivity|exact Ho]].
    unfold deleteDocumentFromCollection. rewrite Hr.
    pose proof (find_sends (collection_id c) DOCUMENT_TYPE_collection s) as Hs.
    rewrite Hf in Hs. cbn [snd] in Hs. rewrite Hs, <- app_assoc. reflexivity.
Qed.

(* ---------- the lookups behind a variant document ---------- *)

Lemma kept_ids_truthy (docs : list Value) :
  Forall (fun i => truthy i = true)
         (map (fun d => get_prop_opt d "_id")
              (filter (fun d => truthy (get_prop_opt d "_id")) docs)).
Proof.
  induction docs as [|d docs IH]; simpl; [constructor|].
  destruct (truthy (get_prop_opt d "_id")) eqn:T; simpl; [constructor|]; assumption.
Qed.

Lemma collectionIds_returns (cs : option (list Collection)) s :
  exists ids s1,
    collectionIds_ cs s = (Normal ids, s1) /\ Forall (fun i => truthy i = true) ids.
Proof.
  unfold getCollectionDocumentIds.
  destruct cs as [[|c rest]|]; try (exists [], s; split; [reflexivity|constructor]).
  cbv zeta. unfold try_catch, bind, ret, lift, throw.
  destruct (request_ GET _ None s) as [[resp|e] s1];
    [|exists [], s1; split; [reflexivity|constructor]].
  destruct (get_prop resp "result") as [res|e];
    [|exists [], s1; split; [reflexivity|constructor]].
  destruct (coalesce res (Arr [])) as [| | | | | |docs|];
    try (exists [], s1; split; [reflexivity|constructor]).
  eexists _, s1. split; [reflexivity|apply kept_ids_truthy].
Qed.

Lemma parent_returns (variant : ProductVariant) s :
  exists ref s1, parent_ variant s = (Normal ref, s1) /\ nullish ref = false \/
                 parent_ variant s = (Normal Null, s1).
Proof.
  unfold findParentProductDocumentId, try_catch, bind, ret, on_world.
  destruct (findOneProduct _ _) as [[[p|]|e] w]; try (exists Null; eexists; right; reflexivity).
  destruct (find_ (product_id p) DOCUMENT_TYPE_product _) as [[doc|e] s1];
    [|exists Null; eexists; right; reflexivity].
  unfold coalesce. destruct (nullish (get_prop_opt doc "_id")) eqn:N.
  - exists Null, s1. right. reflexivity.
  - exists (get_prop_opt doc "_id"), s1. left. split; [reflexivity|exact N].
Qed.

(** X8: the lookup of the documents of a list of collections never
    throws.  Without collections it returns the empty list and sends
    nothing; otherwise it sends exactly one request, a [GET] without
    body, returns the empty list when that request fails, and never
    returns an identifier that is missing, empty or otherwise falsy. *)
Theorem collection_ids_lookup (cs : option (list Collection)) s :
  exists ids,
    fst (collectionIds_ cs s) = Normal ids /\
    Forall (fun i => truthy i = true) ids /\
    match cs with
    | None | Some [] => ids = [] /\ snd (collectionIds_ cs s) = s
    | Some (_ :: _) =>
        exists ep,
          requests (snd (collectionIds_ cs s))
          = (requests s ++ [requestFor_ GET ep None])%list /\
          req_body (requestFor_ GET ep None) = None /\
          (forall e, fst (request_ GET ep None s) = Abrupt e -> ids = [])
    end.
Proof.
  unfold getCollectionDocumentIds.
  destruct cs as [[|c rest]|];
    try (exists []; split; [reflexivity|split; [constructor|split; reflexivity]]).
  cbv zeta.
  match goal with |- context [request_ GET ?ep None] => set (ep0 := ep) end.
  pose proof (request_sends GET ep0 None s) as H.
  unfold try_catch, bind, ret, lift, throw.
  destruct (request_ GET ep0 None s) as [[resp|e] s1] eqn:E; cbn [fst snd] in H.
  - destruct (get_prop resp "result") as [res|e].
    + destruct (coalesce res (Arr [])) as [| | | | | |docs|]; cbn [fst snd];
        try (exists []; split; [reflexivity|]; split; [constructor|];
             exists ep0; split; [exact H|]; split; reflexivity).
      eexists. split; [reflexivity|]. split; [apply kept_ids_truthy|].
      exists ep0. split; [exact H|]. split; [reflexivity|].
      rewrite E. discriminate.
    + cbn [fst snd]. exists []. split; [reflexivity|]. split; [constructor|].
      exists ep0. split; [exact H|]. split; reflexivity.
  - cbn [fst snd]. exists []. split; [reflexivity|]. split; [constructor|].
    exists ep0. split; [exact H|]. split; reflexivity.
Qed.

Lemma collectionReferences_returns (ids references : list Value) :
  collectionReferences ToString ids = Normal references ->
  Forall2 (fun i r => exists text,
               ToString i = Normal text /\
               r = Obj [ ("_key", Str ("collection-" ++ text));
                         ("_type", Str "reference");
                         ("_ref", i) ])
          ids references.
Proof.
  revert references. induction ids as [|i ids IH]; simpl; intros references H.
  - inversion H. constructor.
  - destruct (ToString i) as [text|e] eqn:E; [|discriminate].
    destruct (collectionReferences ToString ids) as [rest|e]; [|discriminate].
    inversion H. constructor; eauto.
Qed.

Lemma collectionReferences_throws (ids : list Value) (e : Thrown) :
  collectionReferences ToString ids = Abrupt e ->
  exists i, In i ids /\ ToString i = Abrupt e.
Proof.
  induction ids as [|i ids IH]; simpl; intros H; [discriminate|].
  destruct (ToString i) as [text|e'] eqn:E.
  - destruct (collectionReferences ToString ids) as [rest|e'']; [discriminate|].
    inversion H; subst. destruct IH as (j & Hj & Tj); eauto.
  - inversion H; subst. eauto.
Qed.

Lemma lookups_return (variant : ProductVariant) (cs : option (list Collection)) s :
  exists parentId ids s',
    promiseAll2 World parentLookupFirst (parent_ variant) (collectionIds_ cs) s
    = (Normal (parentId, ids), s') /\
    (parentId = Null \/ nullish parentId = false) /\
    Forall (fun i => truthy i = true) ids.
Proof.
  unfold promiseAll2. destruct (parentLookupFirst (world s)).
  - destruct (parent_returns variant s) as (ref & s1 & [[Hp Hn]|Hp]); rewrite Hp;
      destruct (collectionIds_returns cs s1) as (ids & s2 & Hc & Hids); rewrite Hc;
      eexists _, ids, s2; (split; [reflexivity|]); auto.
  - destruct (collectionIds_returns cs s) as (ids & s1 & Hc & Hids); rewrite Hc.
    destruct (parent_returns variant s1) as (ref & s2 & [[Hp Hn]|Hp]); rewrite Hp;
      eexists _, ids, s2; (split; [reflexivity|]); auto.
Qed.

(** X9: without a translation in the default language the variant
    transform returns [null] and leaves the state as it is.  With one,
    the two lookups are started together and neither throws, whatever
    the database and the remote store do and in whichever order they
    run: they send at most two reads, the parent identifier is [null]
    or not nullish, and every collection identifier is truthy.  The
    document is then built with the slug that was given; the reference
    to the parent product is left out or points at a truthy identifier.
    Each collection reference carries the key "collection-<id>", for
    which the identifier is converted to text: the transform returns
    the document when every conversion returns, and throws the error of
    a conversion that throws, the lookups having been made. *)
Theorem variant_transform_outcome
    (variant : ProductVariant) (lang : LanguageCode) (slug_ : string)
    (cs : option (list Collection)) s :
  (getTranslationByLanguage (variant_translations variant) lang = None ->
   transformV variant lang slug_ cs s = (Normal None, s)) /\
  (forall t,
      getTranslationByLanguage (variant_translations variant) lang = Some t ->
      exists parentId parentRef ids s',
        promiseAll2 World parentLookupFirst (parent_ variant) (collectionIds_ cs) s
        = (Normal (parentId, ids), s') /\
        transformV variant lang slug_ cs s
        = (match collectionReferences ToString ids with
           | Normal references =>
               Normal (Some (Obj [ ("_type", Str DOCUMENT_TYPE_product_variant);
                                   ("vendureId", Number_ StringToNumber (variant_id variant));
                                   ("title", Str (name t));
                                   ("slug", Obj [ ("current", Str slug_) ]);
                                   ("vendureProduct", parentRef);
                                   ("vendureCollections", Arr references) ]))
           | Abrupt e => Abrupt e
           end, s') /\
        (parentId = Null \/ nullish parentId = false) /\
        (parentRef = Undefined /\ truthy parentId = false \/
         parentRef = Obj [ ("_type", Str "reference"); ("_ref", parentId) ] /\
         truthy parentId = true) /\
        Forall (fun i => truthy i = true) ids /\
        match collectionReferences ToString ids with
        | Normal references =>
            Forall2 (fun i r => exists text,
                         ToString i = Normal text /\
                         r = Obj [ ("_key", Str ("collection-" ++ text));
                                   ("_type", Str "reference");
                                   ("_ref", i) ])
                    ids references
        | Abrupt e => exists i, In i ids /\ ToString i = Abrupt e
        end /\
        exists reads,
          requests s' = (requests s ++ reads)%list /\ readsAtMost 2 reads).
Proof.
  split.
  - intros H. unfold transformVariantData. rewrite H. reflexivity.
  - intros t H.
    destruct (transformV_appends variant lang slug_ cs s) as (reads & Hreads & Hshape).
    destruct (lookups_return variant cs s) as (parentId & ids & s' & Hl & Hp & Hids).
    revert Hreads. unfold transformVariantData. rewrite H. unfold bind, ret, lift.
    rewrite Hl. cbv beta iota zeta. cbn [fst snd].
    exists parentId,
           (if truthy parentId
            then Obj [ ("_type", Str "reference"); ("_ref", parentId) ] else Undefined),
           ids, s'.
    split; [reflexivity|]. split.
    { destruct (collectionReferences ToString ids); reflexivity. }
    split; [exact Hp|]. split; [destruct (truthy parentId); auto|].
    split; [exact Hids|]. split.
    + destruct (collectionReferences ToString ids) as [references|e] eqn:E.
      * now apply collectionReferences_returns.
      * now apply collectionReferences_throws.
    + exists reads. split; [|exact Hshape].
      destruct (collectionReferences ToString ids); exact Hreads.
Qed.

End PublisherRequests.

(* ================================================================== *)
(** * The requests of a sweep *)
(* ================================================================== *)

Section SweepRequests.

Variable World : Type.
Variable T : Type.
Variable id : T -> EntityId.
Variable entityType_ : EntityKind.
Variable findEntities : World -> Completion (list T) * World.
Variable syncMethod : SyncJobData -> M (State World) SyncResponse.
Variable clock : World -> string.

Local Abbreviation stepJob_ := (stepJob World T id entityType_ syncMethod clock).
Local Abbreviation wave_ := (wave World T id entityType_ syncMethod clock).
Local Abbreviation sweepLoop_ := (sweepLoop World T id entityType_ syncMethod clock).
Local Abbreviation sweep_ :=
  (syncAllEntitiesToCmsGeneric World T id entityType_ findEntities syncMethod clock).

Implicit Types (job : Job T) (r : Run World T).

Lemma readsThenWrite_size (k : nat) (new : list HttpRequest) :
  readsThenWrite k new ->
  List.length new <= k + 1 /\ List.length (filter is_mutating new) <= 1.
Proof.
  intros (reads & writes & -> & [HG HL] & _ & HW). rewrite filter_app, !length_app.
  assert (E : filter is_mutating reads = []).
  { clear HL. induction HG as [|x l Hx _ IH]; [reflexivity|].
    simpl. unfold is_mutating at 1. now rewrite Hx. }
  rewrite E. simpl.
  pose proof (filter_length_le is_mutating writes). lia.
Qed.

Lemma stepJob_budget_requests (k : nat) (before : list HttpRequest) r job :
  (forall data, appends (readsThenWrite k) (syncMethod data)) ->
  withinBudget k before r -> withinBudget k before (stepJob_ r job).
Proof.
  intros Hsync (new & Hn & Hlen & Hmut). unfold stepJob, runJob.
  match goal with |- context [syncMethod ?d ?s] =>
    destruct (Hsync d s) as (more & Hmore & Hshape); destruct (syncMethod d s) as [[resp|e] s1]
  end; cbn [snd] in Hmore;
    (exists (new ++ more)%list; cbn [io calls];
     apply readsThenWrite_size in Hshape; destruct Hshape as [H1 H2];
     rewrite Hmore, Hn, filter_app, !length_app, <- app_assoc; simpl;
     split; [reflexivity|split; nia]).
Qed.

Lemma steps_budget_requests (k : nat) (before : list HttpRequest) (batch : list (Job T)) :
  (forall data, appends (readsThenWrite k) (syncMethod data)) ->
  forall r, withinBudget k before r -> withinBudget k before (fold_left stepJob_ batch r).
Proof.
  intros Hsync. induction batch as [|job rest IH]; intros r H; simpl; [exact H|].
  apply IH. now apply stepJob_budget_requests.
Qed.

Lemma wave_budget_requests (k : nat) (before : list HttpRequest) r :
  (forall data, appends (readsThenWrite k) (syncMethod data)) ->
  withinBudget k before r -> withinBudget k before (wave_ r).
Proof.
  intros Hsync H. rewrite (wave_as_steps World T id entityType_ syncMethod clock r).
  apply steps_budget_requests; [exact Hsync|]. exact H.
Qed.

(** The sweep sends nothing itself: whatever is sent during a sweep is
    sent by the calls of the sync method. *)
Lemma sweep_requests (k : nat) (entities : list T) (s : State World) (fuel : nat) :
  (forall data, appends (readsThenWrite k) (syncMethod data)) ->
  5 * List.length entities <= fuel ->
  exists r,
    sweepLoop_ fuel entities s = Some r /\ withinBudget k (requests s) r.
Proof.
  intros Hsync Hfuel.
  destruct (sweepLoop_result World T id entityType_ syncMethod clock entities s fuel Hfuel)
    as (r & Hr & _).
  exists r. split; [exact Hr|].
  apply (whileQueue_invariant World T id entityType_ syncMethod clock
           (withinBudget k (requests s))
           (fun r0 _ H => wave_budget_requests k (requests s) r0 Hsync H)
           fuel _ r Hr).
  exists []. cbn [startRun io calls]. rewrite app_nil_r. simpl. repeat split; lia.
Qed.

(** With a sync method that never throws, every call takes one job off
    the queue for good. *)
Lemma quiet_calls (entities : list T) (s : State World) (fuel : nat) r :
  (forall data s0, exists resp s1, syncMethod data s0 = (Normal resp, s1)) ->
  sweepLoop_ fuel entities s = Some r ->
  List.length (calls r) = List.length entities.
Proof.
  intros Hquiet Hr.
  destruct (whileQueue_invariant World T id entityType_ syncMethod clock
              (fun r0 => List.length (calls r0) + List.length (queue (locals r0))
                         = List.length entities)) with (fuel := fuel)
              (r := startRun World T entities s) (r' := r) as [H Hq].
  - intros r0 _ H.
    rewrite (wave_as_steps World T id entityType_ syncMethod clock r0).
    set (r1 := mkRun World T _ (io r0) (calls r0)).
    assert (G : forall batch r2,
               List.length (calls (fold_left stepJob_ batch r2))
               = List.length (calls r2) + List.length batch /\
               queue (locals (fold_left stepJob_ batch r2)) = queue (locals r2)).
    { induction batch as [|job rest IH]; intros r2; simpl; [split; [lia|reflexivity]|].
      destruct (IH (stepJob_ r2 job)) as [-> ->]. unfold stepJob, runJob.
      match goal with |- context [syncMethod ?d ?s0] =>
        destruct (Hquiet d s0) as (resp & s1 & ->) end.
      cbn [calls locals queue settle settled_success]. rewrite length_app. simpl.
      split; [lia|reflexivity]. }
    destruct (G (firstn BATCH (queue (locals r0))) r1) as [-> ->].
    unfold r1. cbn [calls locals queue].
    pose proof (f_equal (@List.length _) (firstn_skipn BATCH (queue (locals r0)))) as L.
    rewrite length_app in L. lia.
  - exact Hr.
  - cbn [startRun calls locals queue]. rewrite length_map. reflexivity.
  - rewrite Hq in H. simpl in H. lia.
Qed.

(** The generic sweep returns a summary whenever the load, if it
    answers, answers with a list the loop can work off. *)
Lemma generic_sweep_returns (fuel : nat) (s : State World) :
  (forall entities w, findEntities (world s) = (Normal entities, w) ->
                      5 * List.length entities <= fuel) ->
  exists summary s', sweep_ fuel s = Some (Normal summary, s').
Proof.
  intros Hfuel. unfold syncAllEntitiesToCmsGeneric, on_world.
  destruct (findEntities (world s)) as [[entities|e] w1] eqn:E; [|eauto].
  destruct (List.length entities =? 0)%nat; [eauto|].
  destruct (sweepLoop_result World T id entityType_ syncMethod clock entities
              (mkState w1 (requests s)) fuel (Hfuel entities w1 eq_refl)) as (r & Hr & _).
  rewrite Hr. eauto.
Qed.

(** A sweep with a sync method that never throws and sends, per call,
    at most [k] reads and one write. *)
Lemma quiet_sweep_within_budget (k : nat) (fuel : nat) (s : State World)
    (entities : list T) (w1 : World) :
  (forall data s0, exists resp s1, syncMethod data s0 = (Normal resp, s1)) ->
  (forall data, appends (readsThenWrite k) (syncMethod data)) ->
  findEntities (world s) = (Normal entities, w1) ->
  5 * List.length entities <= fuel ->
  exists s' new,
    sweep_ fuel s
    = Some (Normal (mkSummary true (List.length entities) (List.length entities) 0 []),
            s') /\
    requests s' = (requests s ++ new)%list /\
    List.length new <= (k + 1) * List.length entities /\
    List.length (filter is_mutating new) <= List.length entities.
Proof.
  intros Hquiet Hsync Hfind Hfuel.
  unfold syncAllEntitiesToCmsGeneric, on_world. rewrite Hfind.
  destruct (List.length entities =? 0)%nat eqn:E.
  - apply Nat.eqb_eq in E. rewrite E. exists (mkState w1 (requests s)), [].
    cbn [requests]. rewrite app_nil_r. simpl. repeat split; lia.
  - destruct (quiet_sweep World T id entityType_ syncMethod clock entities
                (mkState w1 (requests s)) fuel Hquiet Hfuel) as (r & Hr & Hsum).
    destruct (sweep_requests k entities (mkState w1 (requests s)) fuel Hsync Hfuel)
      as (r' & Hr' & new & Hnew & Hlen & Hmut).
    rewrite Hr in Hr'. inversion Hr'. subst r'. clear Hr'.
    rewrite (quiet_calls entities _ fuel r Hquiet Hr) in Hlen, Hmut.
    rewrite Hr, Hsum. exists (io r), new. cbn [requests] in Hnew. auto.
Qed.

End SweepRequests.

(* ================================================================== *)
(** * The orchestrator: what its operations send and report *)
(* ================================================================== *)

Section ServiceProofs.

Variable World : Type.
Variable fetch : HttpRequest -> World -> Completion HttpResponse * World.
Variable enforceRateLimit : World -> World.
Variable encodeURIComponent : string -> string.
Variable JSON_stringify : Value -> string.
Variable StringToNumber : string -> Value.
Variable ToString : Value -> Completion string.
Variable validateTranslations : list Translation -> LanguageCode -> Completion unit.
Variable options : PluginInitOptions.
Variable RequestContext : Type.
Variable findOneProduct : EntityId -> World -> Completion (option Product) * World.
Variable parentLookupFirst : World -> bool.
Variable findOneVariant : EntityId -> World -> Completion (option ProductVariant) * World.
Variable findOneCollection : EntityId -> World -> Completion (option Collection) * World.
Variable findProducts : World -> Completion (list Product) * World.
Variable findVariants : World -> Completion (list ProductVariant) * World.
Variable findCollections : World -> Completion (list Collection) * World.
Variable getDefaultChannel : World -> Completion Channel * World.
Variable createRequestContext :
  LanguageCode -> Channel -> World -> Completion RequestContext * World.
Variable collectionService_findAll :
  RequestContext -> World -> Completion (list Collection) * World.
Variable getCollectionProductVariantIds :
  Collection -> RequestContext -> World -> Completion (list EntityId) * World.
Variable clock : World -> string.
Variable findCollectionById : EntityId -> World -> Completion (option Collection) * World.
Variable findVariantsIn :
  list EntityId -> World -> Completion (list ProductVariant) * World.

Local Abbreviation productToCms :=
  (syncProductToCms World fetch enforceRateLimit encodeURIComponent JSON_stringify
     StringToNumber ToString validateTranslations options findOneProduct getDefaultChannel clock).
Local Abbreviation variantToCms :=
  (syncVariantToCms World fetch enforceRateLimit encodeURIComponent JSON_stringify
     StringToNumber ToString validateTranslations options RequestContext
     findOneProduct parentLookupFirst findOneVariant getDefaultChannel createRequestContext
     collectionService_findAll getCollectionProductVariantIds clock).
Local Abbreviation collectionToCms :=
  (syncCollectionToCms World fetch enforceRateLimit encodeURIComponent JSON_stringify
     StringToNumber ToString validateTranslations options RequestContext
     findOneCollection getDefaultChannel createRequestContext clock).
Local Abbreviation allProducts :=
  (syncAllProductsToCms World fetch enforceRateLimit encodeURIComponent JSON_stringify
     StringToNumber ToString validateTranslations options findOneProduct findProducts
     getDefaultChannel clock).
Local Abbreviation allVariants :=
  (syncAllProductVariantsToCms World fetch enforceRateLimit encodeURIComponent
     JSON_stringify StringToNumber ToString validateTranslations options
     RequestContext findOneProduct parentLookupFirst findOneVariant findVariants getDefaultChannel
     createRequestContext collectionService_findAll getCollectionProductVariantIds clock).
Local Abbreviation allCollections :=
  (syncAllCollectionsToCms World fetch enforceRateLimit encodeURIComponent JSON_stringify
     StringToNumber ToString validateTranslations options RequestContext findOneCollection
     findCollections getDefaultChannel createRequestContext clock).
Local Abbreviation collectionsFor :=
  (findCollectionsForVariant World RequestContext collectionService_findAll
     getCollectionProductVariantIds).
Local Abbreviation containing :=
  (collectionsContaining World RequestContext getCollectionProductVariantIds).
Local Abbreviation variantsFor :=
  (findVariantsForCollection World RequestContext getCollectionProductVariantIds
     findCollectionById findVariantsIn).
Local Abbreviation quiet := (fun new : list HttpRequest => new = []).

Implicit Types (s : State World) (jobData data : SyncJobData).

(* ---------- the relation helpers ---------- *)

Lemma quiet_requests {A : Type} (m : M (State World) A) s :
  appends quiet m -> requests (snd (m s)) = requests s.
Proof. intros H. destruct (H s) as (new & E & ->). now rewrite app_nil_r in E. Qed.

Lemma containing_quiet (ctx : RequestContext) (variantId : EntityId)
    (items : list Collection) :
  forall result, appends quiet (containing ctx variantId items result).
Proof.
  induction items as [|c rest IH]; intros result; simpl; [apply appends_ret|].
  apply bind_quiet; [apply appends_on_world|]. intros variantIds.
  destruct (existsb _ variantIds); apply IH.
Qed.

Lemma collectionsFor_quiet (ctx : RequestContext) (variantId : EntityId) :
  appends quiet (collectionsFor ctx variantId).
Proof.
  unfold findCollectionsForVariant.
  apply try_quiet; [|intros; apply appends_ret].
  apply bind_quiet; [apply appends_on_world|]. intros items. apply containing_quiet.
Qed.

(** When every membership lookup answers, the loop is a filter. *)
Lemma containing_filter (ctx : RequestContext) (variantId : EntityId)
    (members : Collection -> list EntityId) :
  (forall c w, exists w', getCollectionProductVariantIds c ctx w = (Normal (members c), w')) ->
  forall items result s,
  exists s',
    containing ctx variantId items result s
    = (Normal (result
                 ++ filter (fun c =>
                              existsb (fun i => String.eqb (id_to_string i)
                                                           (id_to_string variantId))
                                      (members c))
                           items)%list,
       s').
Proof.
  intros Hm. induction items as [|c rest IH]; intros result s; simpl.
  - exists s. now rewrite app_nil_r.
  - unfold bind, on_world. destruct (Hm c (world s)) as (w' & ->).
    destruct (existsb _ (members c)).
    + destruct (IH (result ++ [c])%list (mkState w' (requests s))) as (s' & ->).
      exists s'. now rewrite <- app_assoc.
    + apply IH.
Qed.

(** X10: the search for the collections of a variant never throws and
    sends nothing to the remote store.  When the list of collections
    cannot be loaded, or one membership lookup fails, the result is the
    empty list, whatever had been found before; when every lookup
    answers, the result is the collections, in the order loaded, one of
    whose variant identifiers has the same text as the identifier
    asked for. *)
Theorem collections_for_variant (ctx : RequestContext) (variantId : EntityId) s :
  exists found,
    fst (collectionsFor ctx variantId s) = Normal found /\
    requests (snd (collectionsFor ctx variantId s)) = requests s /\
    (forall e w, collectionService_findAll ctx (world s) = (Abrupt e, w) -> found = []) /\
    (forall items w,
        collectionService_findAll ctx (world s) = (Normal items, w) ->
        (forall e,
            fst (containing ctx variantId items [] (mkState w (requests s))) = Abrupt e ->
            found = []) /\
        (forall members,
            (forall c w0, exists w1,
                  getCollectionProductVariantIds c ctx w0 = (Normal (members c), w1)) ->
            found = filter (fun c =>
                              existsb (fun i => String.eqb (id_to_string i)
                                                           (id_to_string variantId))
                                      (members c))
                           items)).
Proof.
  pose proof (quiet_requests _ s (collectionsFor_quiet ctx variantId)) as Hq.
  revert Hq. unfold findCollectionsForVariant, try_catch, bind, ret, on_world.
  destruct (collectionService_findAll ctx (world s)) as [[items|e] w].
  - destruct (containing ctx variantId items [] (mkState w (requests s)))
      as [[found|e] s1] eqn:E; cbn [fst snd]; intros Hq.
    + exists found. split; [reflexivity|]. split; [exact Hq|]. split; [discriminate|].
      intros items' w' H. inversion H. subst items' w'. rewrite E. cbn [fst].
      split; [discriminate|]. intros members Hm.
      destruct (containing_filter ctx variantId members Hm items []
                  (mkState w (requests s))) as (s' & E').
      rewrite E in E'. inversion E'. reflexivity.
    + exists []. split; [reflexivity|]. split; [exact Hq|]. split; [reflexivity|].
      intros items' w' H. inversion H. subst items' w'. split; [reflexivity|].
      intros members Hm.
      destruct (containing_filter ctx variantId members Hm items []
                  (mkState w (requests s))) as (s' & E').
      rewrite E in E'. discriminate.
  - cbn [fst snd]. intros Hq. exists []. split; [reflexivity|]. split; [exact Hq|].
    split; [reflexivity|]. intros items w' H. discriminate.
Qed.

(** X11: the search for the variants of a collection never throws and
    sends nothing to the remote store.  It returns the empty list when
    the collection does not exist and when the collection has no
    variant identifiers, without querying the variants; otherwise it
    returns what the one query for these identifiers returns, and the
    empty list when that query fails. *)
Theorem variants_for_collection (ctx : RequestContext) (collectionId : EntityId) s :
  exists found,
    fst (variantsFor ctx collectionId s) = Normal found /\
    requests (snd (variantsFor ctx collectionId s)) = requests s /\
    (forall e w, findCollectionById collectionId (world s) = (Abrupt e, w) -> found = []) /\
    (forall w,
        findCollectionById collectionId (world s) = (Normal None, w) ->
        variantsFor ctx collectionId s = (Normal [], mkState w (requests s))) /\
    (forall c w,
        findCollectionById collectionId (world s) = (Normal (Some c), w) ->
        (forall e w', getCollectionProductVariantIds c ctx w = (Abrupt e, w') ->
                      found = []) /\
        (forall w', getCollectionProductVariantIds c ctx w = (Normal [], w') ->
                    variantsFor ctx collectionId s
                    = (Normal [], mkState w' (requests s))) /\
        (forall ids w',
            getCollectionProductVariantIds c ctx w = (Normal ids, w') -> ids <> [] ->
            variantsFor ctx collectionId s
            = (match fst (findVariantsIn ids w') with
               | Normal variants => Normal variants
               | Abrupt _ => Normal []
               end,
               mkState (snd (findVariantsIn ids w')) (requests s)))).
Proof.
  unfold findVariantsForCollection, try_catch, bind, ret, on_world.
  destruct (findCollectionById collectionId (world s)) as [[[c|]|e] w]; cbn [world requests].
  - destruct (getCollectionProductVariantIds c ctx w) as [[[|i ids]|e] w'] eqn:E;
      cbn [world requests].
    + exists []. split; [reflexivity|]. split; [reflexivity|]. split; [reflexivity|].
      split; [discriminate|]. intros c0 w0 H. inversion H. subst c0 w0. rewrite E.
      split; [reflexivity|]. split.
      * intros w0 H0. inversion H0. reflexivity.
      * intros ids w0 H0 Hne. inversion H0. subst. congruence.
    + destruct (findVariantsIn (i :: ids) w') as [[variants|e] w''] eqn:F; cbn [fst snd].
      * exists variants. split; [reflexivity|]. split; [reflexivity|].
        split; [discriminate|]. split; [discriminate|].
        intros c0 w0 H. inversion H. subst c0 w0. rewrite E.
        split; [discriminate|]. split; [discriminate|].
        intros ids0 w0 H0 _. inversion H0. subst ids0 w0. rewrite F. reflexivity.
      * exists []. split; [reflexivity|]. split; [reflexivity|].
        split; [reflexivity|]. split; [discriminate|].
        intros c0 w0 H. inversion H. subst c0 w0. rewrite E.
        split; [reflexivity|]. split; [discriminate|].
        intros ids0 w0 H0 _. inversion H0. subst ids0 w0. rewrite F. reflexivity.
    + exists []. split; [reflexivity|]. split; [reflexivity|]. split; [reflexivity|].
      split; [discriminate|]. intros c0 w0 H. inversion H. subst c0 w0. rewrite E.
      split; [reflexivity|]. split; discriminate.
  - exists []. split; [reflexivity|]. split; [reflexivity|]. split; [reflexivity|].
    split; [intros w0 H; inversion H; reflexivity|]. discriminate.
  - exists []. split; [reflexivity|]. split; [reflexivity|]. split; [reflexivity|].
    split; discriminate.
Qed.

(* ---------- what a single-entity sync sends ---------- *)

Lemma now_quiet : appends quiet (now World clock).
Proof. intros s. exists []. cbn. now rewrite app_nil_r. Qed.

Lemma language_quiet : appends quiet (getDefaultLanguageCode World getDefaultChannel).
Proof.
  unfold getDefaultLanguageCode.
  apply bind_quiet; [apply appends_on_world|intros; apply appends_ret].
Qed.

Lemma productToCms_appends data : appends (readsThenWrite 1) (productToCms data).
Proof.
  unfold syncProductToCms. apply try_quiet; [|intros; apply appends_ret].
  unfold syncProductToCms_body. cbv beta zeta.
  apply (reads_then_write_bind World 0 1); [apply quiet_reads, appends_on_world|].
  intros [p|]; [|apply quiet_writes, appends_throw].
  apply (reads_then_write_bind World 0 1); [apply quiet_reads, language_quiet|].
  intros lang.
  apply bind_quiet; [apply syncP_appends|]. intros _.
  apply bind_quiet; [apply now_quiet|intros; apply appends_ret].
Qed.

Lemma variantToCms_appends data : appends (readsThenWrite 3) (variantToCms data).
Proof.
  unfold syncVariantToCms. apply try_quiet; [|intros; apply appends_ret].
  unfold syncVariantToCms_body. cbv beta zeta.
  apply (reads_then_write_bind World 0 3); [apply quiet_reads, language_quiet|].
  intros lang.
  apply (reads_then_write_bind World 0 3); [apply quiet_reads, appends_on_world|].
  intros channel.
  apply (reads_then_write_bind World 0 3); [apply quiet_reads, appends_on_world|].
  intros ctx.
  apply (reads_then_write_bind World 0 3); [apply quiet_reads, appends_on_world|].
  intros [variant|]; [|apply quiet_writes, appends_throw].
  apply (reads_then_write_bind World 0 3); [apply quiet_reads, collectionsFor_quiet|].
  intros collections.
  apply bind_quiet; [apply syncV_appends|]. intros _.
  apply bind_quiet; [apply now_quiet|intros; apply appends_ret].
Qed.

Lemma collectionToCms_appends data : appends (readsThenWrite 1) (collectionToCms data).
Proof.
  unfold syncCollectionToCms. apply try_quiet; [|intros; apply appends_ret].
  unfold syncCollectionToCms_body. cbv beta zeta.
  apply (reads_then_write_bind World 0 1); [apply quiet_reads, language_quiet|].
  intros lang.
  apply (reads_then_write_bind World 0 1); [apply quiet_reads, appends_on_world|].
  intros channel.
  apply (reads_then_write_bind World 0 1); [apply quiet_reads, appends_on_world|].
  intros ctx.
  apply (reads_then_write_bind World 0 1); [apply quiet_reads, appends_on_world|].
  intros [collection|]; [|apply quiet_writes, appends_throw].
  apply bind_quiet; [apply syncC_appends|]. intros _.
  apply bind_quiet; [apply now_quiet|intros; apply appends_ret].
Qed.

Lemma caught_returns {A : Type} (body : M (State World) A) (handler : Thrown -> A) s :
  exists a s1, try_catch body (fun e => ret (handler e)) s = (Normal a, s1).
Proof. unfold try_catch, ret. destruct (body s) as [[a|e] s1]; eauto. Qed.

Lemma productToCms_returns data s :
  exists resp s1, productToCms data s = (Normal resp, s1).
Proof. unfold syncProductToCms. apply caught_returns. Qed.

Lemma variantToCms_returns data s :
  exists resp s1, variantToCms data s = (Normal resp, s1).
Proof. unfold syncVariantToCms. apply caught_returns. Qed.

Lemma collectionToCms_returns data s :
  exists resp s1, collectionToCms data s = (Normal resp, s1).
Proof. unfold syncCollectionToCms. apply caught_returns. Qed.

(** X12: whenever its load succeeds, each bulk entry point of the
    service returns [success: true] with every entity counted as
    synced and no error entry, whatever the single syncs report, since
    these never throw; and the whole sweep sends at most two requests
    per product or collection and at most four per variant, at most one
    of them a write. *)
Theorem service_sweeps_succeed_within_budget (fuel : nat) s :
  (forall products w1,
      findProducts (world s) = (Normal products, w1) ->
      5 * List.length products <= fuel ->
      exists s' new,
        allProducts fuel s
        = Some (Normal (mkSummary true (List.length products) (List.length products) 0 []),
                s') /\
        requests s' = (requests s ++ new)%list /\
        List.length new <= 2 * List.length products /\
        List.length (filter is_mutating new) <= List.length products) /\
  (forall variants w1,
      findVariants (world s) = (Normal variants, w1) ->
      5 * List.length variants <= fuel ->
      exists s' new,
        allVariants fuel s
        = Some (Normal (mkSummary true (List.length variants) (List.length variants) 0 []),
                s') /\
        requests s' = (requests s ++ new)%list /\
        List.length new <= 4 * List.length variants /\
        List.length (filter is_mutating new) <= List.length variants) /\
  (forall collections w1,
      findCollections (world s) = (Normal collections, w1) ->
      5 * List.length collections <= fuel ->
      exists s' new,
        allCollections fuel s
        = Some (Normal (mkSummary true (List.length collections)
                          (List.length collections) 0 []),
                s') /\
        requests s' = (requests s ++ new)%list /\
        List.length new <= 2 * List.length collections /\
        List.length (filter is_mutating new) <= List.length collections).
Proof.
  split; [|split].
  - intros products w1 Hfind Hfuel. unfold syncAllProductsToCms.
    apply (quiet_sweep_within_budget World Product product_id KProduct findProducts
             productToCms clock 1 fuel s products w1
             productToCms_returns productToCms_appends Hfind Hfuel).
  - intros variants w1 Hfind Hfuel. unfold syncAllProductVariantsToCms.
    apply (quiet_sweep_within_budget World ProductVariant variant_id KProductVariant
             findVariants variantToCms clock 3 fuel s variants w1
             variantToCms_returns variantToCms_appends Hfind Hfuel).
  - intros collections w1 Hfind Hfuel. unfold syncAllCollectionsToCms.
    apply (quiet_sweep_within_budget World Collection collection_id KCollection
             findCollections collectionToCms clock 1 fuel s collections w1
             collectionToCms_returns collectionToCms_appends Hfind Hfuel).
Qed.


(** X14: an entity that is not in the database is reported, not thrown:
    the sync returns [success: false] with the message
    "<Kind> sync failed: <Kind> <id> not found" and sends nothing to the
    remote store.  For a variant the message says "Variant". *)
Theorem missing_entity_is_reported jobData s :
  (forall w,
      findOneProduct (entityId jobData) (world s) = (Normal None, w) ->
      productToCms jobData s
      = (Normal (mkSyncResponse false
                   ("Product sync failed: Product " ++ id_to_string (entityId jobData)
                      ++ " not found") None),
         mkState w (requests s))) /\
  (forall c1 w1 c2 w2 ctx w3 w4,
      getDefaultChannel (world s) = (Normal c1, w1) ->
      getDefaultChannel w1 = (Normal c2, w2) ->
      createRequestContext (defaultLanguageCode c1) c2 w2 = (Normal ctx, w3) ->
      (findOneVariant (entityId jobData) w3 = (Normal None, w4) ->
       variantToCms jobData s
       = (Normal (mkSyncResponse false
                    ("Variant sync failed: Variant " ++ id_to_string (entityId jobData)
                       ++ " not found") None),
          mkState w4 (requests s))) /\
      (findOneCollection (entityId jobData) w3 = (Normal None, w4) ->
       collectionToCms jobData s
       = (Normal (mkSyncResponse false
                    ("Collection sync failed: Collection "
                       ++ id_to_string (entityId jobData) ++ " not found") None),
          mkState w4 (requests s)))).
Proof.
  split.
  - intros w H. unfold syncProductToCms, syncProductToCms_body. cbv beta zeta.
    unfold try_catch, bind, on_world, throw, ret. rewrite H. reflexivity.
  - intros c1 w1 c2 w2 ctx w3 w4 H1 H2 H3. split; intros H4.
    + unfold syncVariantToCms, syncVariantToCms_body, getDefaultLanguageCode.
      cbv beta zeta. unfold try_catch, bind, on_world, throw, ret.
      rewrite H1. cbn [world requests]. rewrite H2. cbn [world requests].
      rewrite H3. cbn [world requests]. rewrite H4. reflexivity.
    + unfold syncCollectionToCms, syncCollectionToCms_body, getDefaultLanguageCode.
      cbv beta zeta. unfold try_catch, bind, on_world, throw, ret.
      rewrite H1. cbn [world requests]. rewrite H2. cbn [world requests].
      rewrite H3. cbn [world requests]. rewrite H4. reflexivity.
Qed.

(** X15: the translations are validated before anything is sent: when
    the validation throws for an entity that was found, the sync
    returns [success: false] with the message of the validation error
    after the prefix "<Kind> sync failed: ", and the history of requests
    is as it was. *)
Theorem failed_validation_is_reported_unsent jobData s (e : Thrown) :
  (forall p w c w',
      findOneProduct (entityId jobData) (world s) = (Normal (Some p), w) ->
      getDefaultChannel w = (Normal c, w') ->
      validateTranslations (product_translations p) (defaultLanguageCode c) = Abrupt e ->
      productToCms jobData s
      = (Normal (mkSyncResponse false ("Product sync failed: " ++ error_message e) None),
         mkState w' (requests s))) /\
  (forall c1 w1 c2 w2 ctx w3,
      getDefaultChannel (world s) = (Normal c1, w1) ->
      getDefaultChannel w1 = (Normal c2, w2) ->
      createRequestContext (defaultLanguageCode c1) c2 w2 = (Normal ctx, w3) ->
      (forall variant w4,
          findOneVariant (entityId jobData) w3 = (Normal (Some variant), w4) ->
          validateTranslations (variant_translations variant) (defaultLanguageCode c1)
          = Abrupt e ->
          exists s',
            variantToCms jobData s
            = (Normal (mkSyncResponse false
                         ("Variant sync failed: " ++ error_message e) None),
               s') /\
            requests s' = requests s) /\
      (forall collection w4,
          findOneCollection (entityId jobData) w3 = (Normal (Some collection), w4) ->
          validateTranslations (collection_translations collection)
                               (defaultLanguageCode c1)
          = Abrupt e ->
          collectionToCms jobData s
          = (Normal (mkSyncResponse false
                       ("Collection sync failed: " ++ error_message e) None),
             mkState w4 (requests s)))).
Proof.
  split.
  - intros p w c w' H1 H2 H3.
    unfold syncProductToCms, syncProductToCms_body, getDefaultLanguageCode, syncProduct.
    cbv beta zeta. unfold try_catch, bind, on_world, throw, ret, lift.
    rewrite H1. cbn [world requests]. rewrite H2. cbn [defaultLanguageCode].
    rewrite H3. reflexivity.
  - intros c1 w1 c2 w2 ctx w3 H1 H2 H3. split.
    + intros variant w4 H4 H5.
      destruct (caught_returns
                  (collections <- on_world (collectionService_findAll ctx) ;;
                   containing ctx (variant_id variant) collections [])%async
                  (fun _ => []) (mkState w4 (requests s))) as (cols & s5 & Hc).
      pose proof (quiet_requests _ (mkState w4 (requests s))
                    (collectionsFor_quiet ctx (variant_id variant))) as Hq.
      unfold findCollectionsForVariant in Hq. rewrite Hc in Hq. cbn [snd requests] in Hq.
      exists s5. split; [|exact Hq].
      unfold syncVariantToCms, syncVariantToCms_body, getDefaultLanguageCode,
        syncProductVariant, findCollectionsForVariant.
      cbv beta zeta. unfold bind at 1 2 3 4 5 6. unfold try_catch at 1. unfold on_world at 1 2 3 4.
      unfold ret at 1.
      rewrite H1. cbn [world requests]. rewrite H2. cbn [world requests].
      rewrite H3. cbn [world requests]. rewrite H4. cbv beta iota.
      rewrite Hc. cbv beta iota. unfold bind, lift. rewrite H5. reflexivity.
    + intros collection w4 H4 H5.
      unfold syncCollectionToCms, syncCollectionToCms_body, getDefaultLanguageCode,
        syncCollection.
      cbv beta zeta. unfold try_catch, bind, on_world, throw, ret, lift.
      rewrite H1. cbn [world requests]. rewrite H2. cbn [world requests].
      rewrite H3. cbn [world requests]. rewrite H4. cbn [defaultLanguageCode].
      rewrite H5. reflexivity.
Qed.

End ServiceProofs.

(* ================================================================== *)
(** * The rate limiter *)
(* ================================================================== *)

Section RateLimiterProofs.

Variable World : Type.
Variable dateNow : World -> Z.
Variable sleep : Z -> World -> World.

Local Abbreviation enforce := (enforceRateLimit_timed World dateNow sleep).

Local Open Scope Z_scope.

(** X16: with a timer that does not fire early, a call of the rate
    limiter that runs without another call in between leaves
    [lastRequestTime] at least [rateLimitDelay] (20 ms) after its
    previous value.  It does not wait at all when that much time has
    passed already, and otherwise waits once, for exactly the time that
    is missing. *)
Theorem rate_limit_spacing (l : Limiter World) :
  (forall d w, 0 < d -> dateNow w + d <= dateNow (sleep d w)) ->
  lastRequestTime l + rateLimitDelay <= lastRequestTime (enforce l) /\
  (rateLimitDelay <= dateNow (limiter_world l) - lastRequestTime l ->
   limiter_world (enforce l) = limiter_world l) /\
  (dateNow (limiter_world l) - lastRequestTime l < rateLimitDelay ->
   limiter_world (enforce l)
   = sleep (lastRequestTime l + rateLimitDelay - dateNow (limiter_world l))
           (limiter_world l)).
Proof.
  intros Htimer. unfold enforceRateLimit_timed, rateLimitDelay.
  cbv zeta. cbn [lastRequestTime limiter_world].
  set (now_ := dateNow (limiter_world l)).
  set (last := lastRequestTime l).
  destruct (Z.ltb_spec 0 (Z.max 0 (20 - (now_ - last)))) as [Hw|Hw].
  - assert (E : Z.max 0 (20 - (now_ - last)) = last + 20 - now_) by lia.
    rewrite E in *. specialize (Htimer (last + 20 - now_) (limiter_world l) Hw).
    fold now_ in Htimer. split; [lia|]. split; [lia|reflexivity].
  - split; [lia|]. split; [reflexivity|lia].
Qed.

End RateLimiterProofs.

(* ================================================================== *)
(** * Where the requests go *)
(* ================================================================== *)

Section RequestOrigin.

Variable World : Type.
Variable fetch : HttpRequest -> World -> Completion HttpResponse * World.
Variable enforceRateLimit : World -> World.
Variable findOneProduct : EntityId -> World -> Completion (option Product) * World.
Variable parentLookupFirst : World -> bool.
Variable encodeURIComponent : string -> string.
Variable JSON_stringify : Value -> string.
Variable StringToNumber : string -> Value.
Variable ToString : Value -> Completion string.
Variable validateTranslations : list Translation -> LanguageCode -> Completion unit.
Variable options : PluginInitOptions.

Local Abbreviation request_ :=
  (makeSanityRequest World fetch enforceRateLimit JSON_stringify options).
Local Abbreviation wellFormed := (Forall (fromPublisher JSON_stringify options)).
Local Abbreviation quiet := (fun new : list HttpRequest => new = []).

Lemma wf_bind {A B : Type} (m : M (State World) A) (k : A -> M (State World) B) :
  appends wellFormed m -> (forall a, appends wellFormed (k a)) ->
  appends wellFormed (bind m k).
Proof.
  intros Hm Hk. apply (appends_bind World wellFormed wellFormed _ m k Hm Hk).
  - auto.
  - intros l1 l2 H1 H2. apply Forall_app. split; assumption.
Qed.

Lemma wf_try {A : Type} (body : M (State World) A)
    (handler : Thrown -> M (State World) A) :
  appends wellFormed body -> (forall e, appends wellFormed (handler e)) ->
  appends wellFormed (try_catch body handler).
Proof.
  intros Hm Hk. apply (appends_try World wellFormed wellFormed _ body handler Hm Hk).
  - auto.
  - intros l1 l2 H1 H2. apply Forall_app. split; assumption.
Qed.

Lemma wf_all2 {A B : Type} (pFirst : World -> bool)
    (p : M (State World) A) (q : M (State World) B) :
  appends wellFormed p -> appends wellFormed q ->
  appends wellFormed (promiseAll2 World pFirst p q).
Proof.
  intros Hp Hq s. unfold promiseAll2. destruct (pFirst (world s)).
  - destruct (Hp s) as (l1 & E1 & P1). destruct (p s) as [x s1]. cbn in E1.
    destruct (Hq s1) as (l2 & E2 & P2). destruct (q s1) as [y s2]. cbn in E2.
    exists (l1 ++ l2)%list. cbn. rewrite E2, E1, app_assoc. split; [reflexivity|].
    apply Forall_app. split; assumption.
  - destruct (Hq s) as (l1 & E1 & P1). destruct (q s) as [y s1]. cbn in E1.
    destruct (Hp s1) as (l2 & E2 & P2). destruct (p s1) as [x s2]. cbn in E2.
    exists (l1 ++ l2)%list. cbn. rewrite E2, E1, app_assoc. split; [reflexivity|].
    apply Forall_app. split; assumption.
Qed.

Lemma wf_quiet {A : Type} (m : M (State World) A) :
  appends quiet m -> appends wellFormed m.
Proof. apply appends_weaken. intros new ->. constructor. Qed.

Lemma query_ok (q : string) :
  appends wellFormed
    (request_ GET ("data/query/" ++ dataset options ++ "?query=" ++ q) None).
Proof.
  intros s. eexists. split; [apply request_sends|].
  constructor; [|constructor]. left. exists q. reflexivity.
Qed.

Lemma mutation_ok (ms : Value) :
  appends wellFormed
    (request_ POST (mutate_endpoint options) (Some (Obj [("mutations", ms)]))).
Proof.
  intros s. eexists. split; [apply request_sends|].
  constructor; [|constructor]. right. exists ms. reflexivity.
Qed.

(** Walks through an operation of the publisher, part by part. *)
Ltac origin :=
  repeat first
    [ apply query_ok
    | apply mutation_ok
    | apply wf_bind
    | apply wf_try
    | apply wf_all2
    | apply wf_quiet;
      first [ apply appends_ret | apply appends_throw | apply appends_lift
            | apply appends_on_world ]
    | match goal with |- forall _, _ => intro end
    | match goal with |- appends _ (match ?x with _ => _ end) => destruct x end ].

Ltac open_publisher :=
  unfold syncProduct, syncProductVariant, syncCollection,
    updateDocumentFromProduct, updateDocumentFromVariant, updateDocumentFromCollection,
    deleteDocumentFromProduct, deleteDocumentFromVariant, deleteDocumentFromCollection,
    createDocumentFromProduct, createDocumentFromVariant, createDocumentFromCollection,
    transformProductData, transformVariantData, transformCollectionData,
    findParentProductDocumentId, getCollectionDocumentIds, findDocumentByVendureId,
    lookup_endpoint, create_mutation, patch_mutation, delete_mutation;
  cbv zeta.

(** X17: every request a sync operation of the publisher sends is
    either a query of the configured dataset or a list of mutations
    posted to the mutate endpoint of that dataset.  So every request
    goes to the API host of the configured project and carries the
    bearer and content-type headers (with the text "undefined" for a
    key that is not configured); a read has no body, and a write has the
    serialised [mutations] object as its body. *)
Theorem requests_are_well_formed :
  (forall p lang op slug_,
      appends (Forall (fromPublisher JSON_stringify options))
        (syncProduct World fetch enforceRateLimit encodeURIComponent JSON_stringify
           StringToNumber ToString validateTranslations options p lang op slug_)) /\
  (forall variant lang op slug_ cs,
      appends (Forall (fromPublisher JSON_stringify options))
        (syncProductVariant World fetch enforceRateLimit findOneProduct parentLookupFirst
           encodeURIComponent JSON_stringify StringToNumber ToString
           validateTranslations options variant lang op slug_ cs)) /\
  (forall c lang op slug_,
      appends (Forall (fromPublisher JSON_stringify options))
        (syncCollection World fetch enforceRateLimit encodeURIComponent JSON_stringify
           StringToNumber ToString validateTranslations options c lang op slug_)) /\
  (forall r,
      fromPublisher JSON_stringify options r ->
      req_headers r
      = [ ("Authorization",
           "Bearer " ++ match sanityApiKey options with
                        | Some k => k
                        | None => "undefined"
                        end);
          ("Content-Type", "application/json") ] /\
      (exists path, req_url r = sanityBaseUrl options ++ "/data/" ++ path) /\
      (req_method r = GET /\ req_body r = None \/
       req_method r = POST /\
       exists ms, req_body r = Some (JSON_stringify (Obj [("mutations", ms)])))).
Proof.
  split; [|split; [|split]].
  - intros p lang op slug_. open_publisher. origin.
  - intros variant lang op slug_ cs. open_publisher. origin.
  - intros c lang op slug_. open_publisher. origin.
  - intros r [(q & ->)|(ms & ->)].
    + split; [reflexivity|]. split; [eexists; reflexivity|]. left. split; reflexivity.
    + split; [reflexivity|]. split; [eexists; reflexivity|]. right.
      split; [reflexivity|]. exists ms. reflexivity.
Qed.

End RequestOrigin.

(* ================================================================== *)
(** * The progress counters of a sweep *)
(* ================================================================== *)

Section SweepProgress.

Variable World : Type.
Variable T : Type.
Variable id : T -> EntityId.
Variable entityType_ : EntityKind.
Variable syncMethod : SyncJobData -> M (State World) SyncResponse.
Variable clock : World -> string.

Local Abbreviation stepJob_ := (stepJob World T id entityType_ syncMethod clock).
Local Abbreviation wave_ := (wave World T id entityType_ syncMethod clock).

Implicit Types (job : Job T) (r : Run World T).

Lemma steps_processed (batch : list (Job T)) :
  forall r,
    processed (locals r) = successCount (locals r) + errorCount (locals r) ->
    processed (locals (fold_left stepJob_ batch r))
    = successCount (locals (fold_left stepJob_ batch r))
      + errorCount (locals (fold_left stepJob_ batch r)).
Proof.
  induction batch as [|job rest IH]; intros r H; simpl; [exact H|].
  apply IH.
  destruct (stepJob_cases World T id entityType_ syncMethod clock r job)
    as (d & s' & _ & _ & _ & _ & Hl).
  destruct Hl as [(_ & ->)|[(_ & _ & ->)|(_ & _ & ->)]];
    cbn [processed successCount errorCount]; lia.
Qed.

(** X18: the counters the sweep logs after every wave are consistent:
    from the start and after every wave, [processed] is
    [successCount + errorCount], and [processed] plus the length of the
    queue is the number of entities loaded; so when the loop ends,
    which it does, every entity has been processed. *)
Theorem sweep_progress_counters (entities : list T) (s : State World) :
  let consistent := fun r =>
    processed (locals r) = successCount (locals r) + errorCount (locals r) /\
    processed (locals r) + List.length (queue (locals r)) = List.length entities in
  consistent (startRun World T entities s) /\
  (forall r, consistent r ->
             consistent (wave World T id entityType_ syncMethod clock r)) /\
  (forall fuel,
      5 * List.length entities <= fuel ->
      exists r,
        sweepLoop World T id entityType_ syncMethod clock fuel entities s = Some r /\
        processed (locals r) = List.length entities).
Proof.
  intros consistent.
  assert (Hstart : consistent (startRun World T entities s)).
  { split; cbn [startRun locals processed successCount errorCount queue];
      [reflexivity|]. now rewrite length_map. }
  assert (Hwave : forall r, consistent r -> consistent (wave_ r)).
  { intros r [Hp Hq].
    assert (Hp' : processed (locals (wave_ r))
                  = successCount (locals (wave_ r)) + errorCount (locals (wave_ r))).
    { rewrite (wave_as_steps World T id entityType_ syncMethod clock r).
      apply steps_processed. exact Hp. }
    split; [exact Hp'|].
    pose proof (wave_counts World T id entityType_ syncMethod clock r) as Hc.
    lia. }
  split; [exact Hstart|]. split; [exact Hwave|].
  intros fuel Hfuel.
  destruct (sweepLoop_result World T id entityType_ syncMethod clock entities s fuel Hfuel)
    as (r & Hr & Hq & _).
  exists r. split; [exact Hr|].
  destruct (whileQueue_invariant World T id entityType_ syncMethod clock consistent
              (fun r0 _ H => Hwave r0 H) fuel _ r Hr Hstart) as [[_ H] _].
  rewrite Hq in H. simpl in H. lia.
Qed.

End SweepProgress.

(* ================================================================== *)
(** * What a create makes of the answer *)
(* ================================================================== *)

Section CreateOutcome.

Variable World : Type.
Variable fetch : HttpRequest -> World -> Completion HttpResponse * World.
Variable enforceRateLimit : World -> World.
Variable findOneProduct : EntityId -> World -> Completion (option Product) * World.
Variable parentLookupFirst : World -> bool.
Variable encodeURIComponent : string -> string.
Variable JSON_stringify : Value -> string.
Variable StringToNumber : string -> Value.
Variable ToString : Value -> Completion string.
Variable options : PluginInitOptions.

Local Abbreviation request_ :=
  (makeSanityRequest World fetch enforceRateLimit JSON_stringify options).
Local Abbreviation requestFor_ := (requestFor JSON_stringify options).
Local Abbreviation mutate_ := (mutate_endpoint options).
Local Abbreviation transformP := (transformProductData World StringToNumber).
Local Abbreviation transformV :=
  (transformVariantData World fetch enforceRateLimit findOneProduct parentLookupFirst
    encodeURIComponent
     JSON_stringify StringToNumber ToString options).
Local Abbreviation transformC := (transformCollectionData World StringToNumber).
Local Abbreviation createP :=
  (createDocumentFromProduct World fetch enforceRateLimit JSON_stringify
     StringToNumber ToString options).
Local Abbreviation createV :=
  (createDocumentFromVariant World fetch enforceRateLimit findOneProduct parentLookupFirst
     encodeURIComponent JSON_stringify StringToNumber ToString options).
Local Abbreviation createC :=
  (createDocumentFromCollection World fetch enforceRateLimit JSON_stringify
     StringToNumber ToString options).

Implicit Types (s : State World).

(** The shape the three create methods share, once the transform has
    given data. *)
Lemma create_path (transform : M (State World) (option Value)) s d s1 :
  transform s = (Normal (Some d), s1) ->
  let create := Some (create_mutation d) in
  let run :=
    (data <- transform ;;
     match data with
     | None => ret tt
     | Some d =>
         result <- request_ POST mutate_ (Some (create_mutation d)) ;;
         results <- lift (get_prop result "results") ;;
         _ <- lift (ToString (get_prop_opt (get_index_opt results 0) "id")) ;;
         ret tt
     end)%async in
  requests (snd (run s)) = (requests s1 ++ [requestFor_ POST mutate_ create])%list /\
      (forall e,
          fst (request_ POST mutate_ create s1) = Abrupt e ->
          fst (run s) = Abrupt e) /\
      (forall result,
          fst (request_ POST mutate_ create s1) = Normal result ->
          fst (run s)
          = match get_prop result "results" with
            | Abrupt e => Abrupt e
            | Normal results =>
                match ToString (get_prop_opt (get_index_opt results 0) "id") with
                | Normal _ => Normal tt
                | Abrupt e => Abrupt e
                end
            end) /\
      (forall result,
          fst (request_ POST mutate_ create s1) = Normal result ->
          nullish result = true ->
          is_normal (fst (run s)) = false).
Proof.
  intros Hd create run. unfold run, create.
  pose proof (request_sends World fetch enforceRateLimit JSON_stringify options
                POST mutate_ (Some (create_mutation d)) s1) as H.
  set (rq := request_ POST mutate_) in *.
  unfold bind, ret, lift. rewrite Hd. cbv beta iota.
  destruct (rq (Some (create_mutation d)) s1) as [[r|e] s2]; cbn [fst snd] in *.
  - split.
    { destruct (get_prop r "results") as [results|]; [|exact H].
      destruct (ToString _); exact H. }
    split; [discriminate|]. split.
    + intros result E. inversion E. subst result.
      destruct (get_prop r "results") as [results|]; [|reflexivity].
      destruct (ToString _); reflexivity.
    + intros result E N. inversion E. subst result.
      destruct r; try discriminate; reflexivity.
  - split; [exact H|]. split; [|split; discriminate].
    intros e0 E. inversion E. reflexivity.
Qed.

(** X19: once the transform has given data, a create sends exactly one
    request, the [POST] of [{ mutations: [{ create: data }] }], and
    throws what that request throws.  When the request returns, the
    answer is read for the line that reports the create, the document
    having been written: reading [results] of an answer that is [null]
    or [undefined] throws, and so does a conversion to text of
    [results?.[0]?.id] that throws; the create returns exactly when
    neither does. *)
Theorem create_reads_the_answer :
  (forall p lang slug_ s d,
      fst (transformP p lang slug_ s) = Normal (Some d) ->
      let create := Some (create_mutation d) in
      requests (snd (createP p lang slug_ s))
      = (requests s ++ [requestFor_ POST mutate_ create])%list /\
      (forall e,
          fst (request_ POST mutate_ create s) = Abrupt e ->
          fst (createP p lang slug_ s) = Abrupt e) /\
      (forall result,
          fst (request_ POST mutate_ create s) = Normal result ->
          fst (createP p lang slug_ s)
          = match get_prop result "results" with
            | Abrupt e => Abrupt e
            | Normal results =>
                match ToString (get_prop_opt (get_index_opt results 0) "id") with
                | Normal _ => Normal tt
                | Abrupt e => Abrupt e
                end
            end) /\
      (forall result,
          fst (request_ POST mutate_ create s) = Normal result ->
          nullish result = true ->
          is_normal (fst (createP p lang slug_ s)) = false)) /\
  (forall c lang slug_ s d,
      fst (transformC c lang slug_ s) = Normal (Some d) ->
      let create := Some (create_mutation d) in
      requests (snd (createC c lang slug_ s))
      = (requests s ++ [requestFor_ POST mutate_ create])%list /\
      (forall e,
          fst (request_ POST mutate_ create s) = Abrupt e ->
          fst (createC c lang slug_ s) = Abrupt e) /\
      (forall result,
          fst (request_ POST mutate_ create s) = Normal result ->
          fst (createC c lang slug_ s)
          = match get_prop result "results" with
            | Abrupt e => Abrupt e
            | Normal results =>
                match ToString (get_prop_opt (get_index_opt results 0) "id") with
                | Normal _ => Normal tt
                | Abrupt e => Abrupt e
                end
            end) /\
      (forall result,
          fst (request_ POST mutate_ create s) = Normal result ->
          nullish result = true ->
          is_normal (fst (createC c lang slug_ s)) = false)) /\
  (forall variant lang slug_ cs s d s1,
      transformV variant lang slug_ cs s = (Normal (Some d), s1) ->
      let create := Some (create_mutation d) in
      requests (snd (createV variant lang slug_ cs s))
      = (requests s1 ++ [requestFor_ POST mutate_ create])%list /\
      (forall e,
          fst (request_ POST mutate_ create s1) = Abrupt e ->
          fst (createV variant lang slug_ cs s) = Abrupt e) /\
      (forall result,
          fst (request_ POST mutate_ create s1) = Normal result ->
          fst (createV variant lang slug_ cs s)
          = match get_prop result "results" with
            | Abrupt e => Abrupt e
            | Normal results =>
                match ToString (get_prop_opt (get_index_opt results 0) "id") with
                | Normal _ => Normal tt
                | Abrupt e => Abrupt e
                end
            end) /\
      (forall result,
          fst (request_ POST mutate_ create s1) = Normal result ->
          nullish result = true ->
          is_normal (fst (createV variant lang slug_ cs s)) = false)).
Proof.
  split; [|split].
  - intros p lang slug_ s d Hd create.
    assert (Hd' : transformP p lang slug_ s = (Normal (Some d), s)).
    { revert Hd. unfold transformProductData.
      destruct (getTranslationByLanguage _ _); cbn; intros H; inversion H; reflexivity. }
    exact (create_path (transformP p lang slug_) s d s Hd').
  - intros c lang slug_ s d Hd create.
    assert (Hd' : transformC c lang slug_ s = (Normal (Some d), s)).
    { revert Hd. unfold transformCollectionData.
      destruct (getTranslationByLanguage _ _); cbn; intros H; inversion H; reflexivity. }
    exact (create_path (transformC c lang slug_) s d s Hd').
  - intros variant lang slug_ cs s d s1 Hd create.
    exact (create_path (transformV variant lang slug_ cs) s d s1 Hd).
Qed.

End CreateOutcome.

(* ================================================================== *)
(** * The further properties on the concrete scenario *)
(* ================================================================== *)

Lemma sweep_fan_out_and_call_count_witness :
  exists r,
    sweepLoop Scenario.World nat Scenario.entityOf KProduct Scenario.flakySync
              Scenario.clock 15 [12; 13; 14] Scenario.start = Some r /\
    faithful Scenario.flakySync (calls r) Scenario.start (io r) /\
    3 <= List.length (calls r) <= 15.
Proof.
  destruct (sweep_fan_out_and_call_count Scenario.World nat Scenario.entityOf KProduct
              Scenario.flakySync Scenario.clock) as (_ & H).
  destruct (H [12; 13; 14] Scenario.start 15) as (r & Hr & Hn).
  - simpl. lia.
  - exists r. split; [exact Hr|exact Hn].
Defined.

Lemma quiet_sweep_visits_in_order_witness :
  exists r,
    sweepLoop Scenario.World nat Scenario.entityOf KProduct Scenario.reportingSync
              Scenario.clock 15 [12; 13; 14] Scenario.start = Some r /\
    map (fun d => entityId (d_data d)) (calls r) = [IdNum 12; IdNum 13; IdNum 14].
Proof.
  destruct (quiet_sweep_visits_in_order Scenario.World nat Scenario.entityOf KProduct
              Scenario.reportingSync Scenario.clock [12; 13; 14] Scenario.start 15)
    as (r & Hr & _ & Hids & _).
  - intros data s0. eexists. eexists. reflexivity.
  - simpl. lia.
  - exists r. split; [exact Hr|exact Hids].
Defined.

Lemma first_attempts_precede_retries_witness :
  exists r retries,
    sweepLoop Scenario.World nat Scenario.entityOf KProduct Scenario.flakySync
              Scenario.clock 15 [12; 13; 14] Scenario.start = Some r /\
    map (fun d => entityId (d_data d)) (calls r)
    = ([IdNum 12; IdNum 13; IdNum 14] ++ retries)%list.
Proof.
  destruct (first_attempts_precede_retries Scenario.World nat Scenario.entityOf KProduct
              Scenario.flakySync Scenario.clock [12; 13; 14] Scenario.start 15)
    as (r & retries & Hr & _ & Hids).
  - simpl. lia.
  - exists r, retries. split; [exact Hr|exact Hids].
Defined.

(** The calls of the sweep over 12, 13 and 14, of which 13 always
    throws: the three first attempts, then the four retries of 13. *)
Example sweep_retries_come_last :
  option_map (fun r => map (fun d => (entityId (d_data d), retryCount (d_data d)))
                           (calls r))
    (sweepLoop Scenario.World nat Scenario.entityOf KProduct Scenario.flakySync
               Scenario.clock 15 [12; 13; 14] Scenario.start)
  = Some [ (IdNum 12, 0); (IdNum 13, 0); (IdNum 14, 0);
           (IdNum 13, 1); (IdNum 13, 2); (IdNum 13, 3); (IdNum 13, 4) ].
Proof. vm_compute. reflexivity. Qed.

(** The same sweep with a sync method that writes down what it is called
    with: what it receives is what the history of the sweep records, and
    the sweep counts its throws as failures. *)
Example sweep_calls_on_tape :
  option_map (fun r => (world (io r),
                        map (fun d => (entityId (d_data d), operationType (d_data d),
                                       retryCount (d_data d))) (calls r),
                        (successCount (locals r), errorCount (locals r))))
    (Scenario.tapeSweep 15 [12; 13; 14])
  = Some ([ (IdNum 12, Update, 0); (IdNum 13, Update, 0); (IdNum 14, Update, 0);
            (IdNum 13, Update, 1); (IdNum 13, Update, 2); (IdNum 13, Update, 3);
            (IdNum 13, Update, 4) ],
          [ (IdNum 12, Update, 0); (IdNum 13, Update, 0); (IdNum 14, Update, 0);
            (IdNum 13, Update, 1); (IdNum 13, Update, 2); (IdNum 13, Update, 3);
            (IdNum 13, Update, 4) ],
          (2, 1)).
Proof. vm_compute. reflexivity. Qed.

Lemma request_outcomes_witness :
  fst (makeSanityRequest Scenario.World Scenario.fetchRefusing Scenario.noDelay
         Scenario.opaqueJson Scenario.options GET "data/query/production" None
         Scenario.start)
  = Abrupt (ErrorObj "Sanity API error: 503 Service Unavailable - busy").
Proof.
  destruct (request_outcomes Scenario.World Scenario.fetchRefusing Scenario.noDelay
              Scenario.opaqueJson Scenario.options GET "data/query/production" None
              Scenario.start) as (_ & _ & _ & H).
  exact (f_equal fst (H (mkResponse false 503 "Service Unavailable" (Normal "busy")
                           (Abrupt (ErrorObj "Unexpected token b in JSON"))) 1 eq_refl)).
Defined.

(** An error status whose body cannot be read: the error of reading it
    is what the request throws. *)
Example request_body_cut_off :
  makeSanityRequest Scenario.World Scenario.fetchCutOff Scenario.noDelay
    Scenario.opaqueJson Scenario.options GET "data/query/production" None Scenario.start
  = (Abrupt (ErrorObj "terminated"),
     mkState 1 [requestFor Scenario.opaqueJson Scenario.options GET
                  "data/query/production" None]).
Proof. reflexivity. Qed.

Lemma update_patches_the_document_found_witness :
  map req_method
      (requests
         (snd (updateDocumentFromProduct Scenario.World Scenario.fetchStored
                 Scenario.noDelay Scenario.plainEncoding Scenario.opaqueJson
                 Scenario.notNumeric Scenario.plainToString Scenario.options Scenario.widget
                   "en" None
                 Scenario.start)))
  = [GET; POST].
Proof.
  destruct (update_patches_the_document_found Scenario.World Scenario.fetchStored
              Scenario.noDelay Scenario.noProduct Scenario.parentFirst Scenario.plainEncoding
              Scenario.opaqueJson Scenario.notNumeric Scenario.plainToString
              Scenario.options) as (H & _).
  pose proof (H Scenario.widget "en" None Scenario.start Scenario.storedDocument
                Scenario.afterStoredLookup Scenario.widgetDocument
                eq_refl eq_refl eq_refl) as G.
  cbv zeta in G. destruct G as (Hr & _). rewrite Hr. reflexivity.
Defined.

(** A document found whose identifier has no conversion to text: the
    patch is sent, and the update throws while it reports it. *)
Example update_odd_identifier :
  updateDocumentFromProduct Scenario.World Scenario.fetchOdd Scenario.noDelay
    Scenario.plainEncoding Scenario.opaqueJson Scenario.notNumeric Scenario.plainToString
    Scenario.options Scenario.widget "en" None Scenario.start
  = (Abrupt (ErrorObj "Cannot convert object to primitive value"),
     mkState 2 [requestFor Scenario.opaqueJson Scenario.options GET
                  (lookup_endpoint Scenario.plainEncoding Scenario.options (IdNum 7)
                     DOCUMENT_TYPE_product) None;
                requestFor Scenario.opaqueJson Scenario.options POST
                  (mutate_endpoint Scenario.options)
                  (Some (patch_mutation Scenario.oddId Scenario.widgetDocument))]).
Proof. reflexivity. Qed.

Lemma delete_removes_the_document_found_witness :
  map req_method
      (requests
         (snd (deleteDocumentFromProduct Scenario.World Scenario.fetchStored
                 Scenario.noDelay Scenario.plainEncoding Scenario.opaqueJson
                 Scenario.options Scenario.widget Scenario.start)))
  = [GET; POST].
Proof.
  destruct (delete_removes_the_document_found Scenario.World Scenario.fetchStored
              Scenario.noDelay Scenario.plainEncoding Scenario.opaqueJson
              Scenario.options) as (H & _).
  pose proof (H Scenario.widget Scenario.start Scenario.storedDocument
                Scenario.afterStoredLookup eq_refl eq_refl) as G.
  cbv zeta in G. destruct G as (Hr & _). rewrite Hr. reflexivity.
Defined.

Lemma collection_ids_lookup_witness :
  fst (getCollectionDocumentIds Scenario.World Scenario.fetchDown Scenario.noDelay
         Scenario.plainEncoding Scenario.opaqueJson Scenario.options
         (Some [Scenario.widgets]) Scenario.start)
  = Normal [].
Proof.
  destruct (collection_ids_lookup Scenario.World Scenario.fetchDown Scenario.noDelay
              Scenario.plainEncoding Scenario.opaqueJson Scenario.options
              (Some [Scenario.widgets]) Scenario.start)
    as (ids & Hf & _ & ep & _ & _ & Hfail).
  rewrite Hf. f_equal. apply (Hfail (ErrorObj "fetch failed")). reflexivity.
Defined.

Lemma variant_transform_outcome_witness :
  exists doc s',
    transformVariantData Scenario.World Scenario.fetchDown Scenario.noDelay
      Scenario.noProduct Scenario.parentFirst Scenario.plainEncoding Scenario.opaqueJson
      Scenario.notNumeric Scenario.plainToString Scenario.options Scenario.widgetVariant "en"
      "widget-variant-70" (Some [Scenario.widgets]) Scenario.start
    = (Normal (Some doc), s') /\
    List.length (requests s') <= 2.
Proof.
  destruct (variant_transform_outcome Scenario.World Scenario.fetchDown
              Scenario.noDelay Scenario.noProduct Scenario.parentFirst
              Scenario.plainEncoding Scenario.opaqueJson Scenario.notNumeric
              Scenario.plainToString Scenario.options Scenario.widgetVariant "en"
              "widget-variant-70" (Some [Scenario.widgets]) Scenario.start) as (_ & H).
  destruct (H (mkTranslation "en" "Widget, large" "widget-large") eq_refl)
    as (parentId & parentRef & ids & s' & Hl & Hd & _ & _ & _ & _ & reads & Hr & _ & Hlen).
  inversion Hl. subst. eexists. eexists. split; [exact Hd|]. simpl. lia.
Defined.

(** A collection document whose identifier has no conversion to text:
    both lookups are made, whichever goes first, and the transform
    throws while it builds the key of the reference. *)
Example variant_transform_odd_identifier :
  transformVariantData Scenario.World Scenario.fetchOddList Scenario.noDelay
    Scenario.noProduct Scenario.parentFirst Scenario.plainEncoding Scenario.opaqueJson
    Scenario.notNumeric Scenario.plainToString Scenario.options Scenario.widgetVariant "en"
    "widget-variant-70" (Some [Scenario.widgets]) Scenario.start
  = (Abrupt (ErrorObj "Cannot convert object to primitive value"),
     mkState 1 [requestFor Scenario.opaqueJson Scenario.options GET
                  ("data/query/production?query=*[_type == " ++ quote
                   ++ DOCUMENT_TYPE_collection ++ quote ++ " && (vendureId == 3)]")
                  None]) /\
  fst (transformVariantData Scenario.World Scenario.fetchOddList Scenario.noDelay
         Scenario.noProduct Scenario.collectionsFirst Scenario.plainEncoding
         Scenario.opaqueJson Scenario.notNumeric Scenario.plainToString Scenario.options
         Scenario.widgetVariant "en" "widget-variant-70" (Some [Scenario.widgets])
         Scenario.start)
  = Abrupt (ErrorObj "Cannot convert object to primitive value").
Proof. split; reflexivity. Qed.

Lemma collections_for_variant_witness :
  fst (findCollectionsForVariant Scenario.World unit Scenario.bothCollections
         Scenario.variantIdsOf tt (IdNum 70) Scenario.start)
  = Normal [Scenario.widgets].
Proof.
  destruct (collections_for_variant Scenario.World unit Scenario.bothCollections
              Scenario.variantIdsOf tt (IdNum 70) Scenario.start)
    as (found & Hf & _ & _ & H).
  destruct (H [Scenario.widgets; Scenario.gadgets] 0 eq_refl) as (_ & Hm).
  rewrite Hf. rewrite (Hm Scenario.membersOf).
  - reflexivity.
  - intros c w0. exists w0. reflexivity.
Defined.

Lemma variants_for_collection_witness :
  findVariantsForCollection Scenario.World unit Scenario.variantIdsOf
    Scenario.findNoCollection (fun _ w => (Normal [], w)) tt (IdNum 3) Scenario.start
  = (Normal [], Scenario.start).
Proof.
  destruct (variants_for_collection Scenario.World unit Scenario.variantIdsOf
              Scenario.findNoCollection (fun _ w => (Normal [], w)) tt (IdNum 3)
              Scenario.start) as (found & _ & _ & _ & H & _).
  exact (H 0 eq_refl).
Defined.

Lemma service_sweeps_succeed_within_budget_witness :
  exists s',
    syncAllProductsToCms Scenario.World Scenario.fetchDown Scenario.noDelay
      Scenario.plainEncoding Scenario.opaqueJson Scenario.notNumeric Scenario.plainToString
      Scenario.strictValidation Scenario.options Scenario.findWidget
      Scenario.findWidgets Scenario.englishChannel Scenario.clock 5 Scenario.start
    = Some (Normal (mkSummary true 1 1 0 []), s') /\
    List.length (requests s') <= 2.
Proof.
  destruct (service_sweeps_succeed_within_budget Scenario.World Scenario.fetchDown
              Scenario.noDelay Scenario.plainEncoding Scenario.opaqueJson
              Scenario.notNumeric Scenario.plainToString Scenario.strictValidation
              Scenario.options unit Scenario.findWidget Scenario.parentFirst Scenario.findNoVariant
              Scenario.findNoCollection Scenario.findWidgets Scenario.findNoVariants
              Scenario.findNoCollections Scenario.englishChannel Scenario.adminContext
              Scenario.noCollections Scenario.noVariantIds Scenario.clock
              5 Scenario.start) as (H & _).
  destruct (H [Scenario.widget] 0 eq_refl) as (s' & new & Hs & Hr & Hl & _).
  - simpl. lia.
  - exists s'. split; [exact Hs|]. rewrite Hr. exact Hl.
Defined.


Lemma missing_entity_is_reported_witness :
  syncProductToCms Scenario.World Scenario.fetchEmpty Scenario.noDelay
    Scenario.plainEncoding Scenario.opaqueJson Scenario.notNumeric Scenario.plainToString
    Scenario.strictValidation Scenario.options Scenario.noProduct
    Scenario.englishChannel Scenario.clock
    (mkJobData KProduct (IdNum 9) Update "2024-01-01T00:00:00.000Z" 0) Scenario.start
  = (Normal (mkSyncResponse false "Product sync failed: Product 9 not found" None),
     Scenario.start).
Proof.
  destruct (missing_entity_is_reported Scenario.World Scenario.fetchEmpty
              Scenario.noDelay Scenario.plainEncoding Scenario.opaqueJson
              Scenario.notNumeric Scenario.plainToString Scenario.strictValidation
              Scenario.options unit Scenario.noProduct Scenario.parentFirst Scenario.findNoVariant
              Scenario.findNoCollection Scenario.englishChannel Scenario.adminContext
              Scenario.noCollections Scenario.noVariantIds Scenario.clock
              (mkJobData KProduct (IdNum 9) Update "2024-01-01T00:00:00.000Z" 0)
              Scenario.start) as (H & _).
  exact (H 0 eq_refl).
Defined.

Lemma failed_validation_is_reported_unsent_witness :
  syncProductToCms Scenario.World Scenario.fetchEmpty Scenario.noDelay
    Scenario.plainEncoding Scenario.opaqueJson Scenario.notNumeric Scenario.plainToString
    Scenario.strictValidation Scenario.options Scenario.findUntranslated
    Scenario.englishChannel Scenario.clock
    (mkJobData KProduct (IdNum 8) Update "2024-01-01T00:00:00.000Z" 0) Scenario.start
  = (Normal (mkSyncResponse false
               "Product sync failed: No translation for the default language" None),
     Scenario.start).
Proof.
  destruct (failed_validation_is_reported_unsent Scenario.World Scenario.fetchEmpty
              Scenario.noDelay Scenario.plainEncoding Scenario.opaqueJson
              Scenario.notNumeric Scenario.plainToString Scenario.strictValidation
              Scenario.options unit Scenario.findUntranslated Scenario.parentFirst
                Scenario.findNoVariant
              Scenario.findNoCollection Scenario.englishChannel Scenario.adminContext
              Scenario.noCollections Scenario.noVariantIds Scenario.clock
              (mkJobData KProduct (IdNum 8) Update "2024-01-01T00:00:00.000Z" 0)
              Scenario.start
              (ErrorObj "No translation for the default language")) as (H & _).
  exact (H Scenario.untranslated 0 (mkChannel "en") 0 eq_refl eq_refl eq_refl).
Defined.

Lemma rate_limit_spacing_witness :
  (115 <= lastRequestTime
            (enforceRateLimit_timed Z Scenario.timeNow Scenario.sleepFor
               (mkLimiter Z 100%Z 95%Z)))%Z.
Proof.
  destruct (rate_limit_spacing Z Scenario.timeNow Scenario.sleepFor (mkLimiter Z 100%Z 95%Z))
    as (H & _).
  - intros d w Hd. unfold Scenario.timeNow, Scenario.sleepFor. lia.
  - exact H.
Defined.

(** The limiter on the millisecond clock: five milliseconds after the
    last request it waits fifteen; thirty milliseconds after, it does
    not wait. *)
Example rate_limit_waits_for_the_rest :
  enforceRateLimit_timed Z Scenario.timeNow Scenario.sleepFor (mkLimiter Z 100%Z 95%Z)
  = mkLimiter Z 115%Z 115%Z /\
  enforceRateLimit_timed Z Scenario.timeNow Scenario.sleepFor (mkLimiter Z 125%Z 95%Z)
  = mkLimiter Z 125%Z 125%Z.
Proof. split; reflexivity. Qed.

Lemma sweep_progress_counters_witness :
  exists r,
    sweepLoop Scenario.World nat Scenario.entityOf KProduct Scenario.flakySync
              Scenario.clock 15 [12; 13; 14] Scenario.start = Some r /\
    processed (locals r) = 3.
Proof.
  destruct (sweep_progress_counters Scenario.World nat Scenario.entityOf KProduct
              Scenario.flakySync Scenario.clock [12; 13; 14] Scenario.start)
    as (_ & _ & H).
  destruct (H 15) as (r & Hr & Hp).
  - simpl. lia.
  - exists r. split; [exact Hr|exact Hp].
Defined.

Lemma create_reads_the_answer_witness :
  is_normal
    (fst (createDocumentFromProduct Scenario.World Scenario.fetchNull Scenario.noDelay
            Scenario.opaqueJson Scenario.notNumeric Scenario.plainToString Scenario.options
              Scenario.widget
            "en" None Scenario.start))
  = false /\
  map req_method
      (requests
         (snd (createDocumentFromProduct Scenario.World Scenario.fetchNull
                 Scenario.noDelay Scenario.opaqueJson Scenario.notNumeric Scenario.plainToString
                 Scenario.options Scenario.widget "en" None Scenario.start)))
  = [POST].
Proof.
  destruct (create_reads_the_answer Scenario.World Scenario.fetchNull Scenario.noDelay
              Scenario.noProduct Scenario.parentFirst Scenario.plainEncoding Scenario.opaqueJson
              Scenario.notNumeric Scenario.plainToString Scenario.options) as (H & _).
  pose proof (H Scenario.widget "en" None Scenario.start Scenario.widgetDocument
                eq_refl) as G.
  cbv zeta in G. destruct G as (Hr & _ & _ & Hn). split.
  - exact (Hn Null eq_refl eq_refl).
  - rewrite Hr. reflexivity.
Defined.

(** An acknowledged create whose document identifier has no conversion
    to text: the document is written, and the create throws while it
    reports it. *)
Example create_odd_identifier :
  createDocumentFromProduct Scenario.World Scenario.fetchOdd Scenario.noDelay
    Scenario.opaqueJson Scenario.notNumeric Scenario.plainToString Scenario.options
    Scenario.widget "en" None Scenario.start
  = (Abrupt (ErrorObj "Cannot convert object to primitive value"),
     mkState 1 [requestFor Scenario.opaqueJson Scenario.options POST
                  (mutate_endpoint Scenario.options)
                  (Some (create_mutation Scenario.widgetDocument))]).
Proof. reflexivity. Qed.
